(** * PlistToConfig: schema inference over a template plist

    Shallow embedding of the parsing half of
    [Library/OcConfigurationLib/PlistToConfig.py]: the recursive walk
    [parse_elem] over an ElementTree document, the byte-length inference of
    [parse_data], and the declarations that [emit_array], [emit_map] and
    [emit_section_name] print into the [h_types] buffer.  The last parts
    embed the rest of the script: [customise_template] and the writing of the
    two files, and the loop over the command line.

    Modelling choices.
    - An ElementTree element is the record [elem]; its [attrib] dictionary is
      only ever queried for the keys 'type', 'size' and 'path', and is kept as
      an association list.
    - [h_types] is an [io.StringIO] that is only ever appended to by [print];
      it is the threaded state, kept as the list of printed chunks (one chunk
      per [print] call, newline included).  [h_read] is what [read()] gives.
    - [error] and [internal_error] print a prefixed message and leave through
      [sys.exit]; an uncaught Python exception leaves with a traceback.  The
      three ways out are the constructors [UserError], [InternalError] and
      [Crash] of [outcome]; the buffer as it was at that moment is still
      returned next to it.
    - The diagnostic channels ([plist_print], [plist_schema_print],
      [oc_schema_print], [debug]) write to stdout only, cannot raise, and
      never touch [h_types]; they are left out together with the [tab] and
      [indent] arguments, which are used for nothing else.
    - [str.upper] is taken on ASCII text.  [base64.b64decode] is a library
      routine: the development is parametric in it ([b64decode] returns [None]
      where the library raises); [a2b_base64] below is a decoder for the
      standard alphabet used to run the model on concrete documents. *)

From Stdlib Require Import String Ascii List Bool Arith NArith ZArith Lia FunInd.
From Stdlib.Strings Require Import Byte.
Import ListNotations.
Local Open Scope list_scope.
Local Open Scope string_scope.

(** ** Strings *)

Module Str.

(** [str.upper] on ASCII letters. *)
Definition upper_ascii (c : ascii) : ascii :=
  let n := nat_of_ascii c in
  (if (97 <=? n) && (n <=? 122) then ascii_of_nat (n - 32) else c)%nat.

Fixpoint upper (s : string) : string :=
  match s with
  | EmptyString => EmptyString
  | String c s' => String (upper_ascii c) (upper s')
  end.

(** ['_'.join(l)] and friends. *)
Fixpoint join (sep : string) (l : list string) : string :=
  match l with
  | [] => ""
  | [x] => x
  | x :: rest => x ++ sep ++ join sep rest
  end.

Fixpoint startswith (p s : string) : bool :=
  match p, s with
  | EmptyString, _ => true
  | String a p', String b s' => Ascii.eqb a b && startswith p' s'
  | String _ _, EmptyString => false
  end.

Definition hex_digit (n : N) : ascii :=
  (if n <? 10 then ascii_of_N (48 + n) else ascii_of_N (87 + n))%N.

(** [bytes.hex()]: two lower-case digits per byte. *)
Fixpoint hex (bs : list byte) : string :=
  match bs with
  | [] => ""
  | b :: rest =>
      let n := Byte.to_N b in
      String (hex_digit (n / 16)) (String (hex_digit (n mod 16)) (hex rest))
  end.

End Str.

(** ** A base64 decoder for the standard alphabet

    Non-strict decoding: characters outside the alphabet are skipped, a
    padding sequence that completes a quad ends the input, a dangling quad is
    an error. *)

Module Base64.

Definition value (c : ascii) : option N :=
  let n := N_of_ascii c in
  (if (65 <=? n) && (n <=? 90) then Some (n - 65)
   else if (97 <=? n) && (n <=? 122) then Some (n - 71)
   else if (48 <=? n) && (n <=? 57) then Some (n + 4)
   else if n =? 43 then Some 62
   else if n =? 47 then Some 63
   else None)%N.

Definition mk_byte (n : N) : byte := byte_of_ascii (ascii_of_N n).

Fixpoint decode_from (s : string) (quad_pos : nat) (leftchar : N) (pads : nat)
    (acc : list byte) : option (list byte) :=
  match s with
  | EmptyString => if (quad_pos =? 0)%nat then Some (rev acc) else None
  | String c s' =>
      if (128 <=? N_of_ascii c)%N then None
      else if Ascii.eqb c "="%char then
        if ((2 <=? quad_pos) && (4 <=? quad_pos + S pads))%nat then Some (rev acc)
        else decode_from s' quad_pos leftchar
               (if (2 <=? quad_pos)%nat then S pads else pads) acc
      else
        match value c with
        | None => decode_from s' quad_pos leftchar pads acc
        | Some v =>
            match quad_pos with
            | 0 => decode_from s' 1 v 0 acc
            | 1 => decode_from s' 2 (N.land v 15) 0
                     (mk_byte (N.lor (N.shiftl leftchar 2) (N.shiftr v 4)) :: acc)
            | 2 => decode_from s' 3 (N.land v 3) 0
                     (mk_byte (N.lor (N.shiftl leftchar 4) (N.shiftr v 2)) :: acc)
            | _ => decode_from s' 0 0%N 0
                     (mk_byte (N.lor (N.shiftl leftchar 6) v) :: acc)
            end
        end
  end.

Definition a2b_base64 (s : string) : option (list byte) :=
  decode_from s 0 0%N 0 [].

End Base64.

(** ** The document: ElementTree elements *)

#[local] Unset Elimination Schemes.
Inductive elem : Type :=
  Elem (tag : string) (attrib : list (string * string)) (text : option string)
       (children : list elem).
#[local] Set Elimination Schemes.

Definition tag (e : elem) : string := let 'Elem t _ _ _ := e in t.
Definition attrib (e : elem) : list (string * string) := let 'Elem _ a _ _ := e in a.
Definition text (e : elem) : option string := let 'Elem _ _ x _ := e in x.
Definition children (e : elem) : list elem := let 'Elem _ _ _ c := e in c.

(** [elem.attrib[k] if k in elem.attrib else None] *)
Fixpoint attr (k : string) (a : list (string * string)) : option string :=
  match a with
  | [] => None
  | (k', v) :: rest => if String.eqb k k' then Some v else attr k rest
  end.

(** ** Schema objects *)

(** [PlistKey]; [schema_type] is the constant 'key'. *)
Record PlistKey : Type := mkPlistKey {
  key_value : option string;
  key_path_spec : option string
}.

(** [PlistKey.__init__]: the path segment defaults to the key's text. *)
Definition new_PlistKey (value path_spec : option string) : PlistKey :=
  mkPlistKey value (match path_spec with None => value | Some _ => path_spec end).

(** The [size] of a data element is the text of its 'size' attribute or the
    integer length inferred from the literal. *)
Inductive size_t : Type :=
| SizeAttr (s : string)
| SizeLen (n : nat).

Inductive of_t (A : Type) : Type :=
| OfNone
| OfElem (child : A)
| OfKey (k : PlistKey)
| OfList (fields : list A).
Arguments OfNone {A}.
Arguments OfElem {A} child.
Arguments OfKey {A} k.
Arguments OfList {A} fields.

#[local] Unset Elimination Schemes.
Inductive OcSchemaElement : Type := mkOc {
  schema_type : string;
  name : option string;
  path : option (list string);
  size : option size_t;
  value : option string;
  of_ : of_t OcSchemaElement;
  def_name : option string
}.
#[local] Set Elimination Schemes.

(** What [parse_elem] hands back: a [PlistKey] for <key>, an
    [OcSchemaElement] for everything else. *)
Inductive node : Type :=
| NKey (k : PlistKey)
| NOc (o : OcSchemaElement).

Definition node_schema_type (n : node) : string :=
  match n with NKey _ => "key" | NOc o => schema_type o end.

Definition node_value (n : node) : option string :=
  match n with NKey k => key_value k | NOc o => value o end.

(** ** Output buffer, errors *)

Definition buffer : Type := list string.

Definition h_read (b : buffer) : string := String.concat "" b.

Inductive outcome (A : Type) : Type :=
| Ok (a : A)
| UserError (msg : string)
| InternalError (msg : string)
| Crash (exc : string).
Arguments Ok {A} a.
Arguments UserError {A} msg.
Arguments InternalError {A} msg.
Arguments Crash {A} exc.

Definition M (A : Type) : Type := buffer -> outcome A * buffer.

Definition ret {A} (a : A) : M A := fun h => (Ok a, h).

Definition bind {A B} (m : M A) (f : A -> M B) : M B :=
  fun h =>
    match m h with
    | (Ok a, h') => f a h'
    | (UserError msg, h') => (UserError msg, h')
    | (InternalError msg, h') => (InternalError msg, h')
    | (Crash exc, h') => (Crash exc, h')
    end.

Notation "x <- m ;; k" := (bind m (fun x => k))
  (at level 61, m at next level, right associativity).
Notation "m ;;; k" := (bind m (fun _ => k))
  (at level 61, right associativity).

(** [error] and [internal_error]: the message is the concatenation of the
    arguments. *)
Definition error {A} (msg : string) : M A := fun h => (UserError msg, h).
Definition internal_error {A} (msg : string) : M A := fun h => (InternalError msg, h).
Definition raise {A} (exc : string) : M A := fun h => (Crash exc, h).

Definition nl : string := String (ascii_of_nat 10) "".

(** [print(line, file = h_types)] *)
Definition print (line : string) : M unit := fun h => (Ok tt, app h [line ++ nl]).

(** ['%s' % x] on an optional string. *)
Definition fmt (x : option string) : string :=
  match x with None => "None" | Some s => s end.

Definition dq : string := String (ascii_of_nat 34) "".

Definition is_none {A} (x : option A) : bool :=
  match x with None => true | Some _ => false end.

(** [OcSchemaElement(schema_type, name=None, path, size, value, of, def_name)] *)
Definition new_OcSchemaElement (schema_type : string) (path : option (list string))
    (size : option size_t) (value : option string) (of_ : of_t OcSchemaElement)
    (def_name : option string) : OcSchemaElement :=
  mkOc schema_type None path size value of_ def_name.

(** [OcSchemaElement.set_name] on whatever [parse_elem] returned for the value
    of a field.  A [PlistKey] has no such method. *)
Definition set_name (n : node) (new_name : option string) : M OcSchemaElement :=
  match n with
  | NKey _ => raise "AttributeError"
  | NOc o =>
      match name o with
      | Some _ => internal_error "name should not get set more than once on OcSchemaElement"
      | None =>
          ret (mkOc (schema_type o) new_name (path o) (size o) (value o) (of_ o) (def_name o))
      end
  end.

Definition set_def_name (o : OcSchemaElement) (d : string) : OcSchemaElement :=
  mkOc (schema_type o) (name o) (path o) (size o) (value o) (of_ o) (Some d).

(** The [of] slot of an array or map holds whatever was parsed as its
    template, a [PlistKey] included. *)
Definition of_node (n : node) : of_t OcSchemaElement :=
  match n with NKey k => OfKey k | NOc o => OfElem o end.

(** [x.of.def_name] *)
Definition of_def_name (o : OcSchemaElement) : M (option string) :=
  match of_ o with
  | OfElem c => ret (def_name c)
  | _ => raise "AttributeError"
  end.

(** [len(path)]; [for p in path] *)
Definition path_segments (path : option (list string)) : M (list string) :=
  match path with
  | None => raise "TypeError"
  | Some p => ret p
  end.

(** [new_path]: a copy of [path] with [key] appended when there is one. *)
Definition extend_path (path : option (list string)) (key : option string)
    : option (list string) :=
  match path with
  | None => None
  | Some p => Some (match key with None => p | Some k => app p [k] end)
  end.

Section PlistToConfig.

(** [camel_prefix] is the value of the -p flag (or DEFAULT_PREFIX). *)
Variable camel_prefix : string.
Variable b64decode : string -> option (list byte).

Definition upper_prefix : string := Str.upper camel_prefix.

(** *** Emit file elements *)

Definition emit_section_name (key : node) : M unit :=
  print "/**" ;;;
  print ("  " ++ fmt (node_value key) ++ " section") ;;;
  print "**/" ;;;
  print "".

Definition upper_path (path : option (list string)) : M string :=
  p <- path_segments path ;;
  ret (Str.join "_" (map Str.upper p)).

Definition emit_array (elem_array : OcSchemaElement) (context : option string)
    : M OcSchemaElement :=
  let context_type :=
    match context with
    | Some c => if String.eqb c "map" then "ENTRY" else "ARRAY"
    | None => "ARRAY"
    end in
  upath <- upper_path (path elem_array) ;;
  let elem_array :=
    set_def_name elem_array (upper_prefix ++ "_" ++ upath ++ "_" ++ context_type) in
  print ("#define " ++ fmt (def_name elem_array) ++ "_FIELDS(_, __) \") ;;;
  d <- of_def_name elem_array ;;
  print ("  OC_ARRAY (" ++ fmt d ++ ", _, __)") ;;;
  print ("  OC_DECLARE (" ++ fmt (def_name elem_array) ++ ")") ;;;
  print "" ;;;
  ret elem_array.

Definition emit_map (elem_map : OcSchemaElement) : M OcSchemaElement :=
  upath <- upper_path (path elem_map) ;;
  let elem_map := set_def_name elem_map (upper_prefix ++ "_" ++ upath ++ "_MAP") in
  print ("#define " ++ fmt (def_name elem_map) ++ "_FIELDS(_, __) \") ;;;
  d <- of_def_name elem_map ;;
  print ("  OC_MAP (OC_STRING, " ++ fmt d ++ ", _, __)") ;;;
  print ("  OC_DECLARE (" ++ fmt (def_name elem_map) ++ ")") ;;;
  print "" ;;;
  ret elem_map.

(** *** Parsing *)

(** The branch of [parse_data] on the decoded length: the type read off the
    literal, and the size as it stands afterwards. *)
Definition type_from_length (length : nat) (size : option size_t)
    : string * option size_t :=
  (if length =? 2 then ("uint16", size)
   else if length =? 4 then ("uint32", size)
   else if length =? 8 then ("uint64", size)
   else ("uint8",
         if negb (length =? 1) && is_none size then Some (SizeLen length) else size))%nat.

Definition parse_data (e : elem) (path : option (list string)) : M node :=
  let schema_type := attr "type" (attrib e) in
  let size := option_map SizeAttr (attr "size" (attrib e)) in
  let data := text e in
  data_bytes <-
    match data with
    | Some d =>
        match b64decode d with
        | Some bs => ret (Some bs)
        | None => raise "binascii.Error"
        end
    | None => ret None
    end ;;
  let data_print := option_map (fun bs => "0x" ++ Str.hex bs) data_bytes in
  let '(schema_type, size) :=
    match data_bytes with
    | Some bs =>
        if is_none schema_type || is_none size then
          let '(type_from_data, size) := type_from_length (List.length bs) size in
          (match schema_type with None => Some type_from_data | Some _ => schema_type end,
           size)
        else (schema_type, size)
    | None => (schema_type, size)
    end in
  schema_type <-
    match schema_type with
    | None => ret (match size with None => "blob" | Some _ => "uint8" end)
    | Some t =>
        if String.eqb t "blob" && negb (is_none size)
        then error ("size attribute not valid with schema_type=" ++ dq ++ "blob" ++ dq)
        else ret t
    end ;;
  let schema_type := if String.eqb schema_type "blob" then "oc_data" else schema_type in
  ret (NOc (new_OcSchemaElement (Str.upper schema_type) path size data_print OfNone None)).

Definition parse_key (e : elem) : M node :=
  ret (NKey (new_PlistKey (text e) (attr "path" (attrib e)))).

Definition display_name (e : elem) (map : bool) : string :=
  "<" ++ tag e ++ (if map then " type=" ++ dq ++ "map" ++ dq else "") ++ ">".

Definition init_dict (e : elem) (map : bool) : M nat :=
  let count := List.length (children e) in
  if (count =? 0)%nat then error ("No elements in " ++ display_name e map)
  else if negb (count mod 2 =? 0)%nat
  then error ("Number of nodes in " ++ display_name e map ++ " must be even")
  else ret (Nat.shiftr count 1).

Definition check_key (parent : elem) (child : node) (index : nat) : M unit :=
  if negb (String.eqb (node_schema_type child) "key")
  then error ("<key> required as " ++ (if (index =? 0)%nat then "first" else "every even")
              ++ " element of <" ++ tag parent ++ ">")
  else ret tt.

(** ['type' in elem.attrib and elem.attrib['type'] == 'map'] *)
Definition is_map (e : elem) : bool :=
  match attr "type" (attrib e) with
  | Some t => String.eqb t "map"
  | None => false
  end.

(** The recursive calls of [parse_array], [parse_map], [parse_fields] and
    [parse_plist] go back to [parse_elem]; each takes it as [rec], called
    as [rec elem path key context]. *)
Section Recursion.

Variable rec : elem -> option (list string) -> option string -> option string -> M node.

Definition parse_array (e : elem) (path : option (list string))
    (context : option string) : M node :=
  match children e with
  | [] => error "No template for <array>"
  | c :: _ =>
      child <- rec c path None None ;;
      let array :=
        new_OcSchemaElement "OC_ARRAY" path None None (of_node child) None in
      array <- emit_array array context ;;
      ret (NOc array)
  end.

Definition parse_map (e : elem) (path : option (list string)) : M node :=
  count <- init_dict e true ;;
  match children e with
  | k :: v :: _ =>
      key <- rec k path None None ;;
      check_key e key 0 ;;;
      oc_value <- rec v path None (Some "map") ;;
      if String.eqb (node_schema_type oc_value) "OC_DATA" then
        ret (NOc (new_OcSchemaElement "OC_ASSOC" path None None OfNone (Some "OC_ASSOC")))
      else
        elem_map <-
          emit_map (new_OcSchemaElement "OC_MAP" path None None (of_node oc_value) None) ;;
        ret (NOc elem_map)
  | _ => raise "IndexError"
  end.

(** [key.path_spec] *)
Definition path_spec_of (key : node) : M (option string) :=
  match key with
  | NKey k => ret (key_path_spec k)
  | NOc _ => raise "AttributeError"
  end.

(** The [while count > 0] loop of [parse_fields].  [init_dict] has made
    sure the children come in pairs, so [elem[index]] and
    [elem[index + 1]] are the first two of the children not yet visited,
    [cs], and [count] reaches 0 when [cs] is used up. *)
Fixpoint parse_fields_loop (parent : elem) (path : option (list string))
    (cs : list elem) (index : nat) (fields : list OcSchemaElement)
    : M (list OcSchemaElement) :=
  match cs with
  | k :: v :: rest =>
      key <- rec k path None None ;;
      check_key parent key index ;;;
      (if is_none (node_value key)
       then error "<key> tag within <dict> fields template cannot be empty, contents are used as variable name"
       else ret tt) ;;;
      p <- path_segments path ;;
      (if (List.length p =? 0)%nat then emit_section_name key else ret tt) ;;;
      path_spec <- path_spec_of key ;;
      oc_child <- rec v path path_spec None ;;
      oc_child <- set_name oc_child (node_value key) ;;
      parse_fields_loop parent path rest (index + 2) (app fields [oc_child])
  | _ => ret fields
  end.

Definition parse_fields (e : elem) (path : option (list string)) : M node :=
  count <- init_dict e false ;;
  fields <- parse_fields_loop e path (children e) 0 [] ;;
  ret (NOc (new_OcSchemaElement "OC_STRUCT" path None None (OfList fields) None)).

Definition parse_plist (e : elem) (path : option (list string)) : M node :=
  match children e with
  | [c] => rec c path None None
  | _ => error "Invalid contents for <plist>"
  end.

End Recursion.

Fixpoint parse_elem (e : elem) (path : option (list string)) (key : option string)
    (context : option string) {struct e} : M node :=
  let new_path := extend_path path key in
  if String.eqb (tag e) "key" then parse_key e
  else if String.eqb (tag e) "true" || String.eqb (tag e) "false" then
    ret (NOc (new_OcSchemaElement "BOOLEAN" new_path None (Some (tag e)) OfNone None))
  else if String.eqb (tag e) "string" then
    ret (NOc (new_OcSchemaElement "OC_STRING" new_path None (text e) OfNone
                (Some "OC_STRING")))
  else if String.eqb (tag e) "integer" then
    ret (NOc (new_OcSchemaElement "UINT32" new_path None (text e) OfNone None))
  else if String.eqb (tag e) "data" then parse_data e new_path
  else if String.eqb (tag e) "array" then parse_array parse_elem e new_path context
  else if String.eqb (tag e) "dict" then
    if is_map e then parse_map parse_elem e new_path
    else parse_fields parse_elem e new_path
  else if String.eqb (tag e) "plist" then parse_plist parse_elem e new_path
  else error ("Unhandled tag:" ++ tag e).

(** The run of the script on a document: [parse_elem(root, None, [], None,
    indent=False)] on an empty [h_types]. *)
Definition run (root : elem) : outcome node * buffer :=
  parse_elem root (Some []) None None [].

End PlistToConfig.

Arguments upper_prefix camel_prefix /.

(** ** What a schema tree says about the run that built it *)

Definition is_top (path : option (list string)) : bool :=
  match path with Some [] => true | _ => false end.

(** The four chunks of [emit_section_name]. *)
Definition section_chunks (field_name : option string) : buffer :=
  ["/**" ++ nl; ("  " ++ fmt field_name ++ " section") ++ nl; "**/" ++ nl; "" ++ nl].

Definition define_line (id : string) : string :=
  ("#define " ++ id ++ "_FIELDS(_, __) \") ++ nl.

(** The four chunks of [emit_array] or [emit_map] for the node [n] whose
    template is [c]. *)
Definition decl_chunks (n c : OcSchemaElement) : buffer :=
  [define_line (fmt (def_name n));
   (if String.eqb (schema_type n) "OC_ARRAY"
    then ("  OC_ARRAY (" ++ fmt (def_name c) ++ ", _, __)") ++ nl
    else ("  OC_MAP (OC_STRING, " ++ fmt (def_name c) ++ ", _, __)") ++ nl);
   ("  OC_DECLARE (" ++ fmt (def_name n) ++ ")") ++ nl;
   "" ++ nl].

(** Everything the construction of [n] has printed, read off the finished
    tree: the template's output, then the node's own declaration; for a
    struct the output of its fields in order, each behind its section comment
    when the struct is the top of the document. *)
Fixpoint emitted (n : OcSchemaElement) : buffer :=
  match of_ n with
  | OfElem c => app (emitted c) (decl_chunks n c)
  | OfList fs =>
      flat_map (fun f => app (if is_top (path n) then section_chunks (name f) else [])
                             (emitted f)) fs
  | _ => []
  end.

(** The identifiers of the arrays and maps of a tree, children first. *)
Fixpoint declared (n : OcSchemaElement) : list string :=
  match of_ n with
  | OfElem c => app (declared c) [fmt (def_name n)]
  | OfList fs => flat_map declared fs
  | _ => []
  end.

(** Naming discipline: the template of an array or map carries no name, a
    field of a struct carries one. *)
Fixpoint names_ok (n : OcSchemaElement) : bool :=
  match of_ n with
  | OfElem c => is_none (name c) && names_ok c
  | OfList fs => forallb (fun f => negb (is_none (name f)) && names_ok f) fs
  | _ => true
  end.

Definition is_internal_error {A} (r : outcome A) : bool :=
  match r with InternalError _ => true | _ => false end.

Definition is_user_error {A} (r : outcome A) : bool :=
  match r with UserError _ => true | _ => false end.

Definition is_ok {A} (r : outcome A) : bool :=
  match r with Ok _ => true | _ => false end.

(** ** Reasoning about computations in [M] *)

Lemma bind_Ok_inv {A B} (m : M A) (f : A -> M B) h b h' :
  bind m f h = (Ok b, h') ->
  exists a h1, m h = (Ok a, h1) /\ f a h1 = (Ok b, h').
Proof.
  unfold bind. destruct (m h) as [[a | msg | msg | exc] h1]; intros H;
    try discriminate.
  exists a, h1. split; [reflexivity | exact H].
Qed.

Lemma bind_Ok {A B} (m : M A) (f : A -> M B) h a h1 :
  m h = (Ok a, h1) -> bind m f h = f a h1.
Proof. unfold bind. intros ->. reflexivity. Qed.

(** [appends m]: the run of [m] neither reads nor rewrites what is already
    in the buffer, it only adds to its end. *)
Definition appends {A} (m : M A) : Prop :=
  forall h, m h = (fst (m []), app h (snd (m []))).

Lemma appends_ret {A} (a : A) : appends (ret a).
Proof. intros h. unfold ret. simpl. now rewrite app_nil_r. Qed.

Lemma appends_error {A} msg : appends (@error A msg).
Proof. intros h. unfold error. simpl. now rewrite app_nil_r. Qed.

Lemma appends_internal_error {A} msg : appends (@internal_error A msg).
Proof. intros h. unfold internal_error. simpl. now rewrite app_nil_r. Qed.

Lemma appends_raise {A} exc : appends (@raise A exc).
Proof. intros h. unfold raise. simpl. now rewrite app_nil_r. Qed.

Lemma appends_print line : appends (print line).
Proof. intros h. reflexivity. Qed.

Lemma appends_bind {A B} (m : M A) (f : A -> M B) :
  appends m -> (forall a, appends (f a)) -> appends (bind m f).
Proof.
  intros Hm Hf h. unfold bind.
  rewrite (Hm h). destruct (m []) as [[a | msg | msg | exc] h1]; simpl;
    try reflexivity.
  rewrite (Hf a (app h h1)), (Hf a h1). simpl. now rewrite app_assoc.
Qed.

(** [returns m Q]: [m] never ends in an internal error, and when it returns
    [a] having printed [out], then [Q a out]. *)
Definition returns {A} (m : M A) (Q : A -> buffer -> Prop) : Prop :=
  forall h,
    match m h with
    | (Ok a, h') => exists out, h' = app h out /\ Q a out
    | (InternalError _, _) => False
    | _ => True
    end.

Lemma returns_ret {A} (a : A) (Q : A -> buffer -> Prop) :
  Q a [] -> returns (ret a) Q.
Proof. intros HQ h. exists []. now rewrite app_nil_r. Qed.

Lemma returns_error {A} msg (Q : A -> buffer -> Prop) : returns (error msg) Q.
Proof. intros h. exact I. Qed.

Lemma returns_raise {A} exc (Q : A -> buffer -> Prop) : returns (raise exc) Q.
Proof. intros h. exact I. Qed.

Lemma returns_print line (Q : unit -> buffer -> Prop) :
  Q tt [line ++ nl] -> returns (print line) Q.
Proof. intros HQ h. exists [line ++ nl]. split; [reflexivity | exact HQ]. Qed.

Lemma returns_bind {A B} (m : M A) (f : A -> M B) P (Q : B -> buffer -> Prop) :
  returns m P ->
  (forall a out1, P a out1 -> returns (f a) (fun b out2 => Q b (app out1 out2))) ->
  returns (bind m f) Q.
Proof.
  intros Hm Hf h. unfold bind. specialize (Hm h).
  destruct (m h) as [[a | msg | msg | exc] h1]; try exact I; try contradiction.
  destruct Hm as (out1 & -> & HP).
  specialize (Hf a out1 HP (app h out1)).
  destruct (f a (app h out1)) as [[b | msg | msg | exc] h2]; try exact I;
    try contradiction.
  destruct Hf as (out2 & -> & HQ).
  exists (app out1 out2). split; [now rewrite app_assoc | exact HQ].
Qed.

Lemma returns_weaken {A} (m : M A) (P Q : A -> buffer -> Prop) :
  returns m P -> (forall a out, P a out -> Q a out) -> returns m Q.
Proof.
  intros Hm HPQ h. specialize (Hm h).
  destruct (m h) as [[a | msg | msg | exc] h1]; try exact I; try contradiction.
  destruct Hm as (out & -> & HP). exists out. split; [reflexivity | now apply HPQ].
Qed.

Lemma returns_Ok {A} (m : M A) Q h a h' :
  returns m Q -> m h = (Ok a, h') -> exists out, h' = app h out /\ Q a out.
Proof. intros Hm E. specialize (Hm h). now rewrite E in Hm. Qed.

Lemma returns_not_internal {A} (m : M A) Q h :
  returns m Q -> is_internal_error (fst (m h)) = false.
Proof.
  intros Hm. specialize (Hm h).
  destruct (m h) as [[a | msg | msg | exc] h1]; simpl; try reflexivity.
  contradiction.
Qed.

(** Induction on a document: a property of an element may rely on it for
    every child. *)
Section elem_induction.
Variable P : elem -> Prop.
Hypothesis step : forall tg at_ tx cs, Forall P cs -> P (Elem tg at_ tx cs).

Fixpoint elem_ind' (e : elem) : P e :=
  match e with
  | Elem tg at_ tx cs =>
      step tg at_ tx cs
        ((fix all (l : list elem) : Forall P l :=
            match l with
            | [] => Forall_nil P
            | c :: l' => Forall_cons c (elem_ind' c) (all l')
            end) cs)
  end.
End elem_induction.

(** ** Invariants of the walk *)

Section Invariants.

Variable camel_prefix : string.
Variable b64decode : string -> option (list byte).

(** The kind of a node and what hangs under it agree, and no schema element
    passes for a key. *)
Definition shape_ok (n : OcSchemaElement) : Prop :=
  String.eqb (schema_type n) "key" = false /\
  match of_ n with
  | OfNone => True
  | OfElem _ => schema_type n = "OC_ARRAY" \/ schema_type n = "OC_MAP"
  | OfKey _ => False
  | OfList _ => schema_type n = "OC_STRUCT"
  end.

(** What holds of a node returned at path [new_path] having printed [out]. *)
Definition built (new_path : option (list string)) (r : node) (out : buffer) : Prop :=
  match r with
  | NKey _ => out = []
  | NOc n =>
      path n = new_path /\ name n = None /\ names_ok n = true /\ shape_ok n /\
      out = emitted n
  end.

(** The same, whatever the path. *)
Definition built_any (r : node) (out : buffer) : Prop :=
  exists new_path, built new_path r out.

Definition rec_ok (rec : elem -> option (list string) -> option string -> option string -> M node)
    (c : elem) : Prop :=
  forall path key context,
    appends (rec c path key context) /\
    returns (rec c path key context) (built (extend_path path key)).

Lemma extend_path_None path : extend_path path None = path.
Proof. destruct path; reflexivity. Qed.

Lemma parse_elem_eq e path key context :
  parse_elem camel_prefix b64decode e path key context =
  let new_path := extend_path path key in
  if String.eqb (tag e) "key" then parse_key e
  else if String.eqb (tag e) "true" || String.eqb (tag e) "false" then
    ret (NOc (new_OcSchemaElement "BOOLEAN" new_path None (Some (tag e)) OfNone None))
  else if String.eqb (tag e) "string" then
    ret (NOc (new_OcSchemaElement "OC_STRING" new_path None (text e) OfNone
                (Some "OC_STRING")))
  else if String.eqb (tag e) "integer" then
    ret (NOc (new_OcSchemaElement "UINT32" new_path None (text e) OfNone None))
  else if String.eqb (tag e) "data" then parse_data b64decode e new_path
  else if String.eqb (tag e) "array" then
    parse_array camel_prefix (parse_elem camel_prefix b64decode) e new_path context
  else if String.eqb (tag e) "dict" then
    if is_map e then parse_map camel_prefix (parse_elem camel_prefix b64decode) e new_path
    else parse_fields (parse_elem camel_prefix b64decode) e new_path
  else if String.eqb (tag e) "plist" then
    parse_plist (parse_elem camel_prefix b64decode) e new_path
  else error ("Unhandled tag:" ++ tag e).
Proof. destruct e. reflexivity. Qed.

Lemma upper_not_key s : String.eqb (Str.upper s) "key" = false.
Proof.
  apply String.eqb_neq. destruct s as [|c s]; simpl; [discriminate|].
  intros H. injection H as Hc _. revert Hc. unfold Str.upper_ascii. cbv zeta.
  destruct (_ && _) eqn:E.
  - apply andb_prop in E. destruct E as [E1 E2].
    apply Nat.leb_le in E1. apply Nat.leb_le in E2.
    intros Hc. apply (f_equal nat_of_ascii) in Hc.
    change (nat_of_ascii "k") with 107 in Hc.
    remember (nat_of_ascii c) as n eqn:En. clear En.
    rewrite nat_ascii_embedding in Hc by lia. lia.
  - intros ->. discriminate.
Qed.

Lemma parse_data_appends e path : appends (parse_data b64decode e path).
Proof.
  unfold parse_data.
  apply appends_bind.
  - destruct (text e) as [d|]; [destruct (b64decode d)|];
      auto using appends_ret, appends_raise.
  - intros data_bytes.
    destruct (match data_bytes with Some _ => _ | None => _ end) as [st sz].
    apply appends_bind; [|intros; apply appends_ret].
    destruct st as [t|]; [|apply appends_ret].
    destruct (_ && _); auto using appends_ret, appends_error.
Qed.

Lemma parse_data_returns e path : returns (parse_data b64decode e path) (built path).
Proof.
  unfold parse_data.
  eapply returns_bind with (P := fun _ out => out = []).
  - destruct (text e) as [d|]; [destruct (b64decode d)|];
      auto using returns_ret, returns_raise.
  - intros data_bytes out1 ->.
    destruct (match data_bytes with Some _ => _ | None => _ end) as [st sz].
    eapply returns_bind with (P := fun _ out => out = []).
    + destruct st as [t|]; [|now apply returns_ret].
      destruct (_ && _); auto using returns_ret, returns_error.
    + intros t out2 ->. apply returns_ret. simpl. unfold shape_ok. simpl.
      repeat split. apply upper_not_key.
Qed.

Ltac appends_step :=
  first
    [ apply appends_ret | apply appends_error | apply appends_raise
    | apply appends_print | apply appends_internal_error
    | apply appends_bind; [| intros ? ]
    | match goal with
      | |- appends (match ?x with _ => _ end) => destruct x
      | |- appends (if ?b then _ else _) => destruct b
      end ].

Lemma emit_section_name_appends key : appends (emit_section_name key).
Proof. unfold emit_section_name. repeat appends_step. Qed.

Lemma emit_array_appends a context : appends (emit_array camel_prefix a context).
Proof.
  unfold emit_array, upper_path, path_segments, of_def_name. repeat appends_step.
Qed.

Lemma emit_map_appends a : appends (emit_map camel_prefix a).
Proof.
  unfold emit_map, upper_path, path_segments, of_def_name. repeat appends_step.
Qed.

Lemma init_dict_appends e map : appends (init_dict e map).
Proof. unfold init_dict. repeat appends_step. Qed.

Lemma check_key_appends parent child index : appends (check_key parent child index).
Proof. unfold check_key. repeat appends_step. Qed.

Lemma set_name_appends n new_name : appends (set_name n new_name).
Proof. unfold set_name. repeat appends_step. Qed.

Lemma emit_section_name_returns key :
  returns (emit_section_name key)
          (fun _ out => out = section_chunks (node_value key)).
Proof.
  intros h. unfold emit_section_name, bind, print. simpl.
  eexists. split; [|reflexivity]. now rewrite <- !app_assoc.
Qed.

(** [emit_array] on a freshly built array: the identifier is attached and the
    declaration printed, provided the template is a schema element. *)
Lemma emit_array_returns new_path child context :
  returns
    (emit_array camel_prefix
       (new_OcSchemaElement "OC_ARRAY" new_path None None (of_node child) None) context)
    (fun a out =>
       exists c, child = NOc c /\ of_ a = OfElem c /\ schema_type a = "OC_ARRAY" /\
                 path a = new_path /\ name a = None /\ out = decl_chunks a c).
Proof.
  intros h. unfold emit_array, upper_path, path_segments, of_def_name, bind, print, ret.
  simpl. destruct new_path as [p|]; simpl; [|exact I].
  destruct child as [k|c]; simpl; [exact I|].
  eexists. split; [now rewrite <- !app_assoc|].
  exists c. repeat split.
Qed.

Lemma emit_map_returns new_path child :
  returns
    (emit_map camel_prefix
       (new_OcSchemaElement "OC_MAP" new_path None None (of_node child) None))
    (fun a out =>
       exists c, child = NOc c /\ of_ a = OfElem c /\ schema_type a = "OC_MAP" /\
                 path a = new_path /\ name a = None /\ out = decl_chunks a c).
Proof.
  intros h. unfold emit_map, upper_path, path_segments, of_def_name, bind, print, ret.
  simpl. destruct new_path as [p|]; simpl; [|exact I].
  destruct child as [k|c]; simpl; [exact I|].
  eexists. split; [now rewrite <- !app_assoc|].
  exists c. repeat split.
Qed.

Lemma emitted_OfElem n c :
  of_ n = OfElem c -> emitted n = app (emitted c) (decl_chunks n c).
Proof. destruct n; simpl. intros ->. reflexivity. Qed.

Lemma names_ok_OfElem n c :
  of_ n = OfElem c -> names_ok n = is_none (name c) && names_ok c.
Proof. destruct n; simpl. intros ->. reflexivity. Qed.

Section Steps.

Variable rec : elem -> option (list string) -> option string -> option string -> M node.

Lemma parse_array_appends e path context :
  Forall (rec_ok rec) (children e) -> appends (parse_array camel_prefix rec e path context).
Proof.
  unfold parse_array. intros Hcs.
  destruct (children e) as [|c cs]; [apply appends_error|].
  inversion_clear Hcs as [|? ? Hc _].
  apply appends_bind; [apply Hc|]. intros child.
  apply appends_bind; [apply emit_array_appends|]. intros. apply appends_ret.
Qed.

Lemma parse_array_returns e path context :
  Forall (rec_ok rec) (children e) ->
  returns (parse_array camel_prefix rec e path context) (built path).
Proof.
  unfold parse_array. intros Hcs.
  destruct (children e) as [|c cs]; [apply returns_error|].
  inversion_clear Hcs as [|? ? Hc _].
  eapply returns_bind; [apply (Hc path None None)|].
  intros child out1 Hchild. rewrite extend_path_None in Hchild.
  eapply returns_bind; [apply emit_array_returns|].
  intros a out2 (c' & -> & Hof & Hty & Hpath & Hname & ->).
  apply returns_ret. simpl in Hchild. destruct Hchild as (Hp & Hn & Hok & _ & ->).
  simpl. rewrite (emitted_OfElem _ _ Hof), (names_ok_OfElem _ _ Hof), Hn, Hok.
  rewrite ?app_nil_r. unfold shape_ok. rewrite Hof, Hty.
  repeat split; try assumption; try reflexivity; [now left|].
  unfold decl_chunks. rewrite Hty. reflexivity.
Qed.

Lemma init_dict_returns e map :
  returns (init_dict e map) (fun _ out => out = []).
Proof.
  unfold init_dict. destruct (_ =? _)%nat; [apply returns_error|].
  destruct (negb _); [apply returns_error | now apply returns_ret].
Qed.

Lemma check_key_returns parent child index out0 :
  built_any child out0 ->
  returns (check_key parent child index)
          (fun _ out => out = [] /\ exists k, child = NKey k).
Proof.
  unfold check_key, built_any. destruct child as [k|n]; simpl.
  - intros _. apply returns_ret. eauto.
  - intros (np & _ & _ & _ & (Hk & _) & _). rewrite Hk. apply returns_error.
Qed.

Lemma parse_map_appends e path :
  Forall (rec_ok rec) (children e) -> appends (parse_map camel_prefix rec e path).
Proof.
  unfold parse_map. intros Hcs.
  apply appends_bind; [apply init_dict_appends|]. intros _.
  destruct (children e) as [|k [|v rest]]; try apply appends_raise.
  inversion_clear Hcs as [|? ? Hk Hcs']. inversion_clear Hcs' as [|? ? Hv _].
  apply appends_bind; [apply Hk|]. intros key.
  apply appends_bind; [apply check_key_appends|]. intros _.
  apply appends_bind; [apply Hv|]. intros oc_value.
  destruct (_ =? _); [apply appends_ret|].
  apply appends_bind; [apply emit_map_appends|]. intros. apply appends_ret.
Qed.

Lemma parse_map_returns e path :
  Forall (rec_ok rec) (children e) ->
  returns (parse_map camel_prefix rec e path) (built path).
Proof.
  unfold parse_map. intros Hcs.
  eapply returns_bind; [apply init_dict_returns|]. intros _ out0 ->.
  destruct (children e) as [|k [|v rest]]; try apply returns_raise.
  inversion_clear Hcs as [|? ? Hk Hcs']. inversion_clear Hcs' as [|? ? Hv _].
  eapply returns_bind; [apply (Hk path None None)|].
  intros key out1 Hkey. rewrite extend_path_None in Hkey.
  eapply returns_bind; [apply (check_key_returns _ _ _ out1); exists path; exact Hkey|].
  intros _ out2 (-> & kk & ->). simpl in Hkey. subst out1.
  eapply returns_bind; [apply (Hv path None (Some "map"))|].
  intros oc_value out3 Hval. rewrite extend_path_None in Hval.
  destruct (node_schema_type oc_value =? "OC_DATA") eqn:Hty.
  - apply returns_ret. apply String.eqb_eq in Hty.
    destruct oc_value as [k'|n]; simpl in Hty; [discriminate|].
    destruct Hval as (_ & _ & _ & (_ & Hshape) & ->).
    assert (Hem : emitted n = []).
    { destruct n as [ty nm pa sz va o dn]; simpl in *. subst ty.
      destruct o; try reflexivity; try contradiction.
      - destruct Hshape; discriminate.
      - discriminate. }
    rewrite Hem. simpl. unfold shape_ok. simpl. repeat split.
  - eapply returns_bind; [apply emit_map_returns|].
    intros a out4 (c' & -> & Hof & Hty' & Hpath & Hname & ->).
    apply returns_ret. simpl in Hval. destruct Hval as (Hp & Hn & Hok & _ & ->).
    simpl. rewrite (emitted_OfElem _ _ Hof), (names_ok_OfElem _ _ Hof), Hn, Hok.
    rewrite ?app_nil_r. unfold shape_ok. rewrite Hof, Hty'.
    repeat split; try assumption; try reflexivity; [now right|].
    unfold decl_chunks. rewrite Hty'. reflexivity.
Qed.

(** The fields a struct at [path] has printed for. *)
Definition fields_emitted (path : option (list string)) (fs : list OcSchemaElement)
    : buffer :=
  flat_map (fun f => app (if is_top path then section_chunks (name f) else [])
                         (emitted f)) fs.

Definition fields_named (fs : list OcSchemaElement) : bool :=
  forallb (fun f => negb (is_none (name f)) && names_ok f) fs.

Lemma list_pair_ind {A} (P : list A -> Prop) :
  P [] -> (forall x, P [x]) -> (forall x y l, P l -> P (x :: y :: l)) ->
  forall l, P l.
Proof.
  intros H0 H1 H2 l.
  enough (H : P l /\ forall x, P (x :: l)) by apply H.
  induction l as [|a l [IH1 IH2]]; split; auto.
Qed.

Lemma parse_fields_loop_appends parent path cs :
  Forall (rec_ok rec) cs ->
  forall index fields, appends (parse_fields_loop rec parent path cs index fields).
Proof.
  induction cs as [| x | k v rest IH] using list_pair_ind; intros Hcs index fields;
    try apply appends_ret.
  inversion_clear Hcs as [|? ? Hk Hcs']. inversion_clear Hcs' as [|? ? Hv Hrest].
  simpl.
  apply appends_bind; [apply Hk|]. intros key.
  apply appends_bind; [apply check_key_appends|]. intros _.
  apply appends_bind; [repeat appends_step|]. intros _.
  apply appends_bind; [unfold path_segments; repeat appends_step|]. intros p.
  apply appends_bind;
    [destruct (_ =? _)%nat; [apply emit_section_name_appends | apply appends_ret]|].
  intros _.
  apply appends_bind; [unfold path_spec_of; repeat appends_step|]. intros spec.
  apply appends_bind; [apply Hv|]. intros oc_child.
  apply appends_bind; [apply set_name_appends|]. intros oc_child'.
  now apply IH.
Qed.

Lemma set_name_returns n new_path out0 s :
  built new_path n out0 ->
  returns (set_name n (Some s))
          (fun o out =>
             out = [] /\ name o = Some s /\ names_ok o = true /\ emitted o = out0).
Proof.
  unfold set_name. destruct n as [k|o]; [intros; apply returns_raise|].
  intros (_ & Hn & Hok & _ & ->). rewrite Hn. apply returns_ret.
  destruct o; simpl in *. auto.
Qed.

Lemma parse_fields_loop_returns parent path cs :
  Forall (rec_ok rec) cs ->
  forall index fields,
    returns (parse_fields_loop rec parent path cs index fields)
            (fun fs out =>
               exists new, fs = app fields new /\ fields_named new = true /\
                           out = fields_emitted path new).
Proof.
  induction cs as [| x | k v rest IH] using list_pair_ind; intros Hcs index fields;
    try (apply returns_ret; exists []; now rewrite app_nil_r).
  inversion_clear Hcs as [|? ? Hk Hcs']. inversion_clear Hcs' as [|? ? Hv Hrest].
  simpl.
  eapply returns_bind; [apply (Hk path None None)|].
  intros key out1 Hkey. rewrite extend_path_None in Hkey.
  eapply returns_bind;
    [apply (check_key_returns _ _ _ out1); exists path; exact Hkey|].
  intros _ out2 (-> & kk & ->). simpl in Hkey. subst out1. simpl.
  destruct (key_value kk) as [s|] eqn:Hval; simpl; [|apply returns_error].
  eapply returns_bind with (P := fun _ out => out = []); [now apply returns_ret|].
  intros _ out3 ->.
  destruct path as [p|]; simpl; [|apply returns_raise].
  eapply returns_bind with (P := fun a out => out = [] /\ a = p);
    [now apply returns_ret|].
  intros p' out4 (-> & ->).
  eapply returns_bind with
    (P := fun _ out => out = if is_top (Some p) then section_chunks (Some s) else []).
  { destruct p; simpl; [|now apply returns_ret].
    eapply returns_weaken; [apply emit_section_name_returns|].
    simpl. intros _ out ->. now rewrite Hval. }
  intros _ out5 ->.
  eapply returns_bind with (P := fun a out => out = [] /\ a = key_path_spec kk);
    [now apply returns_ret|].
  intros spec out6 (-> & ->).
  eapply returns_bind; [apply (Hv (Some p) (key_path_spec kk) None)|].
  intros oc_child out7 Hchild.
  eapply returns_bind; [apply (set_name_returns _ _ _ s Hchild)|].
  intros o out8 (-> & Hname & Hok & Hem).
  eapply returns_weaken; [apply (IH Hrest)|].
  intros fs out (new & -> & Hnamed & ->).
  exists (o :: new). split; [now rewrite <- app_assoc|].
  split.
  - simpl. now rewrite Hname, Hok, Hnamed.
  - simpl. rewrite Hname, Hem, ?app_nil_r, <- ?app_assoc. reflexivity.
Qed.

Lemma parse_fields_appends e path :
  Forall (rec_ok rec) (children e) -> appends (parse_fields rec e path).
Proof.
  unfold parse_fields. intros Hcs.
  apply appends_bind; [apply init_dict_appends|]. intros _.
  apply appends_bind; [now apply parse_fields_loop_appends|]. intros.
  apply appends_ret.
Qed.

Lemma parse_fields_returns e path :
  Forall (rec_ok rec) (children e) -> returns (parse_fields rec e path) (built path).
Proof.
  unfold parse_fields. intros Hcs.
  eapply returns_bind; [apply init_dict_returns|]. intros _ out0 ->.
  eapply returns_bind; [now apply parse_fields_loop_returns|].
  intros fs out1 (new & -> & Hnamed & ->).
  apply returns_ret. simpl. unfold shape_ok. simpl.
  rewrite app_nil_r. repeat split. exact Hnamed.
Qed.

Lemma parse_plist_appends e path :
  Forall (rec_ok rec) (children e) -> appends (parse_plist rec e path).
Proof.
  unfold parse_plist. intros Hcs.
  destruct (children e) as [|c [|c' cs]]; try apply appends_error.
  inversion_clear Hcs as [|? ? Hc _]. apply Hc.
Qed.

Lemma parse_plist_returns e path :
  Forall (rec_ok rec) (children e) -> returns (parse_plist rec e path) (built path).
Proof.
  unfold parse_plist. intros Hcs.
  destruct (children e) as [|c [|c' cs]]; try apply returns_error.
  inversion_clear Hcs as [|? ? Hc _].
  generalize (proj2 (Hc path None None)). now rewrite extend_path_None.
Qed.

End Steps.

(** The walk only appends to [h_types], never ends in an internal error,
    and what it returns accounts for everything it printed. *)
Lemma parse_elem_ok e : rec_ok (parse_elem camel_prefix b64decode) e.
Proof.
  induction e as [tg at_ tx cs IH] using elem_ind'.
  intros path key context. rewrite parse_elem_eq. cbv zeta.
  set (e := Elem tg at_ tx cs). change cs with (children e) in IH.
  destruct (tag e =? "key"); [split; [apply appends_ret | now apply returns_ret]|].
  destruct (_ || _).
  { split; [apply appends_ret|]. apply returns_ret. unfold shape_ok. simpl. repeat split. }
  destruct (tag e =? "string").
  { split; [apply appends_ret|]. apply returns_ret. unfold shape_ok. simpl. repeat split. }
  destruct (tag e =? "integer").
  { split; [apply appends_ret|]. apply returns_ret. unfold shape_ok. simpl. repeat split. }
  destruct (tag e =? "data");
    [split; [apply parse_data_appends | apply parse_data_returns]|].
  destruct (tag e =? "array");
    [split; [now apply parse_array_appends | now apply parse_array_returns]|].
  destruct (tag e =? "dict").
  { destruct (is_map e).
    - split; [now apply parse_map_appends | now apply parse_map_returns].
    - split; [now apply parse_fields_appends | now apply parse_fields_returns]. }
  destruct (tag e =? "plist");
    [split; [now apply parse_plist_appends | now apply parse_plist_returns]|].
  split; [apply appends_error | apply returns_error].
Qed.

End Invariants.

(** ** Dispatch and inversion lemmas *)

Section Dispatch.

Variable camel_prefix : string.
Variable b64decode : string -> option (list byte).

Local Notation "'walk'" := (parse_elem camel_prefix b64decode).

Lemma parse_elem_key e pth key context :
  tag e = "key" -> walk e pth key context = parse_key e.
Proof. intros H. rewrite parse_elem_eq, H. reflexivity. Qed.

Lemma parse_elem_true e pth key context :
  tag e = "true" ->
  walk e pth key context =
  ret (NOc (new_OcSchemaElement "BOOLEAN" (extend_path pth key) None (Some "true")
              OfNone None)).
Proof. intros H. rewrite parse_elem_eq, H. reflexivity. Qed.

Lemma parse_elem_data e pth key context :
  tag e = "data" -> walk e pth key context = parse_data b64decode e (extend_path pth key).
Proof. intros H. rewrite parse_elem_eq, H. reflexivity. Qed.

Lemma parse_elem_array e pth key context :
  tag e = "array" ->
  walk e pth key context = parse_array camel_prefix walk e (extend_path pth key) context.
Proof. intros H. rewrite parse_elem_eq, H. reflexivity. Qed.

Lemma parse_elem_map e pth key context :
  tag e = "dict" -> is_map e = true ->
  walk e pth key context = parse_map camel_prefix walk e (extend_path pth key).
Proof. intros H Hm. rewrite parse_elem_eq, H, Hm. reflexivity. Qed.

Lemma parse_elem_fields e pth key context :
  tag e = "dict" -> is_map e = false ->
  walk e pth key context = parse_fields walk e (extend_path pth key).
Proof. intros H Hm. rewrite parse_elem_eq, H, Hm. reflexivity. Qed.

(** A successful walk, read backwards. *)
Lemma parse_elem_Ok e pth key context h n h' :
  walk e pth key context h = (Ok (NOc n), h') ->
  path n = extend_path pth key /\ name n = None /\ names_ok n = true /\
  shape_ok n /\ h' = app h (emitted n).
Proof.
  intros E.
  destruct (returns_Ok _ _ _ _ _ (proj2 (parse_elem_ok camel_prefix b64decode e pth key context)) E)
    as (out & -> & Hp & Hn & Hok & Hsh & ->).
  auto.
Qed.

Lemma init_dict_pairs e map k v rest h :
  children e = k :: v :: rest -> Nat.even (List.length rest) = true ->
  init_dict e map h = (Ok (S (Nat.div2 (List.length rest))), h).
Proof.
  intros Hc Hev. unfold init_dict. rewrite Hc.
  change (List.length (k :: v :: rest)) with (S (S (List.length rest))).
  set (n := List.length rest) in *.
  replace ((S (S n)) mod 2) with 0.
  - simpl. unfold ret. f_equal.
  - apply Nat.even_spec in Hev. destruct Hev as [m ->].
    replace (S (S (2 * m))) with ((m + 1) * 2) by lia.
    now rewrite Nat.Div0.mod_mul.
Qed.

Lemma init_dict_Ok e map c h h' :
  init_dict e map h = (Ok c, h') ->
  h' = h /\ children e <> [] /\ Nat.even (List.length (children e)) = true.
Proof.
  unfold init_dict. destruct (children e) as [|x l] eqn:Hc; [discriminate|].
  simpl Nat.eqb. cbv iota.
  destruct (negb _) eqn:Hm; [discriminate|].
  intros H. injection H as _ <-. split; [reflexivity|]. split; [discriminate|].
  apply negb_false_iff, Nat.eqb_eq in Hm.
  apply Nat.even_spec. exists (List.length (x :: l) / 2).
  rewrite (Nat.div_mod_eq (List.length (x :: l)) 2) at 1. lia.
Qed.

(** One turn of the loop of [parse_fields] that went through. *)
Lemma parse_fields_loop_Ok parent pth k v rest index fields h fs h' :
  parse_fields_loop walk parent pth (k :: v :: rest) index fields h = (Ok fs, h') ->
  exists kk s p child,
    walk k pth None None h = (Ok (NKey kk), h) /\
    key_value kk = Some s /\ pth = Some p /\
    let h1 := app h (if is_top pth then section_chunks (Some s) else []) in
    let h2 := app h1 (emitted child) in
    let field := mkOc (schema_type child) (Some s) (path child) (size child)
                      (value child) (of_ child) (def_name child) in
    walk v pth (key_path_spec kk) None h1 = (Ok (NOc child), h2) /\
    parse_fields_loop walk parent pth rest (index + 2) (app fields [field]) h2
      = (Ok fs, h').
Proof.
  intros E. simpl in E.
  apply bind_Ok_inv in E. destruct E as (key & h1 & Ek & E).
  apply bind_Ok_inv in E. destruct E as ([] & h2 & Eck & E).
  apply bind_Ok_inv in E. destruct E as ([] & h3 & Ev & E).
  apply bind_Ok_inv in E. destruct E as (p & h4 & Ep & E).
  apply bind_Ok_inv in E. destruct E as ([] & h5 & Es & E).
  apply bind_Ok_inv in E. destruct E as (spec & h6 & Esp & E).
  apply bind_Ok_inv in E. destruct E as (oc_child & h7 & Ec & E).
  apply bind_Ok_inv in E. destruct E as (field & h8 & Esn & E).
  destruct key as [kk|o]; [|discriminate Esp].
  injection Esp as <- <-.
  destruct (returns_Ok _ _ _ _ _
              (proj2 (parse_elem_ok camel_prefix b64decode k pth None None)) Ek)
    as (out & -> & Hout). simpl in Hout. subst out. rewrite app_nil_r in *.
  unfold check_key in Eck. simpl in Eck. injection Eck as <-.
  simpl in Ev. destruct (key_value kk) as [s|] eqn:Hs; [|discriminate Ev].
  injection Ev as <-.
  destruct pth as [p'|]; [|discriminate Ep]. injection Ep as Hp' Hh4.
  subst p' h4.
  assert (Hh5 : h5 = app h (if is_top (Some p) then section_chunks (Some s) else [])).
  { simpl. destruct p; simpl in Es.
    - unfold emit_section_name, bind, print in Es. simpl in Es.
      injection Es as <-. rewrite Hs. now rewrite <- !app_assoc.
    - injection Es as <-. now rewrite app_nil_r. }
  destruct oc_child as [k'|child]; [discriminate Esn|].
  destruct (parse_elem_Ok _ _ _ _ _ _ _ Ec) as (Hp & Hn & Hok & Hsh & ->).
  unfold set_name in Esn. rewrite Hn in Esn. injection Esn as <- <-.
  exists kk, s, p, child. subst h5.
  repeat split; try assumption. rewrite Hs in E. exact E.
Qed.

(** The identifier of [emit_array] and [emit_map], as a function of the
    path. *)
Definition generated_id (p : list string) (suffix : string) : string :=
  Str.upper camel_prefix ++ "_" ++ Str.join "_" (map Str.upper p) ++ "_" ++ suffix.

Definition context_type (context : option string) : string :=
  match context with
  | Some c => if String.eqb c "map" then "ENTRY" else "ARRAY"
  | None => "ARRAY"
  end.

Lemma emit_array_Ok a context h a' h' :
  emit_array camel_prefix a context h = (Ok a', h') ->
  exists p c,
    path a = Some p /\ of_ a = OfElem c /\
    a' = set_def_name a (generated_id p (context_type context)) /\
    h' = app h [define_line (generated_id p (context_type context));
                ("  OC_ARRAY (" ++ fmt (def_name c) ++ ", _, __)") ++ nl;
                ("  OC_DECLARE (" ++ generated_id p (context_type context) ++ ")") ++ nl;
                "" ++ nl].
Proof.
  unfold emit_array, upper_path, path_segments, of_def_name, bind, print, ret.
  destruct (path a) as [p|]; [|discriminate]. simpl.
  destruct (of_ a) as [|c|k|fs]; try discriminate.
  intros E. injection E as <- <-. exists p, c.
  repeat split. now rewrite <- !app_assoc.
Qed.

Lemma emit_map_Ok a h a' h' :
  emit_map camel_prefix a h = (Ok a', h') ->
  exists p c,
    path a = Some p /\ of_ a = OfElem c /\
    a' = set_def_name a (generated_id p "MAP") /\
    h' = app h [define_line (generated_id p "MAP");
                ("  OC_MAP (OC_STRING, " ++ fmt (def_name c) ++ ", _, __)") ++ nl;
                ("  OC_DECLARE (" ++ generated_id p "MAP" ++ ")") ++ nl;
                "" ++ nl].
Proof.
  unfold emit_map, upper_path, path_segments, of_def_name, bind, print, ret.
  destruct (path a) as [p|]; [|discriminate]. simpl.
  destruct (of_ a) as [|c|k|fs]; try discriminate.
  intros E. injection E as <- <-. exists p, c.
  repeat split. now rewrite <- !app_assoc.
Qed.

(** A successful [parse_array], read backwards. *)
Lemma parse_array_Ok e pth key context h n h' :
  tag e = "array" ->
  walk e pth key context h = (Ok (NOc n), h') ->
  exists c cs child p,
    children e = c :: cs /\ extend_path pth key = Some p /\
    walk c (Some p) None None h = (Ok (NOc child), app h (emitted child)) /\
    path child = Some p /\
    n = mkOc "OC_ARRAY" None (Some p) None None (OfElem child)
             (Some (generated_id p (context_type context))) /\
    h' = app (app h (emitted child)) (decl_chunks n child).
Proof.
  intros Ht E. rewrite (parse_elem_array _ _ _ _ Ht) in E. unfold parse_array in E.
  destruct (children e) as [|c cs]; [discriminate|].
  apply bind_Ok_inv in E. destruct E as (child & h1 & Ec & E).
  apply bind_Ok_inv in E. destruct E as (a & h2 & Ea & E).
  injection E as <- <-.
  apply emit_array_Ok in Ea. destruct Ea as (p & c' & Hp & Hof & -> & ->).
  simpl in Hp, Hof. destruct child as [k|child]; [discriminate|].
  injection Hof as <-. rewrite Hp in *.
  destruct (parse_elem_Ok _ _ _ _ _ _ _ Ec) as (Hpc & _ & _ & _ & ->).
  exists c, cs, child, p. repeat split; assumption.
Qed.

(** A successful [parse_map], read backwards: either the value is a blob and
    the map collapses, or the map is declared. *)
Lemma parse_map_Ok e pth key context h n h' :
  tag e = "dict" -> is_map e = true ->
  walk e pth key context h = (Ok (NOc n), h') ->
  exists k v rest kk oc_value,
    children e = k :: v :: rest /\
    walk k (extend_path pth key) None None h = (Ok (NKey kk), h) /\
    walk v (extend_path pth key) None (Some "map") h
      = (Ok (NOc oc_value), app h (emitted oc_value)) /\
    ((schema_type oc_value = "OC_DATA" /\
      n = new_OcSchemaElement "OC_ASSOC" (extend_path pth key) None None OfNone
            (Some "OC_ASSOC") /\
      h' = h) \/
     (schema_type oc_value <> "OC_DATA" /\
      exists p, extend_path pth key = Some p /\
        n = mkOc "OC_MAP" None (Some p) None None (OfElem oc_value)
                 (Some (generated_id p "MAP")) /\
        h' = app (app h (emitted oc_value)) (decl_chunks n oc_value))).
Proof.
  intros Ht Hm E. rewrite (parse_elem_map _ _ _ _ Ht Hm) in E. unfold parse_map in E.
  apply bind_Ok_inv in E. destruct E as (count & h0 & Ei & E).
  apply init_dict_Ok in Ei. destruct Ei as (-> & _ & _).
  destruct (children e) as [|k [|v rest]]; try discriminate.
  apply bind_Ok_inv in E. destruct E as (key' & h1 & Ek & E).
  apply bind_Ok_inv in E. destruct E as ([] & h2 & Eck & E).
  apply bind_Ok_inv in E. destruct E as (oc_value & h3 & Ev & E).
  destruct (returns_Ok _ _ _ _ _
              (proj2 (parse_elem_ok camel_prefix b64decode k _ None None)) Ek)
    as (out & -> & Hout).
  rewrite extend_path_None in Hout.
  destruct (returns_Ok _ _ _ _ _ (check_key_returns e key' 0 out
              (ex_intro _ (extend_path pth key) Hout)) Eck) as (out' & -> & -> & kk & ->).
  simpl in Hout. subst out. rewrite !app_nil_r in *.
  destruct (node_schema_type oc_value =? "OC_DATA") eqn:Hty.
  - injection E as <- <-. apply String.eqb_eq in Hty.
    destruct oc_value as [k'|oc_value]; [discriminate|]. simpl in Hty.
    destruct (parse_elem_Ok _ _ _ _ _ _ _ Ev) as (_ & _ & _ & (_ & Hsh) & Hh3).
    assert (Hem : emitted oc_value = []).
    { destruct oc_value as [ty nm pa sz va o dn]; simpl in *. subst ty.
      destruct o; try reflexivity; try contradiction.
      - destruct Hsh; discriminate.
      - discriminate. }
    rewrite Hem, app_nil_r in Hh3. subst h3.
    exists k, v, rest, kk, oc_value. rewrite Hem, app_nil_r. auto 8.
  - apply bind_Ok_inv in E. destruct E as (a & h4 & Ea & E).
    injection E as <- <-.
    apply emit_map_Ok in Ea. destruct Ea as (p & c' & Hp & Hof & -> & ->).
    simpl in Hp, Hof. destruct oc_value as [k'|oc_value]; [discriminate|].
    injection Hof as <-. apply String.eqb_neq in Hty. simpl in Hty.
    destruct (parse_elem_Ok _ _ _ _ _ _ _ Ev) as (_ & _ & _ & _ & ->).
    exists k, v, rest, kk, oc_value. rewrite Hp in *.
    split; [reflexivity|]. split; [assumption|]. split; [assumption|].
    right. split; [assumption|]. exists p. repeat split.
Qed.

End Dispatch.

(** ** Inference on <data> *)

(** The schema element a run has returned, for statements about it. *)
Definition no_node : OcSchemaElement := new_OcSchemaElement "" None None None OfNone None.

Definition result_node (r : outcome node) : OcSchemaElement :=
  match r with Ok (NOc n) => n | _ => no_node end.

Definition result_size (r : outcome node) : option (option size_t) :=
  match r with Ok (NOc o) => Some (size o) | _ => None end.

(** A <data> element with the given attributes and literal. *)
Definition data_elem (attrs : list (string * string)) (literal : option string) : elem :=
  Elem "data" attrs literal [].

Definition key_elem (literal : option string) : elem := Elem "key" [] literal [].

(** [parse_data] with no attribute and a literal that decodes to [bs]. *)
Lemma parse_data_bare b64decode e pth h d bs :
  attr "type" (attrib e) = None -> attr "size" (attrib e) = None ->
  text e = Some d -> b64decode d = Some bs ->
  parse_data b64decode e pth h =
  (Ok (NOc (new_OcSchemaElement
              (Str.upper (fst (type_from_length (List.length bs) None))) pth
              (snd (type_from_length (List.length bs) None))
              (Some ("0x" ++ Str.hex bs)) OfNone None)), h).
Proof.
  intros Ht Hs Hd Hb. unfold parse_data, bind, ret. rewrite Ht, Hs, Hd, Hb. simpl.
  unfold type_from_length.
  destruct (List.length bs =? 2)%nat; [reflexivity|].
  destruct (List.length bs =? 4)%nat; [reflexivity|].
  destruct (List.length bs =? 8)%nat; [reflexivity|].
  destruct (negb (List.length bs =? 1)%nat); reflexivity.
Qed.

(** C3.  A <data> element with neither a type nor a size attribute and with
    a literal that decodes to [bs] is returned as UINT16, UINT32 or UINT64
    when [bs] has 2, 4 or 8 bytes, as a bare UINT8 with no size when it has
    one byte, and as UINT8 with size the number of bytes otherwise; nothing is
    printed. *)
Theorem C3_data_kind_from_length b64decode e pth h d bs :
  attr "type" (attrib e) = None -> attr "size" (attrib e) = None ->
  text e = Some d -> b64decode d = Some bs ->
  exists n,
    parse_data b64decode e pth h = (Ok (NOc n), h) /\
    (List.length bs = 2 -> schema_type n = "UINT16" /\ size n = None) /\
    (List.length bs = 4 -> schema_type n = "UINT32" /\ size n = None) /\
    (List.length bs = 8 -> schema_type n = "UINT64" /\ size n = None) /\
    (List.length bs = 1 -> schema_type n = "UINT8" /\ size n = None) /\
    (List.length bs <> 2 -> List.length bs <> 4 -> List.length bs <> 8 ->
     List.length bs <> 1 ->
     schema_type n = "UINT8" /\ size n = Some (SizeLen (List.length bs))).
Proof.
  intros Ht Hs Hd Hb. eexists. split; [exact (parse_data_bare _ _ _ _ _ _ Ht Hs Hd Hb)|].
  unfold type_from_length. simpl.
  split; [intros ->; split; reflexivity|].
  split; [intros ->; split; reflexivity|].
  split; [intros ->; split; reflexivity|].
  split; [intros ->; split; reflexivity|].
  intros H2 H4 H8 H1.
  apply Nat.eqb_neq in H2, H4, H8, H1. rewrite H2, H4, H8, H1. split; reflexivity.
Qed.

(** The literal "AQIDBAU=" is the five bytes 01 02 03 04 05. *)
Lemma C3_data_kind_from_length_witness :
  exists n,
    parse_data Base64.a2b_base64 (data_elem [] (Some "AQIDBAU=")) (Some ["Blob"]) []
      = (Ok (NOc n), []) /\
    schema_type n = "UINT8" /\ size n = Some (SizeLen 5).
Proof.
  destruct (C3_data_kind_from_length Base64.a2b_base64
              (data_elem [] (Some "AQIDBAU=")) (Some ["Blob"]) [] "AQIDBAU="
              [x01; x02; x03; x04; x05]%byte
              eq_refl eq_refl eq_refl eq_refl)
    as (n & E & _ & _ & _ & _ & H).
  exists n. split; [exact E|].
  apply H; simpl; lia.
Defined.

(** An explicit type attribute is never replaced by the inferred one. *)
Lemma parse_data_keeps_type b64decode e pth h t n h' :
  attr "type" (attrib e) = Some t ->
  parse_data b64decode e pth h = (Ok (NOc n), h') ->
  schema_type n = Str.upper (if String.eqb t "blob" then "oc_data" else t).
Proof.
  intros Ht. unfold parse_data, bind, ret, error, raise. rewrite Ht.
  destruct (text e) as [d|]; [destruct (b64decode d) as [bs|]; [|discriminate]|];
    simpl.
  - destruct (type_from_length (List.length bs) _) as [ty sz].
    destruct (is_none (option_map SizeAttr (attr "size" (attrib e))));
      simpl; destruct (_ && _); try discriminate;
      intros E; injection E as <- _; reflexivity.
  - destruct (_ && _); try discriminate.
    intros E; injection E as <- _; reflexivity.
Qed.

(** An explicit size attribute is never replaced by the inferred one. *)
Lemma parse_data_keeps_size b64decode e pth h s n h' :
  attr "size" (attrib e) = Some s ->
  parse_data b64decode e pth h = (Ok (NOc n), h') ->
  size n = Some (SizeAttr s).
Proof.
  intros Hs. unfold parse_data, bind, ret, error, raise. rewrite Hs.
  assert (Hlen : forall l, snd (type_from_length l (Some (SizeAttr s))) = Some (SizeAttr s)).
  { intros l. unfold type_from_length.
    destruct (l =? 2)%nat; [reflexivity|]. destruct (l =? 4)%nat; [reflexivity|].
    destruct (l =? 8)%nat; [reflexivity|]. simpl. now rewrite andb_false_r. }
  destruct (text e) as [d|]; [destruct (b64decode d) as [bs|]; [|discriminate]|];
    simpl.
  - destruct (attr "type" (attrib e)) as [t|]; simpl.
    + destruct (_ && _); simpl; try discriminate.
      intros E; injection E as <- _; reflexivity.
    + specialize (Hlen (List.length bs)).
      destruct (type_from_length (List.length bs) _) as [ty sz]. simpl in Hlen.
      subst sz. simpl. destruct (_ && _); simpl; try discriminate.
      intros E; injection E as <- _; reflexivity.
  - destruct (attr "type" (attrib e)) as [t|]; simpl.
    + destruct (_ && _); simpl; try discriminate.
      intros E; injection E as <- _; reflexivity.
    + intros E; injection E as <- _; reflexivity.
Qed.

(** With both attributes given the literal is decoded and nothing else. *)
Lemma parse_data_explicit b64decode e pth h t s :
  attr "type" (attrib e) = Some t -> attr "size" (attrib e) = Some s ->
  (text e = None \/ exists d bs, text e = Some d /\ b64decode d = Some bs) ->
  parse_data b64decode e pth h =
  if String.eqb t "blob"
  then (UserError ("size attribute not valid with schema_type=" ++ dq ++ "blob" ++ dq), h)
  else (Ok (NOc (new_OcSchemaElement (Str.upper t) pth (Some (SizeAttr s))
                   (option_map (fun bs => "0x" ++ Str.hex bs)
                      (match text e with Some d => b64decode d | None => None end))
                   OfNone None)), h).
Proof.
  intros Ht Hs Hd. unfold parse_data, bind, ret, error, raise. rewrite Ht, Hs.
  destruct Hd as [-> | (d & bs & -> & ->)]; simpl;
    destruct (t =? "blob") eqn:Hb; simpl; rewrite ?Hb; reflexivity.
Qed.

(** An explicit blob without a size goes through when there is no literal
    or the literal has 1, 2, 4 or 8 bytes. *)
Lemma parse_data_blob b64decode e pth h :
  attr "type" (attrib e) = Some "blob" -> attr "size" (attrib e) = None ->
  (text e = None \/
   exists d bs, text e = Some d /\ b64decode d = Some bs /\ In (List.length bs) [1; 2; 4; 8]) ->
  exists n, parse_data b64decode e pth h = (Ok (NOc n), h) /\
            schema_type n = "OC_DATA" /\ size n = None /\ of_ n = OfNone /\
            def_name n = None /\ path n = pth.
Proof.
  intros Ht Hs Hd. unfold parse_data, bind, ret, error, raise. rewrite Ht, Hs.
  destruct Hd as [-> | (d & bs & -> & -> & Hin)]; simpl.
  - eexists. split; [reflexivity|]. repeat split.
  - simpl in Hin.
    destruct Hin as [<- | [<- | [<- | [<- | []]]]]; simpl;
      (eexists; split; [reflexivity|]; repeat split).
Qed.

(** The kind read off the length of a literal. *)
Definition kind_of_length (length : nat) : string :=
  (if length =? 2 then "UINT16"
   else if length =? 4 then "UINT32"
   else if length =? 8 then "UINT64"
   else "UINT8")%nat.

(** The size set by the length of a literal, when none is given. *)
Definition size_of_length (length : nat) : option size_t :=
  if existsb (Nat.eqb length) [1; 2; 4; 8] then None else Some (SizeLen length).

(** Beside an explicit size, the kind comes from the literal. *)
Lemma parse_data_infers_type b64decode e pth h s d bs :
  attr "type" (attrib e) = None -> attr "size" (attrib e) = Some s ->
  text e = Some d -> b64decode d = Some bs ->
  parse_data b64decode e pth h
  = (Ok (NOc (new_OcSchemaElement (kind_of_length (List.length bs)) pth (Some (SizeAttr s))
                (Some ("0x" ++ Str.hex bs)) OfNone None)), h).
Proof.
  intros Ht Hs Hd Hb. unfold parse_data, bind, ret, error, raise.
  rewrite Ht, Hs, Hd, Hb. cbn [option_map is_none orb andb].
  unfold type_from_length, kind_of_length.
  destruct (List.length bs =? 2)%nat; [reflexivity|].
  destruct (List.length bs =? 4)%nat; [reflexivity|].
  destruct (List.length bs =? 8)%nat; [reflexivity|].
  cbn [is_none]. rewrite andb_false_r. reflexivity.
Qed.

(** Beside an explicit type other than blob, the size comes from the
    literal, when its length is not that of an integer. *)
Lemma parse_data_infers_size b64decode e pth h t d bs :
  attr "type" (attrib e) = Some t -> attr "size" (attrib e) = None ->
  String.eqb t "blob" = false ->
  text e = Some d -> b64decode d = Some bs ->
  parse_data b64decode e pth h
  = (Ok (NOc (new_OcSchemaElement (Str.upper t) pth (size_of_length (List.length bs))
                (Some ("0x" ++ Str.hex bs)) OfNone None)), h).
Proof.
  intros Ht Hs Hn Hd Hb. unfold parse_data, bind, ret, error, raise.
  rewrite Ht, Hs, Hd, Hb. cbn [option_map is_none orb andb].
  unfold type_from_length, size_of_length. cbn [existsb].
  destruct (List.length bs =? 1)%nat eqn:E1;
    destruct (List.length bs =? 2)%nat eqn:E2;
    destruct (List.length bs =? 4)%nat eqn:E4;
    destruct (List.length bs =? 8)%nat eqn:E8;
    cbn [orb negb andb is_none]; rewrite Hn; cbn [andb]; rewrite Hn; try reflexivity.
Qed.

(** With no literal nothing is inferred. *)
Lemma parse_data_no_literal b64decode e pth h :
  text e = None ->
  (forall t, attr "type" (attrib e) = Some t -> attr "size" (attrib e) = None ->
     parse_data b64decode e pth h
     = (Ok (NOc (new_OcSchemaElement
                   (Str.upper (if String.eqb t "blob" then "oc_data" else t))
                   pth None None OfNone None)), h)) /\
  (forall s, attr "type" (attrib e) = None -> attr "size" (attrib e) = Some s ->
     parse_data b64decode e pth h
     = (Ok (NOc (new_OcSchemaElement "UINT8" pth (Some (SizeAttr s)) None OfNone None)), h)).
Proof.
  intros Hd. split.
  - intros t Ht Hs. unfold parse_data, bind, ret, error, raise.
    rewrite Ht, Hs, Hd. cbn [option_map is_none negb]. now rewrite andb_false_r.
  - intros s Ht Hs. unfold parse_data, bind, ret, error, raise.
    rewrite Ht, Hs, Hd. reflexivity.
Qed.

(** An explicit blob that is accepted is an unsized OC_DATA. *)
Lemma parse_data_blob_unsized b64decode e pth h n h' :
  attr "type" (attrib e) = Some "blob" ->
  parse_data b64decode e pth h = (Ok (NOc n), h') ->
  schema_type n = "OC_DATA" /\ size n = None.
Proof.
  intros Ht. unfold parse_data, bind, ret, error, raise. rewrite Ht.
  destruct (text e) as [d|]; [destruct (b64decode d) as [bs|]; [|discriminate]|];
    cbn [option_map is_none orb].
  - destruct (is_none (option_map SizeAttr (attr "size" (attrib e)))) eqn:Hs.
    + destruct (type_from_length (List.length bs) _) as [ty [sz|]];
        cbn [String.eqb Ascii.eqb Bool.eqb andb is_none negb]; [discriminate|].
      intros E; injection E as <- _. split; reflexivity.
    + cbn [String.eqb Ascii.eqb Bool.eqb andb]. rewrite Hs. discriminate.
  - destruct (option_map SizeAttr (attr "size" (attrib e))) as [sz|];
      cbn [String.eqb Ascii.eqb Bool.eqb andb is_none negb]; [discriminate|].
    intros E; injection E as <- _. split; reflexivity.
Qed.

(** C2, as the code has it.  With both a type and a size attribute (and a
    type other than blob) the node carries exactly those and the literal plays
    no part.  When only one of them is given and there is a literal, the
    inference runs and fills in the other one only: beside an explicit size the
    kind is the one read off the length of the literal, beside an explicit
    type other than blob the size is the length of the literal unless that is
    1, 2, 4 or 8.  With no literal nothing is inferred.  The attribute that is
    given is never replaced, and an explicit blob that is accepted is an
    unsized OC_DATA, as it always is when there is no literal. *)
Theorem C2_explicit_attributes_are_kept b64decode e pth h :
  (forall t s,
      attr "type" (attrib e) = Some t -> attr "size" (attrib e) = Some s ->
      String.eqb t "blob" = false ->
      (text e = None \/ exists d bs, text e = Some d /\ b64decode d = Some bs) ->
      exists n, parse_data b64decode e pth h = (Ok (NOc n), h) /\
                schema_type n = Str.upper t /\ size n = Some (SizeAttr s)) /\
  (forall t n h',
      attr "type" (attrib e) = Some t ->
      parse_data b64decode e pth h = (Ok (NOc n), h') ->
      schema_type n = Str.upper (if String.eqb t "blob" then "oc_data" else t)) /\
  (forall s n h',
      attr "size" (attrib e) = Some s ->
      parse_data b64decode e pth h = (Ok (NOc n), h') ->
      size n = Some (SizeAttr s)) /\
  (forall s d bs,
      attr "type" (attrib e) = None -> attr "size" (attrib e) = Some s ->
      text e = Some d -> b64decode d = Some bs ->
      parse_data b64decode e pth h
      = (Ok (NOc (new_OcSchemaElement (kind_of_length (List.length bs)) pth
                    (Some (SizeAttr s)) (Some ("0x" ++ Str.hex bs)) OfNone None)), h)) /\
  (forall t d bs,
      attr "type" (attrib e) = Some t -> attr "size" (attrib e) = None ->
      String.eqb t "blob" = false ->
      text e = Some d -> b64decode d = Some bs ->
      parse_data b64decode e pth h
      = (Ok (NOc (new_OcSchemaElement (Str.upper t) pth (size_of_length (List.length bs))
                    (Some ("0x" ++ Str.hex bs)) OfNone None)), h)) /\
  (text e = None ->
   (forall t, attr "type" (attrib e) = Some t -> attr "size" (attrib e) = None ->
      parse_data b64decode e pth h
      = (Ok (NOc (new_OcSchemaElement
                    (Str.upper (if String.eqb t "blob" then "oc_data" else t))
                    pth None None OfNone None)), h)) /\
   (forall s, attr "type" (attrib e) = None -> attr "size" (attrib e) = Some s ->
      parse_data b64decode e pth h
      = (Ok (NOc (new_OcSchemaElement "UINT8" pth (Some (SizeAttr s)) None OfNone None)),
         h))) /\
  (forall n h',
      attr "type" (attrib e) = Some "blob" ->
      parse_data b64decode e pth h = (Ok (NOc n), h') ->
      schema_type n = "OC_DATA" /\ size n = None).
Proof.
  split; [|split; [|split; [|split; [|split; [|split]]]]].
  - intros t s Ht Hs Hb Hd.
    rewrite (parse_data_explicit _ _ _ _ _ _ Ht Hs Hd), Hb.
    eexists. split; [reflexivity|]. split; reflexivity.
  - intros t n h' Ht E. exact (parse_data_keeps_type _ _ _ _ _ _ _ Ht E).
  - intros s n h' Hs E. exact (parse_data_keeps_size _ _ _ _ _ _ _ Hs E).
  - intros s d bs. apply parse_data_infers_type.
  - intros t d bs. apply parse_data_infers_size.
  - apply parse_data_no_literal.
  - intros n h'. apply parse_data_blob_unsized.
Qed.

(** A two-byte literal beside size="4", and a three-byte literal ("QUJD" is
    the bytes of ABC) beside type="uint8". *)
Lemma C2_explicit_attributes_are_kept_witness :
  parse_data Base64.a2b_base64 (data_elem [("size", "4")] (Some "QUI=")) (Some ["Value"]) []
  = (Ok (NOc (mkOc "UINT16" None (Some ["Value"]) (Some (SizeAttr "4")) (Some "0x4142")
                OfNone None)), []) /\
  parse_data Base64.a2b_base64 (data_elem [("type", "uint8")] (Some "QUJD")) (Some ["Value"]) []
  = (Ok (NOc (mkOc "UINT8" None (Some ["Value"]) (Some (SizeLen 3)) (Some "0x414243")
                OfNone None)), []).
Proof.
  split.
  - exact (proj1 (proj2 (proj2 (proj2
             (C2_explicit_attributes_are_kept Base64.a2b_base64
                (data_elem [("size", "4")] (Some "QUI=")) (Some ["Value"]) []))))
             "4" "QUI=" ["A"; "B"]%byte eq_refl eq_refl eq_refl eq_refl).
  - exact (proj1 (proj2 (proj2 (proj2 (proj2
             (C2_explicit_attributes_are_kept Base64.a2b_base64
                (data_elem [("type", "uint8")] (Some "QUJD")) (Some ["Value"]) [])))))
             "uint8" "QUJD" ["A"; "B"; "C"]%byte eq_refl eq_refl eq_refl eq_refl eq_refl).
Defined.

(** The claim fails where the literal of an explicit blob has three bytes
    ("QUJD" is the bytes of ABC): the length sets a size, and the size is then
    refused; and an explicit type="uint8" with the same literal comes back with
    a size nobody declared. *)
Lemma C2_counterexample :
  Base64.a2b_base64 "QUJD" = Some ["A"; "B"; "C"]%byte /\
  parse_data Base64.a2b_base64 (data_elem [("type", "blob")] (Some "QUJD")) (Some ["Blob"]) []
    = (UserError ("size attribute not valid with schema_type=" ++ dq ++ "blob" ++ dq), []) /\
  result_size
    (fst (parse_data Base64.a2b_base64 (data_elem [("type", "uint8")] (Some "QUJD"))
            (Some ["Blob"]) []))
    = Some (Some (SizeLen 3)).
Proof. repeat split. Qed.

(** ** Maps *)

(** A <data> element with no attribute and no literal is an opaque blob. *)
Lemma parse_data_empty b64decode e pth h :
  attr "type" (attrib e) = None -> attr "size" (attrib e) = None -> text e = None ->
  parse_data b64decode e pth h =
  (Ok (NOc (new_OcSchemaElement "OC_DATA" pth None None OfNone None)), h).
Proof.
  intros Ht Hs Hd. unfold parse_data, bind, ret. rewrite Ht, Hs, Hd. reflexivity.
Qed.

Lemma parse_elem_key_run camel_prefix b64decode e pth key context h :
  tag e = "key" ->
  parse_elem camel_prefix b64decode e pth key context h =
  (Ok (NKey (new_PlistKey (text e) (attr "path" (attrib e)))), h).
Proof. intros H. now rewrite (parse_elem_key _ _ _ _ _ _ H). Qed.

Lemma check_key_NKey parent k index h : check_key parent (NKey k) index h = (Ok tt, h).
Proof. reflexivity. Qed.

Lemma emit_map_run camel_prefix p c h :
  emit_map camel_prefix (new_OcSchemaElement "OC_MAP" (Some p) None None (OfElem c) None) h =
  (Ok (mkOc "OC_MAP" None (Some p) None None (OfElem c)
         (Some (generated_id camel_prefix p "MAP"))),
   app h (decl_chunks (mkOc "OC_MAP" None (Some p) None None (OfElem c)
                         (Some (generated_id camel_prefix p "MAP"))) c)).
Proof.
  unfold emit_map, upper_path, path_segments, of_def_name, bind, print, ret. simpl.
  now rewrite <- !app_assoc.
Qed.

Lemma emit_array_run camel_prefix p c context h :
  emit_array camel_prefix
    (new_OcSchemaElement "OC_ARRAY" (Some p) None None (OfElem c) None) context h =
  (Ok (mkOc "OC_ARRAY" None (Some p) None None (OfElem c)
         (Some (generated_id camel_prefix p (context_type context)))),
   app h (decl_chunks (mkOc "OC_ARRAY" None (Some p) None None (OfElem c)
                         (Some (generated_id camel_prefix p (context_type context)))) c)).
Proof.
  unfold emit_array, upper_path, path_segments, of_def_name, bind, print, ret. simpl.
  now rewrite <- !app_assoc.
Qed.

(** [parse_map] when the key is a <key> and the value walks to [oc_value]. *)
Lemma parse_map_run camel_prefix b64decode e k v rest pth key context h oc_value h1 :
  tag e = "dict" -> is_map e = true -> children e = k :: v :: rest ->
  Nat.even (List.length rest) = true -> tag k = "key" ->
  parse_elem camel_prefix b64decode v (extend_path pth key) None (Some "map") h
    = (Ok (NOc oc_value), h1) ->
  parse_elem camel_prefix b64decode e pth key context h =
  if String.eqb (schema_type oc_value) "OC_DATA"
  then (Ok (NOc (new_OcSchemaElement "OC_ASSOC" (extend_path pth key) None None OfNone
                   (Some "OC_ASSOC"))), h1)
  else bind (emit_map camel_prefix
               (new_OcSchemaElement "OC_MAP" (extend_path pth key) None None
                  (OfElem oc_value) None))
            (fun elem_map => ret (NOc elem_map)) h1.
Proof.
  intros Ht Hm Hc Hev Hk Ev.
  rewrite (parse_elem_map _ _ _ _ _ _ Ht Hm). unfold parse_map.
  rewrite (bind_Ok _ _ _ _ _ (init_dict_pairs _ _ _ _ _ _ Hc Hev)). rewrite Hc.
  rewrite (bind_Ok _ _ _ _ _ (parse_elem_key_run _ _ _ _ _ _ _ Hk)). cbv beta.
  rewrite (bind_Ok _ _ _ _ _ (check_key_NKey _ _ _ _)). cbv beta.
  rewrite (bind_Ok _ _ _ _ _ Ev). cbv beta. unfold node_schema_type.
  destruct (schema_type oc_value =? "OC_DATA"); reflexivity.
Qed.

(** C1, as the code has it.  The map collapses to OC_ASSOC, with nothing
    printed, when its <data> value is an opaque blob: an explicit type="blob"
    (with no literal or with 8 bytes of it), or no attribute and no literal.
    With 8 bytes of literal and no attribute the value is a UINT64 and the map
    is declared. *)
Theorem C1_map_collapses_on_blob_value camel_prefix b64decode e k v rest pth key context h :
  tag e = "dict" -> is_map e = true -> children e = k :: v :: rest ->
  Nat.even (List.length rest) = true ->
  tag k = "key" -> tag v = "data" -> attr "size" (attrib v) = None ->
  (((attr "type" (attrib v) = Some "blob" /\
     (text v = None \/
      exists d bs, text v = Some d /\ b64decode d = Some bs /\ List.length bs = 8)) \/
    (attr "type" (attrib v) = None /\ text v = None)) ->
   parse_elem camel_prefix b64decode e pth key context h =
   (Ok (NOc (new_OcSchemaElement "OC_ASSOC" (extend_path pth key) None None OfNone
               (Some "OC_ASSOC"))), h)) /\
  (forall d bs p,
      attr "type" (attrib v) = None -> text v = Some d -> b64decode d = Some bs ->
      List.length bs = 8 -> extend_path pth key = Some p ->
      exists n val,
        parse_elem camel_prefix b64decode e pth key context h
          = (Ok (NOc n), app h (decl_chunks n val)) /\
        schema_type n = "OC_MAP" /\ of_ n = OfElem val /\
        schema_type val = "UINT64" /\
        def_name n = Some (generated_id camel_prefix p "MAP")).
Proof.
  intros Ht Hm Hc Hev Hk Hv Hs. split.
  - intros Hblob.
    assert (Ev : exists n, parse_elem camel_prefix b64decode v (extend_path pth key) None
                             (Some "map") h = (Ok (NOc n), h) /\
                           schema_type n = "OC_DATA").
    { rewrite (parse_elem_data _ _ _ _ _ _ Hv), extend_path_None.
      destruct Hblob as [(Hty & Hd) | (Hty & Hd)].
      - assert (Hd' : text v = None \/
                      exists d bs, text v = Some d /\ b64decode d = Some bs /\
                                   In (List.length bs) [1; 2; 4; 8]).
        { destruct Hd as [Hd | (d & bs & Hd & Hb & Hl)]; [now left|].
          right. exists d, bs. rewrite Hl. simpl. repeat split; auto 6. }
        destruct (parse_data_blob b64decode v (extend_path pth key) h Hty Hs Hd')
          as (n & E & Hn & _).
        exists n. auto.
      - rewrite (parse_data_empty _ _ _ _ Hty Hs Hd). eexists. split; reflexivity. }
    destruct Ev as (n & Ev & Hn).
    rewrite (parse_map_run _ _ _ _ _ _ _ _ _ _ _ _ Ht Hm Hc Hev Hk Ev), Hn.
    reflexivity.
  - intros d bs p Hty Hd Hb Hl Hp.
    assert (Ev := parse_data_bare b64decode v (extend_path pth key) h d bs Hty Hs Hd Hb).
    rewrite Hl in Ev.
    change (Str.upper (fst (type_from_length 8 None))) with "UINT64" in Ev.
    change (snd (type_from_length 8 None)) with (@None size_t) in Ev.
    rewrite <- (extend_path_None (extend_path pth key)) in Ev at 1.
    rewrite <- (parse_elem_data camel_prefix b64decode v _ None (Some "map") Hv) in Ev.
    rewrite (parse_map_run _ _ _ _ _ _ _ _ _ _ _ _ Ht Hm Hc Hev Hk Ev).
    rewrite Hp. simpl String.eqb. cbv iota.
    rewrite (bind_Ok _ _ _ _ _ (emit_map_run _ _ _ _)).
    eexists. eexists. split; [reflexivity|]. repeat split.
Qed.

(** <dict type="map"> with one <key> and one value. *)
Definition map_elem (k v : elem) : elem := Elem "dict" [("type", "map")] None [k; v].

(** The literal "AAAAAAAAAAA=" is eight zero bytes. *)
Lemma C1_map_collapses_on_blob_value_witness :
  parse_elem "Oc" Base64.a2b_base64
    (map_elem (key_elem (Some "Key")) (data_elem [("type", "blob")] (Some "AAAAAAAAAAA=")))
    (Some ["Devices"]) None None []
  = (Ok (NOc (new_OcSchemaElement "OC_ASSOC" (Some ["Devices"]) None None OfNone
                (Some "OC_ASSOC"))), []).
Proof.
  apply (proj1 (C1_map_collapses_on_blob_value "Oc" Base64.a2b_base64
                  (map_elem (key_elem (Some "Key"))
                     (data_elem [("type", "blob")] (Some "AAAAAAAAAAA=")))
                  (key_elem (Some "Key"))
                  (data_elem [("type", "blob")] (Some "AAAAAAAAAAA=")) []
                  (Some ["Devices"]) None None []
                  eq_refl eq_refl eq_refl eq_refl eq_refl eq_refl eq_refl)).
  left. split; [reflexivity|]. right.
  exists "AAAAAAAAAAA=", (repeat x00%byte 8). repeat split.
Defined.

(** The scenario of the claim: the key "Key", eight literal bytes, no
    attribute.  The value is a UINT64, the map is an OC_MAP with a generated
    identifier, and its declaration is printed. *)
Lemma C1_counterexample :
  option_map (@List.length byte) (Base64.a2b_base64 "AAAAAAAAAAA=") = Some 8 /\
  parse_elem "Oc" Base64.a2b_base64
    (map_elem (key_elem (Some "Key")) (data_elem [] (Some "AAAAAAAAAAA=")))
    (Some ["Devices"]) None None []
  = (Ok (NOc (mkOc "OC_MAP" None (Some ["Devices"]) None None
                (OfElem (mkOc "UINT64" None (Some ["Devices"]) None
                           (Some "0x0000000000000000") OfNone None))
                (Some "OC_DEVICES_MAP"))),
     [define_line "OC_DEVICES_MAP";
      "  OC_MAP (OC_STRING, None, _, __)" ++ nl;
      "  OC_DECLARE (OC_DEVICES_MAP)" ++ nl;
      nl]).
Proof. split; reflexivity. Qed.

(** ** Structs *)

Section Structs.

Variable camel_prefix : string.
Variable b64decode : string -> option (list byte).

Local Notation "'walk'" := (parse_elem camel_prefix b64decode).

(** A successful [parse_fields], read backwards. *)
Lemma parse_fields_Ok e pth key context h n h' :
  tag e = "dict" -> is_map e = false ->
  walk e pth key context h = (Ok (NOc n), h') ->
  exists fs,
    n = new_OcSchemaElement "OC_STRUCT" (extend_path pth key) None None (OfList fs) None /\
    parse_fields_loop walk e (extend_path pth key) (children e) 0 [] h = (Ok fs, h') /\
    children e <> [] /\ Nat.even (List.length (children e)) = true.
Proof.
  intros Ht Hm E. rewrite (parse_elem_fields _ _ _ _ _ _ Ht Hm) in E.
  unfold parse_fields in E.
  apply bind_Ok_inv in E. destruct E as (count & h0 & Ei & E).
  apply init_dict_Ok in Ei. destruct Ei as (-> & Hne & Hev).
  apply bind_Ok_inv in E. destruct E as (fs & h1 & El & E).
  injection E as <- <-. exists fs. auto.
Qed.

(** The loop only ever appends to the fields it was given. *)
Lemma parse_fields_loop_extends parent pth cs index fields h fs h' :
  parse_fields_loop walk parent pth cs index fields h = (Ok fs, h') ->
  exists new, fs = app fields new /\ fields_named new = true /\
              h' = app h (fields_emitted pth new).
Proof.
  intros E.
  assert (Hcs : Forall (rec_ok walk) cs).
  { apply Forall_forall. intros c _. apply parse_elem_ok. }
  destruct (returns_Ok _ _ _ _ _
              (parse_fields_loop_returns walk parent pth cs Hcs index fields) E) as (out & -> & new & -> & Hn & ->).
  exists new. auto.
Qed.

(** The first field of a struct, when the walk went through: the key is a
    key with text [s], and the field is what the value walks to at the path
    extended by the key's segment, named [s]. *)
Lemma parse_fields_first e pth key context h n h' k v rest :
  tag e = "dict" -> is_map e = false -> children e = k :: v :: rest ->
  walk e pth key context h = (Ok (NOc n), h') ->
  exists kk s p child fs,
    walk k (extend_path pth key) None None h = (Ok (NKey kk), h) /\
    key_value kk = Some s /\ extend_path pth key = Some p /\
    walk v (Some p) (key_path_spec kk) None
      (app h (if is_top (Some p) then section_chunks (Some s) else []))
      = (Ok (NOc child),
         app (app h (if is_top (Some p) then section_chunks (Some s) else []))
             (emitted child)) /\
    of_ n = OfList (mkOc (schema_type child) (Some s) (path child) (size child)
                         (value child) (of_ child) (def_name child) :: fs) /\
    schema_type n = "OC_STRUCT" /\ def_name n = None.
Proof.
  intros Ht Hm Hc E.
  destruct (parse_fields_Ok _ _ _ _ _ _ _ Ht Hm E) as (fs & -> & El & _ & _).
  rewrite Hc in El.
  destruct (parse_fields_loop_Ok _ _ _ _ _ _ _ _ _ _ _ _ El)
    as (kk & s & p & child & Ek & Hs & Hp & Ev & Erest).
  cbv zeta in *.
  destruct (parse_fields_loop_extends _ _ _ _ _ _ _ _ Erest) as (new & -> & _ & _).
  rewrite Hp in *.
  exists kk, s, p, child, new. repeat split; assumption.
Qed.

End Structs.

(** ** Arrays and generated identifiers *)

Definition true_elem : elem := Elem "true" [] None [].

Definition array_elem (template : elem) : elem := Elem "array" [] None [template].

Definition struct_elem (cs : list elem) : elem := Elem "dict" [] None cs.

(** C4, as the code has it.  The template of an array is walked at the
    array's own path with no key, so the node built for it carries the path of
    the array, which is the path handed to the array extended by its key. *)
Theorem C4_array_template_has_array_path camel_prefix b64decode e pth key context h n h' :
  tag e = "array" ->
  parse_elem camel_prefix b64decode e pth key context h = (Ok (NOc n), h') ->
  exists c p,
    of_ n = OfElem c /\ path n = extend_path pth key /\
    path c = path n /\ path c = Some p.
Proof.
  intros Ht E.
  destruct (parse_array_Ok _ _ _ _ _ _ _ _ _ Ht E)
    as (c & cs & child & p & _ & Hp & _ & Hpc & -> & _).
  exists child, p. simpl. rewrite Hp, Hpc. auto.
Qed.

Lemma C4_array_template_has_array_path_witness :
  exists c p,
    of_ (mkOc "OC_ARRAY" None (Some ["Items"]) None None
           (OfElem (mkOc "BOOLEAN" None (Some ["Items"]) None (Some "true") OfNone None))
           (Some "OC_ITEMS_ARRAY")) = OfElem c /\
    Some ["Items"] = extend_path (Some []) (Some "Items") /\
    path c = Some ["Items"] /\ path c = Some p.
Proof.
  exact (C4_array_template_has_array_path "Oc" Base64.a2b_base64
           (array_elem true_elem) (Some []) (Some "Items") None []
           (mkOc "OC_ARRAY" None (Some ["Items"]) None None
              (OfElem (mkOc "BOOLEAN" None (Some ["Items"]) None (Some "true") OfNone None))
              (Some "OC_ITEMS_ARRAY"))
           _ eq_refl eq_refl).
Defined.

(** The template <true/> of the array under the key "Items" of the top
    struct is built with the path ["Items"], not with no path. *)
Lemma C4_counterexample :
  exists n c h',
    parse_elem "Oc" Base64.a2b_base64 (array_elem true_elem) (Some []) (Some "Items")
      None [] = (Ok (NOc n), h') /\
    of_ n = OfElem c /\ path c = Some ["Items"] /\ path c <> None.
Proof.
  eexists. eexists. eexists. split; [vm_compute; reflexivity|].
  split; [reflexivity|]. split; [reflexivity|]. discriminate.
Qed.

(** A top struct with a boolean "Enabled" and an array "Items" of structs
    with one string "Name". *)
Definition items_doc : elem :=
  Elem "plist" [] None
    [struct_elem
       [key_elem (Some "Enabled"); true_elem;
        key_elem (Some "Items");
        array_elem (struct_elem [key_elem (Some "Name"); Elem "string" [] (Some "x") []])]].

Example items_doc_run :
  fst (run "Oc" Base64.a2b_base64 items_doc) =
  Ok (NOc (mkOc "OC_STRUCT" None (Some []) None None
             (OfList
                [mkOc "BOOLEAN" (Some "Enabled") (Some ["Enabled"]) None (Some "true")
                   OfNone None;
                 mkOc "OC_ARRAY" (Some "Items") (Some ["Items"]) None None
                   (OfElem
                      (mkOc "OC_STRUCT" None (Some ["Items"]) None None
                         (OfList
                            [mkOc "OC_STRING" (Some "Name") (Some ["Items"; "Name"]) None
                               (Some "x") OfNone (Some "OC_STRING")])
                         None))
                   (Some "OC_ITEMS_ARRAY")])
             None)) /\
  snd (run "Oc" Base64.a2b_base64 items_doc) =
  app (section_chunks (Some "Enabled"))
    (app (section_chunks (Some "Items"))
       [define_line "OC_ITEMS_ARRAY";
        "  OC_ARRAY (None, _, __)" ++ nl;
        "  OC_DECLARE (OC_ITEMS_ARRAY)" ++ nl;
        nl]).
Proof. split; reflexivity. Qed.

(** ** Order of the declarations *)

(** The name of a node plays no part in what the node has printed. *)
Lemma emitted_named child s :
  emitted (mkOc (schema_type child) s (path child) (size child) (value child)
             (of_ child) (def_name child)) = emitted child.
Proof. destruct child. reflexivity. Qed.

Lemma emitted_OfList n fs :
  of_ n = OfList fs -> emitted n = fields_emitted (path n) fs.
Proof. destruct n; simpl. intros ->. reflexivity. Qed.

Lemma emitted_struct pth fs :
  emitted (new_OcSchemaElement "OC_STRUCT" pth None None (OfList fs) None)
  = fields_emitted pth fs.
Proof. reflexivity. Qed.

Lemma fields_emitted_two pth f1 f2 :
  fields_emitted pth [f1; f2] =
  app (if is_top pth then section_chunks (name f1) else [])
    (app (emitted f1)
       (app (if is_top pth then section_chunks (name f2) else []) (emitted f2))).
Proof.
  unfold fields_emitted. simpl. now rewrite app_nil_r, <- !app_assoc.
Qed.

(** What is built where a <key> is not: never an OC_DATA, unless from a
    <data> or through a <plist>. *)
Lemma walk_not_data camel_prefix b64decode e pth key context h n h' :
  String.eqb (tag e) "data" = false -> String.eqb (tag e) "plist" = false ->
  parse_elem camel_prefix b64decode e pth key context h = (Ok (NOc n), h') ->
  schema_type n <> "OC_DATA".
Proof.
  intros Nd Np E.
  destruct (String.eqb_spec (tag e) "array") as [Ht|Na].
  { destruct (parse_array_Ok _ _ _ _ _ _ _ _ _ Ht E) as (c & cs & ch & p & _ & _ & _ & _ & -> & _).
    discriminate. }
  destruct (String.eqb_spec (tag e) "dict") as [Ht|Ndict].
  { destruct (is_map e) eqn:Hm.
    - destruct (parse_map_Ok _ _ _ _ _ _ _ _ _ Ht Hm E)
        as (k & v & rest & kk & ov & _ & _ & _ & [(_ & -> & _) | (_ & p & _ & -> & _)]);
        discriminate.
    - destruct (parse_fields_Ok _ _ _ _ _ _ _ _ _ Ht Hm E) as (fs & -> & _). discriminate. }
  rewrite parse_elem_eq in E. cbv zeta in E.
  apply String.eqb_neq in Na, Ndict. rewrite Nd, Np, Na, Ndict in E.
  destruct (tag e =? "key"); [discriminate E|].
  destruct (_ || _); [injection E as <- _; discriminate|].
  destruct (tag e =? "string"); [injection E as <- _; discriminate|].
  destruct (tag e =? "integer"); [injection E as <- _; discriminate|].
  discriminate E.
Qed.

(** A struct of an array and then a map: the declaration of the array is in
    the buffer, and behind it that of the map, unless the value of the map was
    built into an OC_DATA. *)
Lemma array_then_map_buffer camel_prefix b64decode e pth key context h n h' k1 a k2 m :
  parse_elem camel_prefix b64decode e pth key context h = (Ok (NOc n), h') ->
  tag e = "dict" -> is_map e = false ->
  children e = [k1; a; k2; m] -> tag a = "array" -> tag m = "dict" -> is_map m = true ->
  exists na ca nm pre mid,
    of_ n = OfList [na; nm] /\ of_ na = OfElem ca /\
    schema_type na = "OC_ARRAY" /\
    ((schema_type nm = "OC_ASSOC" /\
      (exists km vm restm ov pv hv hv',
          children m = km :: vm :: restm /\
          parse_elem camel_prefix b64decode vm pv None (Some "map") hv = (Ok (NOc ov), hv') /\
          schema_type ov = "OC_DATA") /\
      h' = app h (app pre (app (decl_chunks na ca) mid))) \/
     (schema_type nm = "OC_MAP" /\
      exists cm, of_ nm = OfElem cm /\
        h' = app h (app pre (app (decl_chunks na ca) (app mid (decl_chunks nm cm)))))).
Proof.
  intros E Ht Hm Hc Ha Htm Hmm.
  destruct (parse_elem_Ok _ _ _ _ _ _ _ _ _ E) as (_ & _ & _ & _ & Hh).
  destruct (parse_fields_Ok _ _ _ _ _ _ _ _ _ Ht Hm E) as (fs & Hn & El & _ & _).
  rewrite Hc in El.
  destruct (parse_fields_loop_Ok _ _ _ _ _ _ _ _ _ _ _ _ El)
    as (kk1 & s1 & p & c1 & _ & _ & Hp & Ev1 & El2).
  cbv zeta in Ev1, El2.
  destruct (parse_fields_loop_Ok _ _ _ _ _ _ _ _ _ _ _ _ El2)
    as (kk2 & s2 & p' & c2 & _ & _ & Hp' & Ev2 & El3).
  cbv zeta in Ev2, El3. simpl in El3. injection El3 as <- _.
  rewrite Hp in Hp'. injection Hp' as <-.
  destruct (parse_array_Ok _ _ _ _ _ _ _ _ _ Ha Ev1)
    as (ca' & cs & ca & pa & _ & _ & _ & _ & Hc1 & _).
  assert (Hem : emitted n =
                app (if is_top (Some p) then section_chunks (Some s1) else [])
                  (app (emitted c1)
                     (app (if is_top (Some p) then section_chunks (Some s2) else [])
                        (emitted c2)))).
  { rewrite Hn, emitted_struct, fields_emitted_two, Hp.
    cbn [name]. now rewrite !emitted_named. }
  rewrite Hh, Hem.
  set (na := mkOc (schema_type c1) (Some s1) (path c1) (size c1) (value c1) (of_ c1)
                  (def_name c1)).
  set (nm := mkOc (schema_type c2) (Some s2) (path c2) (size c2) (value c2) (of_ c2)
                  (def_name c2)).
  assert (Hdecl : forall c, decl_chunks na c = decl_chunks c1 c) by reflexivity.
  assert (Hdecl' : forall c, decl_chunks nm c = decl_chunks c2 c) by reflexivity.
  exists na, ca, nm,
    (app (if is_top (Some p) then section_chunks (Some s1) else []) (emitted ca)).
  destruct (parse_map_Ok _ _ _ _ _ _ _ _ _ Htm Hmm Ev2)
    as (k & v & rest & kk & ov & Hcm & _ & Evm &
        [(Hdata & Hc2 & _) | (_ & pm & _ & Hc2 & _)]).
  - exists (if is_top (Some p) then section_chunks (Some s2) else []).
    split; [now rewrite Hn|]. split; [subst na c1; reflexivity|].
    split; [subst na c1; reflexivity|].
    left. split; [subst nm c2; reflexivity|].
    split; [exists k, v, rest, ov; do 3 eexists; split; [exact Hcm|]; split;
            [exact Evm | exact Hdata]|].
    rewrite Hdecl. rewrite (emitted_OfElem c1 ca) by (subst c1; reflexivity).
    replace (emitted c2) with (@nil string) by (subst c2; reflexivity).
    now rewrite app_nil_r, <- !app_assoc.
  - exists (app (if is_top (Some p) then section_chunks (Some s2) else []) (emitted ov)).
    split; [now rewrite Hn|]. split; [subst na c1; reflexivity|].
    split; [subst na c1; reflexivity|].
    right. split; [subst nm c2; reflexivity|].
    exists ov. split; [subst nm c2; reflexivity|].
    rewrite Hdecl, Hdecl'. rewrite (emitted_OfElem c1 ca) by (subst c1; reflexivity).
    rewrite (emitted_OfElem c2 ov) by (subst c2; reflexivity).
    now rewrite <- !app_assoc.
Qed.

(** C7.  What a successful walk has added to the buffer is [emitted] of the
    tree it returns: under an array or map the output of the template comes
    first and the node's own declaration last; a struct adds nothing of its
    own to the output of its fields, which come in document order.  So in a
    struct whose fields are an array and then a map, the declaration of the
    array stands before that of the map; and the map is declared whenever its
    value is anything but a <data> or a <plist>. *)
Theorem C7_declarations_follow_construction camel_prefix b64decode e pth key context h n h' :
  parse_elem camel_prefix b64decode e pth key context h = (Ok (NOc n), h') ->
  h' = app h (emitted n) /\
  (forall c, of_ n = OfElem c -> emitted n = app (emitted c) (decl_chunks n c)) /\
  (forall fs, of_ n = OfList fs -> emitted n = fields_emitted (path n) fs) /\
  (tag e = "dict" -> is_map e = false ->
   forall k1 a k2 m,
     children e = [k1; a; k2; m] -> tag a = "array" -> tag m = "dict" -> is_map m = true ->
     exists na ca nm pre mid,
       of_ n = OfList [na; nm] /\ of_ na = OfElem ca /\
       schema_type na = "OC_ARRAY" /\
       ((schema_type nm = "OC_ASSOC" /\
         h' = app h (app pre (app (decl_chunks na ca) mid))) \/
        (schema_type nm = "OC_MAP" /\
         exists cm, of_ nm = OfElem cm /\
           h' = app h (app pre (app (decl_chunks na ca) (app mid (decl_chunks nm cm))))))) /\
  (tag e = "dict" -> is_map e = false ->
   forall k1 a k2 m km vm restm,
     children e = [k1; a; k2; m] -> tag a = "array" -> tag m = "dict" -> is_map m = true ->
     children m = km :: vm :: restm ->
     String.eqb (tag vm) "data" = false -> String.eqb (tag vm) "plist" = false ->
     exists na ca nm cm pre mid,
       of_ n = OfList [na; nm] /\
       of_ na = OfElem ca /\ schema_type na = "OC_ARRAY" /\
       of_ nm = OfElem cm /\ schema_type nm = "OC_MAP" /\
       h' = app h (app pre (app (decl_chunks na ca) (app mid (decl_chunks nm cm))))).
Proof.
  intros E.
  destruct (parse_elem_Ok _ _ _ _ _ _ _ _ _ E) as (_ & _ & _ & _ & Hh).
  split; [exact Hh|]. split; [apply emitted_OfElem|]. split; [apply emitted_OfList|].
  split.
  - intros Ht Hm k1 a k2 m Hc Ha Htm Hmm.
    destruct (array_then_map_buffer _ _ _ _ _ _ _ _ _ _ _ _ _ E Ht Hm Hc Ha Htm Hmm)
      as (na & ca & nm & pre & mid & H1 & H2 & H3 & [(H4 & _ & H5) | H4]).
    + exists na, ca, nm, pre, mid. repeat (split; [assumption|]). left. now split.
    + exists na, ca, nm, pre, mid. repeat (split; [assumption|]). now right.
  - intros Ht Hm k1 a k2 m km vm restm Hc Ha Htm Hmm Hcm Nd Np.
    destruct (array_then_map_buffer _ _ _ _ _ _ _ _ _ _ _ _ _ E Ht Hm Hc Ha Htm Hmm)
      as (na & ca & nm & pre & mid & H1 & H2 & H3 &
          [(_ & (km' & vm' & restm' & ov & pv & hv & hv' & Hcm' & Ev & Hov) & _)
          | (H4 & cm & H5 & H6)]).
    + rewrite Hcm in Hcm'. injection Hcm' as <- <- <-.
      now elim (walk_not_data _ _ _ _ _ _ _ _ _ Nd Np Ev).
    + exists na, ca, nm, cm, pre, mid. repeat (split; [assumption|]). assumption.
Qed.

Definition two_fields_doc : elem :=
  struct_elem
    [key_elem (Some "Items"); array_elem true_elem;
     key_elem (Some "Quirks"); map_elem (key_elem (Some "Key")) true_elem].

Definition two_fields_run : outcome node * buffer :=
  Eval vm_compute in
    parse_elem "Oc" Base64.a2b_base64 two_fields_doc (Some []) None None [].

Definition two_fields_node : OcSchemaElement := Eval vm_compute in result_node (fst two_fields_run).

(** A top struct with the array "Items" and then the map "Quirks": both are
    declared, the array first. *)
Lemma C7_declarations_follow_construction_witness :
  exists na ca nm cm pre mid,
    of_ two_fields_node = OfList [na; nm] /\
    of_ na = OfElem ca /\ schema_type na = "OC_ARRAY" /\
    of_ nm = OfElem cm /\ schema_type nm = "OC_MAP" /\
    snd two_fields_run
    = app [] (app pre (app (decl_chunks na ca) (app mid (decl_chunks nm cm)))).
Proof.
  exact (proj2 (proj2 (proj2 (proj2
           (C7_declarations_follow_construction "Oc" Base64.a2b_base64 two_fields_doc
              (Some []) None None [] two_fields_node (snd two_fields_run) eq_refl))))
           eq_refl eq_refl
           (key_elem (Some "Items")) (array_elem true_elem)
           (key_elem (Some "Quirks")) (map_elem (key_elem (Some "Key")) true_elem)
           (key_elem (Some "Key")) true_elem []
           eq_refl eq_refl eq_refl eq_refl eq_refl eq_refl eq_refl).
Defined.

(** ** Each declaration once *)

Section OcSchemaElement_induction.
Variable P : OcSchemaElement -> Prop.
Hypothesis step :
  forall ty nm pa sz va o dn,
    match o with
    | OfElem c => P c
    | OfList fs => Forall P fs
    | _ => True
    end ->
    P (mkOc ty nm pa sz va o dn).

Fixpoint OcSchemaElement_ind' (n : OcSchemaElement) : P n :=
  match n with
  | mkOc ty nm pa sz va o dn =>
      step ty nm pa sz va o dn
        (match o as o' return match o' with
                              | OfElem c => P c
                              | OfList fs => Forall P fs
                              | _ => True
                              end with
         | OfNone => I
         | OfElem c => OcSchemaElement_ind' c
         | OfKey _ => I
         | OfList fs =>
             (fix all (l : list OcSchemaElement) : Forall P l :=
                match l with
                | [] => Forall_nil P
                | f :: l' => Forall_cons f (OcSchemaElement_ind' f) (all l')
                end) fs
         end)
  end.
End OcSchemaElement_induction.

Definition is_define (chunk : string) : bool := Str.startswith "#define " chunk.

(** The #define lines of the output are those of the arrays and maps of the
    tree, one for each, children first. *)
Lemma define_lines_emitted n :
  filter is_define (emitted n) = map define_line (declared n).
Proof.
  induction n as [ty nm pa sz va o dn IH] using OcSchemaElement_ind'.
  destruct o as [|c|k|fs]; try reflexivity.
  - simpl emitted. simpl declared. rewrite filter_app, map_app, IH.
    f_equal. unfold decl_chunks. simpl.
    destruct (ty =? "OC_ARRAY"); reflexivity.
  - simpl emitted. simpl declared.
    induction fs as [|f fs IHfs]; [reflexivity|].
    inversion_clear IH as [|? ? Hf Hfs].
    simpl flat_map. rewrite !filter_app, map_app, Hf, (IHfs Hfs).
    destruct (is_top pa); reflexivity.
Qed.

(** C5, as the code has it.  The walk only appends to the buffer, and what
    it returns and appends does not depend on what the buffer held: the
    output is a function of the document and the prefix.  Every array and map
    of the returned tree has its #define line in the output once, in the order
    of construction.  (That the identifiers differ from one another is not
    part of it.) *)
Theorem C5_declared_once_and_deterministic camel_prefix b64decode e pth key context :
  (forall h,
      parse_elem camel_prefix b64decode e pth key context h =
      (fst (parse_elem camel_prefix b64decode e pth key context []),
       app h (snd (parse_elem camel_prefix b64decode e pth key context [])))) /\
  (forall h n h',
      parse_elem camel_prefix b64decode e pth key context h = (Ok (NOc n), h') ->
      h' = app h (emitted n) /\
      filter is_define (emitted n) = map define_line (declared n)).
Proof.
  split.
  - exact (proj1 (parse_elem_ok camel_prefix b64decode e pth key context)).
  - intros h n h' E.
    destruct (parse_elem_Ok _ _ _ _ _ _ _ _ _ E) as (_ & _ & _ & _ & Hh).
    split; [exact Hh | apply define_lines_emitted].
Qed.

Lemma C5_declared_once_and_deterministic_witness :
  snd two_fields_run = app [] (emitted two_fields_node) /\
  filter is_define (emitted two_fields_node)
  = map define_line (declared two_fields_node).
Proof.
  exact (proj2 (C5_declared_once_and_deterministic "Oc" Base64.a2b_base64 two_fields_doc
                  (Some []) None None)
           [] two_fields_node (snd two_fields_run) eq_refl).
Defined.

(** An array whose template is again an array: both are walked at the path
    of the field. *)
Definition nested_arrays_doc : elem :=
  Elem "plist" [] None
    [struct_elem [key_elem (Some "Add"); array_elem (array_elem true_elem)]].

(** Two fields whose paths differ and read the same once joined. *)
Definition joined_paths_doc : elem :=
  Elem "plist" [] None
    [struct_elem
       [key_elem (Some "A_B"); array_elem true_elem;
        key_elem (Some "A"); struct_elem [key_elem (Some "B"); array_elem true_elem]]].

(** Both documents go through, and in both two arrays are declared under one
    identifier. *)
Lemma C5_counterexample :
  is_ok (fst (run "Oc" Base64.a2b_base64 nested_arrays_doc)) = true /\
  declared (result_node (fst (run "Oc" Base64.a2b_base64 nested_arrays_doc)))
  = ["OC_ADD_ARRAY"; "OC_ADD_ARRAY"] /\
  is_ok (fst (run "Oc" Base64.a2b_base64 joined_paths_doc)) = true /\
  declared (result_node (fst (run "Oc" Base64.a2b_base64 joined_paths_doc)))
  = ["OC_A_B_ARRAY"; "OC_A_B_ARRAY"] /\
  ~ NoDup (declared (result_node (fst (run "Oc" Base64.a2b_base64 nested_arrays_doc)))).
Proof.
  repeat split.
  intros H. vm_compute in H. inversion_clear H as [|? ? Hnotin _].
  apply Hnotin. now left.
Qed.

(** ** Structural checks of a struct *)

(** The key of a pair that does not walk to a key ends the loop before the
    value of the pair is looked at. *)
Lemma parse_fields_loop_not_key camel_prefix b64decode parent pth k v rest index fields h n h1 :
  parse_elem camel_prefix b64decode k pth None None h = (Ok (NOc n), h1) ->
  parse_fields_loop (parse_elem camel_prefix b64decode) parent pth (k :: v :: rest)
    index fields h =
  (UserError ("<key> required as " ++ (if (index =? 0)%nat then "first" else "every even")
              ++ " element of <" ++ tag parent ++ ">"), h1).
Proof.
  intros Ek. simpl. rewrite (bind_Ok _ _ _ _ _ Ek). cbv beta.
  destruct (parse_elem_Ok _ _ _ _ _ _ _ _ _ Ek) as (_ & _ & _ & (Hk & _) & _).
  unfold bind at 1. unfold check_key.
  change (node_schema_type (NOc n)) with (schema_type n). rewrite Hk. reflexivity.
Qed.

(** A struct with a second pair that starts with <true/> instead of a key. *)
Definition late_violation_doc (first_value : elem) : elem :=
  struct_elem [key_elem (Some "Add"); first_value; true_elem; true_elem].

(** The violation at index 2 is reported after the value at index 1 has been
    walked (the declaration of that array is in the buffer by then), and an
    error inside that value is reported in its place. *)
Lemma C8_counterexample :
  parse_elem "Oc" Base64.a2b_base64 (late_violation_doc (array_elem true_elem))
    (Some ["Kernel"]) None None []
  = (UserError "<key> required as every even element of <dict>",
     [define_line "OC_KERNEL_ADD_ARRAY";
      "  OC_ARRAY (None, _, __)" ++ nl;
      "  OC_DECLARE (OC_KERNEL_ADD_ARRAY)" ++ nl;
      nl]) /\
  parse_elem "Oc" Base64.a2b_base64 (late_violation_doc (Elem "array" [] None []))
    (Some ["Kernel"]) None None []
  = (UserError "No template for <array>", []).
Proof. split; reflexivity. Qed.

(** ** Names *)

(** C9.  Naming a schema element that has a name is an internal error, which
    is not a user error; the walk never ends in one, whatever the document;
    and the node it returns is unnamed (so the one [set_name] of the loop of
    [parse_fields] goes through), with every field below it named and every
    template unnamed. *)
Theorem C9_name_set_once camel_prefix b64decode e pth key context h :
  (forall o old s h0,
      name o = Some old ->
      set_name (NOc o) s h0
      = (InternalError "name should not get set more than once on OcSchemaElement", h0) /\
      is_user_error (fst (set_name (NOc o) s h0)) = false) /\
  is_internal_error (fst (parse_elem camel_prefix b64decode e pth key context h)) = false /\
  (forall n h',
      parse_elem camel_prefix b64decode e pth key context h = (Ok (NOc n), h') ->
      name n = None /\ names_ok n = true /\
      forall s, exists o, set_name (NOc n) (Some s) h' = (Ok o, h') /\ name o = Some s).
Proof.
  split; [|split].
  - intros o old s h0 Hn. unfold set_name. rewrite Hn. split; reflexivity.
  - exact (returns_not_internal _ _ h
             (proj2 (parse_elem_ok camel_prefix b64decode e pth key context))).
  - intros n h' E.
    destruct (parse_elem_Ok _ _ _ _ _ _ _ _ _ E) as (_ & Hn & Hok & _ & _).
    split; [exact Hn|]. split; [exact Hok|].
    intros s. unfold set_name. rewrite Hn. eexists. split; reflexivity.
Qed.

Lemma C9_name_set_once_witness :
  name two_fields_node = None /\ names_ok two_fields_node = true /\
  forall s, exists o,
    set_name (NOc two_fields_node) (Some s) (snd two_fields_run)
    = (Ok o, snd two_fields_run) /\ name o = Some s.
Proof.
  exact (proj2 (proj2
           (C9_name_set_once "Oc" Base64.a2b_base64 two_fields_doc (Some []) None None []))
           two_fields_node (snd two_fields_run) eq_refl).
Defined.

(** ** The text of a key *)

Definition empty_key_message : string :=
  "<key> tag within <dict> fields template cannot be empty, contents are used as variable name".

Lemma parse_fields_loop_empty_key camel_prefix b64decode parent pth k v rest index fields h :
  tag k = "key" -> text k = None ->
  parse_fields_loop (parse_elem camel_prefix b64decode) parent pth (k :: v :: rest)
    index fields h = (UserError empty_key_message, h).
Proof.
  intros Hk Ht. simpl.
  rewrite (bind_Ok _ _ _ _ _ (parse_elem_key_run _ _ _ _ _ _ _ Hk)). cbv beta.
  rewrite (bind_Ok _ _ _ _ _ (check_key_NKey _ _ _ _)). cbv beta.
  rewrite Ht. reflexivity.
Qed.

(** C10.  In a struct a <key> with no text ends the walk in a user error, at
    the first pair and at any later one, before the value of the pair is
    walked.  In a map the text of the key is not looked at: the walk of the
    map is the same whatever that text is, and a map whose key has no text and
    whose value is <true/> is built and declared. *)
Theorem C10_key_text camel_prefix b64decode tx attrs k v rest pth key context h :
  tag k = "key" -> Nat.even (List.length rest) = true ->
  (text k = None -> attr "type" attrs <> Some "map" ->
   parse_elem camel_prefix b64decode (Elem "dict" attrs tx (k :: v :: rest)) pth key context h
   = (UserError empty_key_message, h)) /\
  (text k = None ->
   forall parent index fields,
     parse_fields_loop (parse_elem camel_prefix b64decode) parent pth (k :: v :: rest)
       index fields h = (UserError empty_key_message, h)) /\
  (attr "type" attrs = Some "map" ->
   forall txt,
     parse_elem camel_prefix b64decode (Elem "dict" attrs tx (k :: v :: rest)) pth key context h
     = parse_elem camel_prefix b64decode
         (Elem "dict" attrs tx (Elem "key" (attrib k) txt (children k) :: v :: rest))
         pth key context h) /\
  (attr "type" attrs = Some "map" -> text k = None -> tag v = "true" ->
   forall p, extend_path pth key = Some p ->
   exists n val,
     parse_elem camel_prefix b64decode (Elem "dict" attrs tx (k :: v :: rest)) pth key context h
     = (Ok (NOc n), app h (decl_chunks n val)) /\
     schema_type n = "OC_MAP" /\ of_ n = OfElem val /\ schema_type val = "BOOLEAN").
Proof.
  intros Hk Hev.
  assert (Hmap : forall ks, attr "type" attrs = Some "map" ->
                            is_map (Elem "dict" attrs tx ks) = true).
  { intros ks Ha. unfold is_map. simpl. now rewrite Ha. }
  split; [|split; [|split]].
  - intros Ht Hnm.
    assert (Hm : is_map (Elem "dict" attrs tx (k :: v :: rest)) = false).
    { unfold is_map. simpl. destruct (attr "type" attrs) as [t|]; [|reflexivity].
      apply String.eqb_neq. intros ->. now apply Hnm. }
    rewrite (parse_elem_fields _ _ (Elem "dict" attrs tx (k :: v :: rest)) _ _ _ eq_refl Hm).
    unfold parse_fields.
    rewrite (bind_Ok _ _ _ _ _
               (init_dict_pairs (Elem "dict" attrs tx (k :: v :: rest)) _ _ _ _ _ eq_refl Hev)).
    cbv beta.
    cbn [children].
    unfold bind at 1. now rewrite parse_fields_loop_empty_key.
  - intros Ht parent index fields. now apply parse_fields_loop_empty_key.
  - intros Ha txt.
    rewrite (parse_elem_map _ _ (Elem "dict" attrs tx (k :: v :: rest)) _ _ _ eq_refl
               (Hmap _ Ha)).
    rewrite (parse_elem_map _ _
               (Elem "dict" attrs tx (Elem "key" (attrib k) txt (children k) :: v :: rest))
               _ _ _ eq_refl (Hmap _ Ha)).
    unfold parse_map.
    rewrite (bind_Ok _ _ _ _ _
               (init_dict_pairs (Elem "dict" attrs tx (k :: v :: rest)) _ _ _ _ _ eq_refl Hev)).
    rewrite (bind_Ok _ _ _ _ _
               (init_dict_pairs
                  (Elem "dict" attrs tx (Elem "key" (attrib k) txt (children k) :: v :: rest))
                  _ _ _ _ _ eq_refl Hev)).
    cbv beta. cbn [children].
    rewrite (bind_Ok _ _ _ _ _ (parse_elem_key_run _ _ k _ _ _ _ Hk)).
    rewrite (bind_Ok _ _ _ _ _
               (parse_elem_key_run _ _ (Elem "key" (attrib k) txt (children k)) _ _ _ _
                  eq_refl)).
    cbv beta.
    rewrite !(bind_Ok _ _ _ _ _ (check_key_NKey _ _ _ _)). reflexivity.
  - intros Ha Ht Hv p Hp.
    assert (Ev := parse_elem_true camel_prefix b64decode v (extend_path pth key) None
                    (Some "map") Hv).
    rewrite extend_path_None, Hp in Ev.
    assert (Ev' : parse_elem camel_prefix b64decode v (extend_path pth key) None (Some "map") h
                  = (Ok (NOc (new_OcSchemaElement "BOOLEAN" (Some p) None (Some "true")
                                OfNone None)), h)).
    { rewrite Hp, Ev. reflexivity. }
    rewrite (parse_map_run _ _ (Elem "dict" attrs tx (k :: v :: rest)) _ _ _ _ _ _ _ _ _
               eq_refl (Hmap _ Ha) eq_refl Hev Hk Ev').
    rewrite Hp. simpl String.eqb. cbv iota.
    rewrite (bind_Ok _ _ _ _ _ (emit_map_run _ _ _ _)).
    eexists. eexists. split; [reflexivity|]. repeat split.
Qed.

(** A struct and a map, each with the one pair of a key without text and
    <true/>. *)
Lemma C10_key_text_witness :
  parse_elem "Oc" Base64.a2b_base64 (struct_elem [key_elem None; true_elem])
    (Some ["Misc"]) None None [] = (UserError empty_key_message, []) /\
  exists n val,
    parse_elem "Oc" Base64.a2b_base64 (map_elem (key_elem None) true_elem)
      (Some ["Misc"]) None None [] = (Ok (NOc n), app [] (decl_chunks n val)) /\
    schema_type n = "OC_MAP" /\ of_ n = OfElem val /\ schema_type val = "BOOLEAN".
Proof.
  split.
  - apply (proj1 (C10_key_text "Oc" Base64.a2b_base64 None [] (key_elem None) true_elem []
                    (Some ["Misc"]) None None [] eq_refl eq_refl)).
    + reflexivity.
    + discriminate.
  - exact (proj2 (proj2 (proj2
             (C10_key_text "Oc" Base64.a2b_base64 None [("type", "map")] (key_elem None)
                true_elem [] (Some ["Misc"]) None None [] eq_refl eq_refl)))
             eq_refl eq_refl eq_refl ["Misc"] eq_refl).
Defined.

(** * Further properties of the walk *)

(** ** Arrays and maps read their template only *)

(** An array is built from its first child alone: its attributes, its text
    and its other children play no part; with no child at all it is a user
    error and nothing is printed. *)
Theorem array_reads_first_child_only camel_prefix b64decode attrs tx c cs pth key context h :
  parse_elem camel_prefix b64decode (Elem "array" attrs tx (c :: cs)) pth key context h
  = parse_elem camel_prefix b64decode (array_elem c) pth key context h /\
  parse_elem camel_prefix b64decode (Elem "array" attrs tx []) pth key context h
  = (UserError "No template for <array>", h).
Proof.
  split.
  - rewrite (parse_elem_array _ _ (Elem "array" attrs tx (c :: cs)) _ _ _ eq_refl).
    rewrite (parse_elem_array _ _ (array_elem c) _ _ _ eq_refl). reflexivity.
  - rewrite (parse_elem_array _ _ (Elem "array" attrs tx []) _ _ _ eq_refl). reflexivity.
Qed.

(** A map is built from its first pair alone, as long as its children come
    in pairs: the pairs after the first are not walked, whatever they are. *)
Theorem map_reads_first_pair_only camel_prefix b64decode attrs tx k v rest pth key context h :
  attr "type" attrs = Some "map" -> Nat.even (List.length rest) = true ->
  parse_elem camel_prefix b64decode (Elem "dict" attrs tx (k :: v :: rest)) pth key context h
  = parse_elem camel_prefix b64decode (map_elem k v) pth key context h.
Proof.
  intros Ha Hev.
  assert (Hm : is_map (Elem "dict" attrs tx (k :: v :: rest)) = true).
  { unfold is_map. simpl. now rewrite Ha. }
  rewrite (parse_elem_map _ _ (Elem "dict" attrs tx (k :: v :: rest)) _ _ _ eq_refl Hm).
  rewrite (parse_elem_map _ _ (map_elem k v) _ _ _ eq_refl eq_refl).
  unfold parse_map.
  rewrite (bind_Ok _ _ _ _ _
             (init_dict_pairs (Elem "dict" attrs tx (k :: v :: rest)) true k v rest h
                eq_refl Hev)).
  rewrite (bind_Ok _ _ _ _ _
             (init_dict_pairs (map_elem k v) true k v [] h eq_refl eq_refl)).
  reflexivity.
Qed.

(** Two pairs after the first, the second of them with an array that has no
    template: the map is built all the same. *)
Lemma map_reads_first_pair_only_witness :
  parse_elem "Oc" Base64.a2b_base64
    (Elem "dict" [("type", "map")] None
       [key_elem (Some "Key"); true_elem; true_elem; Elem "array" [] None []])
    (Some ["Quirks"]) None None []
  = parse_elem "Oc" Base64.a2b_base64 (map_elem (key_elem (Some "Key")) true_elem)
      (Some ["Quirks"]) None None [].
Proof.
  exact (map_reads_first_pair_only "Oc" Base64.a2b_base64 [("type", "map")] None
           (key_elem (Some "Key")) true_elem [true_elem; Elem "array" [] None []]
           (Some ["Quirks"]) None None [] eq_refl eq_refl).
Defined.

(** ** <plist> wrappers *)

(** <plist> elements around [c], one for each entry of [layers], outermost
    first, each with the attributes and the text of its entry. *)
Fixpoint wrap_plist (layers : list (list (string * string) * option string)) (c : elem)
    : elem :=
  match layers with
  | [] => c
  | (attrs, tx) :: rest => Elem "plist" attrs tx [wrap_plist rest c]
  end.

(** However deep it is wrapped in <plist> elements, and whatever attributes
    and text these carry, an element is walked as it would be without them, at
    the path extended by the key, except that the context is not handed down:
    under a wrapper an array is never an ENTRY.  A <plist> with no child, or
    with more than one, is a user error and nothing is printed. *)
Theorem plist_wrappers_are_transparent camel_prefix b64decode layer layers c attrs tx
    c1 c2 cs pth key context h :
  parse_elem camel_prefix b64decode (wrap_plist (layer :: layers) c) pth key context h
  = parse_elem camel_prefix b64decode c (extend_path pth key) None None h /\
  parse_elem camel_prefix b64decode (Elem "plist" attrs tx []) pth key context h
  = (UserError "Invalid contents for <plist>", h) /\
  parse_elem camel_prefix b64decode (Elem "plist" attrs tx (c1 :: c2 :: cs)) pth key context h
  = (UserError "Invalid contents for <plist>", h).
Proof.
  split; [|split; rewrite parse_elem_eq; reflexivity].
  revert layer pth key context.
  induction layers as [|l layers IH]; intros [la lt] pth key context.
  - rewrite parse_elem_eq. reflexivity.
  - destruct l as [a t]. rewrite parse_elem_eq.
    cbn [wrap_plist tag String.eqb Ascii.eqb Bool.eqb orb].
    cbv zeta. unfold parse_plist. cbn [children].
    change (Elem "plist" a t [wrap_plist layers c]) with (wrap_plist ((a, t) :: layers) c).
    rewrite IH. now rewrite extend_path_None.
Qed.

(** ** A <key> where a value is expected *)

(** The path segment a key stands for: its path attribute, or else its
    text. *)
Definition key_segment (k : elem) (s : string) : string :=
  match attr "path" (attrib k) with Some seg => seg | None => s end.

Lemma emit_section_name_run key h :
  emit_section_name key h = (Ok tt, app h (section_chunks (node_value key))).
Proof.
  unfold emit_section_name, bind, print. simpl. now rewrite <- !app_assoc.
Qed.

(** One turn of the loop of [parse_fields] whose key is a <key> with text
    [s]: what is left is the walk of the value at the path extended by the
    key's segment, the naming of the result, and the rest of the loop. *)
Lemma parse_fields_loop_step camel_prefix b64decode parent p k v rest index fields h s :
  tag k = "key" -> text k = Some s ->
  parse_fields_loop (parse_elem camel_prefix b64decode) parent (Some p) (k :: v :: rest)
    index fields h
  = bind (parse_elem camel_prefix b64decode v (Some p) (Some (key_segment k s)) None)
      (fun oc_child =>
         bind (set_name oc_child (Some s))
           (fun o =>
              parse_fields_loop (parse_elem camel_prefix b64decode) parent (Some p) rest
                (index + 2) (app fields [o])))
      (app h (if is_top (Some p) then section_chunks (Some s) else [])).
Proof.
  intros Hk Hs. cbn [parse_fields_loop].
  rewrite (bind_Ok _ _ _ _ _ (parse_elem_key_run _ _ _ _ _ _ _ Hk)). cbv beta.
  rewrite (bind_Ok _ _ _ _ _ (check_key_NKey _ _ _ _)). cbv beta.
  cbn [node_value new_PlistKey key_value]. rewrite Hs. cbn [is_none].
  rewrite (bind_Ok _ _ _ _ _ (eq_refl : ret tt h = (Ok tt, h))). cbv beta.
  rewrite (bind_Ok _ _ _ _ _ (eq_refl : path_segments (Some p) h = (Ok p, h))). cbv beta.
  assert (Hsec : (if (List.length p =? 0)%nat
                  then emit_section_name
                         (NKey {| key_value := Some s;
                                  key_path_spec :=
                                    match attr "path" (attrib k) with
                                    | Some _ => attr "path" (attrib k)
                                    | None => Some s
                                    end |})
                  else ret tt) h
                 = (Ok tt, app h (if is_top (Some p) then section_chunks (Some s) else []))).
  { destruct p; cbn [List.length Nat.eqb is_top].
    - now rewrite emit_section_name_run.
    - unfold ret. now rewrite app_nil_r. }
  rewrite (bind_Ok _ _ _ _ _ Hsec). cbv beta.
  unfold path_spec_of. unfold bind at 1. unfold ret at 1. cbv iota beta.
  cbn [key_path_spec]. unfold key_segment.
  destruct (attr "path" (attrib k)); reflexivity.
Qed.

(** A <key> standing as the value of a field of a struct is not reported as
    a user error: [set_name] is called on the [PlistKey] it is parsed to, and
    the run dies of the missing attribute, after the section comment when the
    struct is the top one. *)
Theorem key_as_field_value_crashes camel_prefix b64decode parent p k v rest index fields h s :
  tag k = "key" -> text k = Some s -> tag v = "key" ->
  parse_fields_loop (parse_elem camel_prefix b64decode) parent (Some p) (k :: v :: rest)
    index fields h
  = (Crash "AttributeError",
     app h (if is_top (Some p) then section_chunks (Some s) else [])).
Proof.
  intros Hk Hs Hv. rewrite (parse_fields_loop_step _ _ _ _ _ _ _ _ _ _ _ Hk Hs).
  rewrite (bind_Ok _ _ _ _ _ (parse_elem_key_run _ _ _ _ _ _ _ Hv)). reflexivity.
Qed.

Lemma key_as_field_value_crashes_witness :
  parse_fields_loop (parse_elem "Oc" Base64.a2b_base64)
    (struct_elem [key_elem (Some "Boot"); key_elem (Some "Args")]) (Some [])
    [key_elem (Some "Boot"); key_elem (Some "Args")] 0 [] []
  = (Crash "AttributeError", app [] (section_chunks (Some "Boot"))).
Proof.
  exact (key_as_field_value_crashes "Oc" Base64.a2b_base64
           (struct_elem [key_elem (Some "Boot"); key_elem (Some "Args")]) []
           (key_elem (Some "Boot")) (key_elem (Some "Args")) [] 0 [] [] "Boot"
           eq_refl eq_refl eq_refl).
Defined.

(** A <key> standing as the template of an array, or as the value of a map,
    is not reported as a user error either: the identifier is generated, the
    #define line of the declaration is printed, and the run dies on the
    template's missing [def_name], leaving the declaration cut short. *)
Theorem key_as_template_crashes camel_prefix b64decode attrs tx k c cs rest pth key context h p :
  tag c = "key" -> extend_path pth key = Some p ->
  parse_elem camel_prefix b64decode (Elem "array" attrs tx (c :: cs)) pth key context h
  = (Crash "AttributeError",
     app h [define_line (generated_id camel_prefix p (context_type context))]) /\
  (attr "type" attrs = Some "map" -> tag k = "key" ->
   Nat.even (List.length rest) = true ->
   parse_elem camel_prefix b64decode (Elem "dict" attrs tx (k :: c :: rest)) pth key context h
   = (Crash "AttributeError", app h [define_line (generated_id camel_prefix p "MAP")])).
Proof.
  intros Hc Hp. split.
  - rewrite (parse_elem_array _ _ (Elem "array" attrs tx (c :: cs)) _ _ _ eq_refl).
    unfold parse_array. cbn [children]. rewrite Hp.
    rewrite (bind_Ok _ _ _ _ _ (parse_elem_key_run _ _ _ _ _ _ _ Hc)). cbv beta.
    unfold emit_array, upper_path, path_segments, of_def_name, bind, print, ret, raise.
    reflexivity.
  - intros Ha Hk Hev.
    assert (Hm : is_map (Elem "dict" attrs tx (k :: c :: rest)) = true).
    { unfold is_map. simpl. now rewrite Ha. }
    rewrite (parse_elem_map _ _ (Elem "dict" attrs tx (k :: c :: rest)) _ _ _ eq_refl Hm).
    unfold parse_map.
    rewrite (bind_Ok _ _ _ _ _
               (init_dict_pairs (Elem "dict" attrs tx (k :: c :: rest)) true k c rest h
                  eq_refl Hev)).
    cbv beta. cbn [children]. rewrite Hp.
    rewrite (bind_Ok _ _ _ _ _ (parse_elem_key_run _ _ _ _ _ _ _ Hk)). cbv beta.
    rewrite (bind_Ok _ _ _ _ _ (check_key_NKey _ _ _ _)). cbv beta.
    rewrite (bind_Ok _ _ _ _ _ (parse_elem_key_run _ _ _ _ _ _ _ Hc)). cbv beta.
    unfold emit_map, upper_path, path_segments, of_def_name, bind, print, ret, raise.
    reflexivity.
Qed.

Lemma key_as_template_crashes_witness :
  parse_elem "Oc" Base64.a2b_base64 (array_elem (key_elem (Some "Name")))
    (Some []) (Some "Items") None []
  = (Crash "AttributeError", app [] [define_line "OC_ITEMS_ARRAY"]).
Proof.
  exact (proj1 (key_as_template_crashes "Oc" Base64.a2b_base64 [] None
                  (key_elem None) (key_elem (Some "Name")) [] [] (Some []) (Some "Items")
                  None [] ["Items"] eq_refl eq_refl)).
Defined.

(** ** The fields of a struct follow its keys *)

(** The keys of the pairs of a list of children. *)
Fixpoint pair_keys (cs : list elem) : list elem :=
  match cs with
  | k :: _ :: rest => k :: pair_keys rest
  | _ => []
  end.

(** The segment a key adds to the path of its value. *)
Definition key_path_segment (k : elem) : option string :=
  match attr "path" (attrib k) with Some seg => Some seg | None => text k end.

Lemma fields_follow_keys_loop camel_prefix b64decode parent p cs :
  Forall (fun k => tag k = "key") (pair_keys cs) ->
  forall index fields h fs h',
    parse_fields_loop (parse_elem camel_prefix b64decode) parent (Some p) cs index fields h
    = (Ok fs, h') ->
    exists new,
      fs = app fields new /\
      map name new = map text (pair_keys cs) /\
      map path new = map (fun k => extend_path (Some p) (key_path_segment k)) (pair_keys cs).
Proof.
  induction cs as [| x | k v rest IH] using list_pair_ind; intros Hkeys index fields h fs h' E.
  - injection E as <- _. exists []. now rewrite app_nil_r.
  - injection E as <- _. exists []. now rewrite app_nil_r.
  - cbn [pair_keys] in Hkeys. inversion_clear Hkeys as [|? ? Hk Hrest].
    destruct (text k) as [s|] eqn:Hs.
    2:{ rewrite (parse_fields_loop_empty_key _ _ _ _ _ _ _ _ _ _ Hk Hs) in E. discriminate. }
    rewrite (parse_fields_loop_step _ _ _ _ _ _ _ _ _ _ _ Hk Hs) in E.
    apply bind_Ok_inv in E. destruct E as (oc_child & h1 & Ev & E).
    apply bind_Ok_inv in E. destruct E as (o & h2 & Esn & E).
    destruct oc_child as [kk|child]; [discriminate Esn|].
    destruct (parse_elem_Ok _ _ _ _ _ _ _ _ _ Ev) as (Hp & Hn & _).
    unfold set_name in Esn. rewrite Hn in Esn. injection Esn as <- <-.
    destruct (IH Hrest _ _ _ _ _ E) as (new & -> & Hnames & Hpaths).
    eexists (_ :: new). split; [now rewrite <- app_assoc|].
    cbn [pair_keys map name path]. rewrite Hnames, Hpaths, Hs, Hp.
    split; [reflexivity|]. f_equal.
    unfold key_path_segment, key_segment. rewrite Hs.
    destruct (attr "path" (attrib k)); reflexivity.
Qed.

(** The fields of a struct that was built stand in the order of its keys;
    each carries the text of its key as its name, and as its path the path of
    the struct extended by the key's path attribute when it has one, by the
    key's text otherwise.  The name never comes from the path attribute. *)
Theorem struct_fields_follow_keys camel_prefix b64decode e pth key context h n h' p :
  tag e = "dict" -> is_map e = false ->
  Forall (fun k => tag k = "key") (pair_keys (children e)) ->
  extend_path pth key = Some p ->
  parse_elem camel_prefix b64decode e pth key context h = (Ok (NOc n), h') ->
  exists fs,
    of_ n = OfList fs /\
    map name fs = map text (pair_keys (children e)) /\
    map path fs
    = map (fun k => extend_path (Some p) (key_path_segment k)) (pair_keys (children e)) /\
    2 * List.length fs = List.length (children e).
Proof.
  intros Ht Hm Hkeys Hp E.
  destruct (parse_fields_Ok _ _ _ _ _ _ _ _ _ Ht Hm E) as (fs & -> & El & _ & Hev).
  rewrite Hp in El.
  destruct (fields_follow_keys_loop _ _ _ _ _ Hkeys _ _ _ _ _ El) as (new & -> & Hn & Hpa).
  exists new. split; [reflexivity|]. split; [exact Hn|]. split; [exact Hpa|].
  apply (f_equal (@List.length _)) in Hn. rewrite !length_map in Hn. rewrite Hn.
  clear - Hev. revert Hev.
  induction (children e) as [| x | k v rest IH] using list_pair_ind; intros Hev.
  - reflexivity.
  - discriminate Hev.
  - cbn [pair_keys List.length]. cbn [List.length] in Hev.
    change (Nat.even (S (S (List.length rest)))) with (Nat.even (List.length rest)) in Hev.
    specialize (IH Hev). lia.
Qed.

Definition renamed_key_doc : elem :=
  struct_elem
    [Elem "key" [("path", "Smbios")] (Some "PlatformInfo") []; array_elem true_elem;
     key_elem (Some "Enabled"); true_elem].

Lemma struct_fields_follow_keys_witness :
  exists fs,
    of_ (result_node (fst (parse_elem "Oc" Base64.a2b_base64 renamed_key_doc (Some ["Misc"])
                             None None []))) = OfList fs /\
    map name fs = [Some "PlatformInfo"; Some "Enabled"] /\
    map path fs = [Some ["Misc"; "Smbios"]; Some ["Misc"; "Enabled"]] /\
    2 * List.length fs = 4.
Proof.
  exact (struct_fields_follow_keys "Oc" Base64.a2b_base64 renamed_key_doc (Some ["Misc"])
           None None []
           (result_node (fst (parse_elem "Oc" Base64.a2b_base64 renamed_key_doc
                                (Some ["Misc"]) None None [])))
           _ ["Misc"] eq_refl eq_refl
           (Forall_cons (Elem "key" [("path", "Smbios")] (Some "PlatformInfo") []) eq_refl
              (Forall_cons (key_elem (Some "Enabled")) eq_refl (Forall_nil _)))
           eq_refl eq_refl).
Defined.

(** ** What a declaration refers to *)

(** Elements whose schema element has no [def_name]: booleans, integers,
    data and structs. *)
Definition unnamed_kind (c : elem) : bool :=
  String.eqb (tag c) "true" || String.eqb (tag c) "false" ||
  String.eqb (tag c) "integer" || String.eqb (tag c) "data" ||
  (String.eqb (tag c) "dict" && negb (is_map c)).

(** What [parse_data] returns is a leaf with no [def_name], and it prints
    nothing. *)
Lemma parse_data_Ok b64decode e pth h r h' :
  parse_data b64decode e pth h = (Ok r, h') ->
  h' = h /\ exists ty sz va, r = NOc (new_OcSchemaElement ty pth sz va OfNone None).
Proof.
  unfold parse_data. intros E.
  apply bind_Ok_inv in E. destruct E as (data_bytes & h1 & E1 & E).
  assert (h1 = h) as ->.
  { destruct (text e) as [d|]; [destruct (b64decode d)|]; try discriminate E1;
      now injection E1. }
  destruct (match data_bytes with Some _ => _ | None => _ end) as [st sz].
  apply bind_Ok_inv in E. destruct E as (ty & h2 & E2 & E).
  assert (h2 = h) as ->.
  { destruct st as [t|]; [destruct (_ && _)|]; try discriminate E2; now injection E2. }
  injection E as <- <-. split; [reflexivity|]. eauto.
Qed.

Lemma unnamed_kind_def_name camel_prefix b64decode c pth key context h n h' :
  unnamed_kind c = true ->
  parse_elem camel_prefix b64decode c pth key context h = (Ok (NOc n), h') ->
  def_name n = None.
Proof.
  unfold unnamed_kind. intros Hu E.
  destruct (String.eqb_spec (tag c) "dict") as [Ht|Ht].
  - rewrite Ht in Hu. simpl in Hu. apply negb_true_iff in Hu.
    destruct (parse_fields_Ok _ _ _ _ _ _ _ _ _ Ht Hu E) as (fs & -> & _). reflexivity.
  - cbn [andb] in Hu. rewrite orb_false_r in Hu.
    rewrite parse_elem_eq in E. cbv zeta in E.
    destruct (String.eqb_spec (tag c) "key") as [Hk|_]; [discriminate E|].
    destruct (String.eqb_spec (tag c) "true") as [_|_];
      [injection E as <- _; reflexivity|].
    destruct (String.eqb_spec (tag c) "false") as [_|_];
      [injection E as <- _; reflexivity|].
    cbn [orb] in E, Hu.
    destruct (String.eqb_spec (tag c) "string") as [H3|_].
    { rewrite H3 in Hu. discriminate Hu. }
    destruct (String.eqb_spec (tag c) "integer") as [_|_];
      [injection E as <- _; reflexivity|].
    cbn [orb] in Hu. rewrite Hu in E.
    destruct (parse_data_Ok _ _ _ _ _ _ E) as (_ & ty & sz & va & Hr).
    injection Hr as ->. reflexivity.
Qed.

(** The declaration of an array or a map names the [def_name] of its
    template.  A string has one (OC_STRING); a boolean, an integer, a data
    element and a struct have none, and the declaration then reads None where
    the type of the template should stand. *)
Theorem declaration_names_template camel_prefix b64decode e pth key context h n h' :
  parse_elem camel_prefix b64decode e pth key context h = (Ok (NOc n), h') ->
  (forall c cs, tag e = "array" -> children e = c :: cs ->
     exists t, of_ n = OfElem t /\
       h' = app h (app (emitted t) (decl_chunks n t)) /\
       nth 1 (decl_chunks n t) "" = ("  OC_ARRAY (" ++ fmt (def_name t) ++ ", _, __)") ++ nl /\
       (tag c = "string" -> def_name t = Some "OC_STRING") /\
       (unnamed_kind c = true ->
        nth 1 (decl_chunks n t) "" = "  OC_ARRAY (None, _, __)" ++ nl)) /\
  (forall k v rest, tag e = "dict" -> is_map e = true -> children e = k :: v :: rest ->
     schema_type n = "OC_MAP" ->
     exists t, of_ n = OfElem t /\
       h' = app h (app (emitted t) (decl_chunks n t)) /\
       nth 1 (decl_chunks n t) ""
       = ("  OC_MAP (OC_STRING, " ++ fmt (def_name t) ++ ", _, __)") ++ nl /\
       (tag v = "string" -> def_name t = Some "OC_STRING") /\
       (unnamed_kind v = true ->
        nth 1 (decl_chunks n t) "" = "  OC_MAP (OC_STRING, None, _, __)" ++ nl)).
Proof.
  intros E. split.
  - intros c cs Ht Hc.
    destruct (parse_array_Ok _ _ _ _ _ _ _ _ _ Ht E)
      as (c' & cs' & t & p & Hc' & Hp & Et & _ & -> & ->).
    rewrite Hc in Hc'. injection Hc' as <- <-.
    exists t. split; [reflexivity|]. split; [now rewrite <- app_assoc|].
    split; [reflexivity|]. split.
    + intros Hs. rewrite parse_elem_eq, Hs in Et. now injection Et as <-.
    + intros Hu. cbn [decl_chunks nth schema_type String.eqb Ascii.eqb Bool.eqb].
      cbv iota. now rewrite (unnamed_kind_def_name _ _ _ _ _ _ _ _ _ Hu Et).
  - intros k v rest Ht Hm Hc Hty.
    destruct (parse_map_Ok _ _ _ _ _ _ _ _ _ Ht Hm E)
      as (k' & v' & rest' & kk & t & Hc' & _ & Et &
          [(_ & -> & _) | (_ & p & _ & -> & ->)]); [discriminate Hty|].
    rewrite Hc in Hc'. injection Hc' as <- <- <-.
    exists t. split; [reflexivity|]. split; [now rewrite <- app_assoc|].
    split; [reflexivity|]. split.
    + intros Hs. rewrite parse_elem_eq, Hs in Et. now injection Et as <-.
    + intros Hu. cbn [decl_chunks nth schema_type String.eqb Ascii.eqb Bool.eqb].
      cbv iota. now rewrite (unnamed_kind_def_name _ _ _ _ _ _ _ _ _ Hu Et).
Qed.

(** The array of structs under "Items". *)
Lemma declaration_names_template_witness :
  exists t,
    of_ (result_node (fst (parse_elem "Oc" Base64.a2b_base64
                             (array_elem (struct_elem [key_elem (Some "Name"); true_elem]))
                             (Some []) (Some "Items") None []))) = OfElem t /\
    nth 1 (decl_chunks
             (result_node (fst (parse_elem "Oc" Base64.a2b_base64
                                  (array_elem (struct_elem [key_elem (Some "Name"); true_elem]))
                                  (Some []) (Some "Items") None []))) t) ""
    = "  OC_ARRAY (None, _, __)" ++ nl.
Proof.
  destruct (proj1 (declaration_names_template "Oc" Base64.a2b_base64
                     (array_elem (struct_elem [key_elem (Some "Name"); true_elem]))
                     (Some []) (Some "Items") None [] _ _ eq_refl)
              (struct_elem [key_elem (Some "Name"); true_elem]) [] eq_refl eq_refl)
    as (t & Hof & _ & _ & _ & Hnone).
  exists t. split; [exact Hof | exact (Hnone eq_refl)].
Defined.

(** ** When a <data> element is refused *)

(** The literal is there and does not decode. *)
Definition undecodable (b64decode : string -> option (list byte)) (e : elem) : bool :=
  match text e with
  | Some d => is_none (b64decode d)
  | None => false
  end.

(** The type attribute is blob, and there is a size attribute or a literal
    whose length sets a size (any length but 1, 2, 4 and 8). *)
Definition sized_blob (b64decode : string -> option (list byte)) (e : elem) : bool :=
  match attr "type" (attrib e) with
  | Some t =>
      String.eqb t "blob" &&
      (negb (is_none (attr "size" (attrib e))) ||
       match text e with
       | Some d =>
           match b64decode d with
           | Some bs => negb (existsb (Nat.eqb (List.length bs)) [1; 2; 4; 8])
           | None => false
           end
       | None => false
       end)
  | None => false
  end.

(** [parse_data] has three ways out and prints nothing on any of them: it
    dies in the decoder when the literal does not decode, whatever the
    attributes are; it ends in the user error about the size of a blob exactly
    when the type attribute is blob and a size is given or set by the length
    of the literal; and it returns a schema element in every other case. *)
Theorem parse_data_outcomes b64decode e pth h :
  (undecodable b64decode e = true ->
   parse_data b64decode e pth h = (Crash "binascii.Error", h)) /\
  (undecodable b64decode e = false -> sized_blob b64decode e = true ->
   parse_data b64decode e pth h
   = (UserError ("size attribute not valid with schema_type=" ++ dq ++ "blob" ++ dq), h)) /\
  (undecodable b64decode e = false -> sized_blob b64decode e = false ->
   exists n, parse_data b64decode e pth h = (Ok (NOc n), h)).
Proof.
  unfold undecodable, sized_blob, parse_data, bind, ret, error, raise, type_from_length.
  destruct (text e) as [d|]; [destruct (b64decode d) as [bs|]|];
    destruct (attr "type" (attrib e)) as [t|];
    destruct (attr "size" (attrib e)) as [sz|];
    cbn [existsb is_none option_map];
    try destruct (t =? "blob") eqn:Ht;
    try (destruct (List.length bs =? 1)%nat; destruct (List.length bs =? 2)%nat;
         destruct (List.length bs =? 4)%nat; destruct (List.length bs =? 8)%nat);
    cbn; rewrite ?Ht; cbn;
    (split; [|split]); intros; try discriminate; try reflexivity; eauto.
Qed.

(** An explicit blob with the three bytes of ABC. *)
Lemma parse_data_outcomes_witness :
  parse_data Base64.a2b_base64 (data_elem [("type", "blob")] (Some "QUJD")) (Some ["Blob"]) []
  = (UserError ("size attribute not valid with schema_type=" ++ dq ++ "blob" ++ dq), []).
Proof.
  exact (proj1 (proj2 (parse_data_outcomes Base64.a2b_base64
                         (data_elem [("type", "blob")] (Some "QUJD")) (Some ["Blob"]) []))
           eq_refl eq_refl).
Defined.

(** ** The documents the walk accepts *)

(** The [PlistKey] an element is parsed to, if it is parsed to one: a <key>,
    or a <key> inside <plist> wrappers. *)
Fixpoint as_key (e : elem) : option PlistKey :=
  match e with
  | Elem tg attrs tx cs =>
      if String.eqb tg "key" then Some (new_PlistKey tx (attr "path" attrs))
      else if String.eqb tg "plist" then
        match cs with
        | [c] => as_key c
        | _ => None
        end
      else None
  end.

Definition has_key_text (k : elem) : bool :=
  match as_key k with
  | Some kk => negb (is_none (key_value kk))
  | None => false
  end.

(** The children of a struct: pairs of a key with text and a value that
    satisfies [wf]. *)
Fixpoint fields_ok (wf : elem -> bool) (cs : list elem) : bool :=
  match cs with
  | [] => true
  | k :: v :: rest => has_key_text k && wf v && fields_ok wf rest
  | [_] => false
  end.

Section Accepted.

Variable camel_prefix : string.
Variable b64decode : string -> option (list byte).

Local Notation "'walk'" := (parse_elem camel_prefix b64decode).

(** The elements that are built into a schema element when walked at a path:
    read off the checks of [parse_elem] and what it calls. *)
Fixpoint well_formed (e : elem) : bool :=
  match e with
  | Elem tg attrs tx cs =>
      if String.eqb tg "key" then false
      else if String.eqb tg "true" || String.eqb tg "false" then true
      else if String.eqb tg "string" then true
      else if String.eqb tg "integer" then true
      else if String.eqb tg "data" then
        negb (undecodable b64decode e) && negb (sized_blob b64decode e)
      else if String.eqb tg "array" then
        match cs with
        | c :: _ => well_formed c
        | [] => false
        end
      else if String.eqb tg "dict" then
        if is_map e then
          Nat.even (List.length cs) &&
          match cs with
          | k :: v :: _ => negb (is_none (as_key k)) && well_formed v
          | _ => false
          end
        else negb (List.length cs =? 0)%nat && fields_ok well_formed cs
      else if String.eqb tg "plist" then
        match cs with
        | [c] => well_formed c
        | _ => false
        end
      else false
  end.

Lemma well_formed_eq e :
  well_formed e =
  if String.eqb (tag e) "key" then false
  else if String.eqb (tag e) "true" || String.eqb (tag e) "false" then true
  else if String.eqb (tag e) "string" then true
  else if String.eqb (tag e) "integer" then true
  else if String.eqb (tag e) "data" then
    negb (undecodable b64decode e) && negb (sized_blob b64decode e)
  else if String.eqb (tag e) "array" then
    match children e with
    | c :: _ => well_formed c
    | [] => false
    end
  else if String.eqb (tag e) "dict" then
    if is_map e then
      Nat.even (List.length (children e)) &&
      match children e with
      | k :: v :: _ => negb (is_none (as_key k)) && well_formed v
      | _ => false
      end
    else negb (List.length (children e) =? 0)%nat && fields_ok well_formed (children e)
  else if String.eqb (tag e) "plist" then
    match children e with
    | [c] => well_formed c
    | _ => false
    end
  else false.
Proof. destruct e. reflexivity. Qed.

Lemma as_key_eq e :
  as_key e =
  if String.eqb (tag e) "key" then Some (new_PlistKey (text e) (attr "path" (attrib e)))
  else if String.eqb (tag e) "plist" then
    match children e with
    | [c] => as_key c
    | _ => None
    end
  else None.
Proof. destruct e. reflexivity. Qed.

Lemma bind_not_ok {A B} (m : M A) (f : A -> M B) h :
  is_ok (fst (m h)) = false -> is_ok (fst (bind m f h)) = false.
Proof.
  unfold bind. destruct (m h) as [[a | msg | msg | exc] h1]; simpl; auto. discriminate.
Qed.

(** What the walk of one element does, by what the element is. *)
Definition classified (e : elem) : Prop :=
  forall p key context h,
    (well_formed e = true ->
     exists n, walk e (Some p) key context h = (Ok (NOc n), app h (emitted n))) /\
    (forall kk, as_key e = Some kk -> walk e (Some p) key context h = (Ok (NKey kk), h)) /\
    (well_formed e = false -> as_key e = None ->
     is_ok (fst (walk e (Some p) key context h)) = false).

Lemma set_name_run n s h :
  name n = None ->
  set_name (NOc n) s h
  = (Ok (mkOc (schema_type n) s (path n) (size n) (value n) (of_ n) (def_name n)), h).
Proof. intros Hn. unfold set_name. now rewrite Hn. Qed.

(** One turn of the loop of [parse_fields] once its key has been parsed. *)
Lemma parse_fields_loop_keyed parent p k v rest index fields h kk :
  walk k (Some p) None None h = (Ok (NKey kk), h) ->
  parse_fields_loop walk parent (Some p) (k :: v :: rest) index fields h
  = match key_value kk with
    | None => (UserError empty_key_message, h)
    | Some s =>
        bind (walk v (Some p) (key_path_spec kk) None)
          (fun oc_child =>
             bind (set_name oc_child (Some s))
               (fun o =>
                  parse_fields_loop walk parent (Some p) rest (index + 2) (app fields [o])))
          (app h (if is_top (Some p) then section_chunks (Some s) else []))
    end.
Proof.
  intros Ek. cbn [parse_fields_loop].
  rewrite (bind_Ok _ _ _ _ _ Ek). cbv beta.
  rewrite (bind_Ok _ _ _ _ _ (check_key_NKey _ _ _ _)). cbv beta.
  cbn [node_value]. destruct (key_value kk) as [s|] eqn:Hs; cbn [is_none];
    [|reflexivity].
  rewrite (bind_Ok _ _ _ _ _ (eq_refl : ret tt h = (Ok tt, h))). cbv beta.
  rewrite (bind_Ok _ _ _ _ _ (eq_refl : path_segments (Some p) h = (Ok p, h))). cbv beta.
  assert (Hsec : (if (List.length p =? 0)%nat then emit_section_name (NKey kk) else ret tt) h
                 = (Ok tt, app h (if is_top (Some p) then section_chunks (Some s) else []))).
  { destruct p; cbn [List.length Nat.eqb is_top].
    - rewrite emit_section_name_run. cbn [node_value]. now rewrite Hs.
    - unfold ret. now rewrite app_nil_r. }
  rewrite (bind_Ok _ _ _ _ _ Hsec). cbv beta.
  unfold path_spec_of. unfold bind at 1. unfold ret at 1. reflexivity.
Qed.

Lemma fields_ok_even wf cs : fields_ok wf cs = true -> Nat.even (List.length cs) = true.
Proof.
  induction cs as [| x | k v rest IH] using list_pair_ind; intros H.
  - reflexivity.
  - discriminate H.
  - cbn [fields_ok] in H. apply andb_prop in H. destruct H as [_ H].
    exact (IH H).
Qed.

Lemma walk_Ok_emitted e p key context h n h' :
  walk e p key context h = (Ok (NOc n), h') -> h' = app h (emitted n).
Proof. intros E. now destruct (parse_elem_Ok _ _ _ _ _ _ _ _ _ E) as (_ & _ & _ & _ & ?). Qed.

(** The loop of [parse_fields] over children that are classified. *)
Lemma classified_loop parent p cs :
  Forall classified cs -> Nat.even (List.length cs) = true ->
  forall index fields h,
    (fields_ok well_formed cs = true ->
     exists fs h', parse_fields_loop walk parent (Some p) cs index fields h = (Ok fs, h')) /\
    (fields_ok well_formed cs = false ->
     is_ok (fst (parse_fields_loop walk parent (Some p) cs index fields h)) = false).
Proof.
  induction cs as [| x | k v rest IH] using list_pair_ind; intros Hcs Hev index fields h.
  - split; [intros _; eexists; eexists; reflexivity | discriminate].
  - discriminate Hev.
  - inversion_clear Hcs as [|? ? Hk Hcs']. inversion_clear Hcs' as [|? ? Hv Hrest].
    change (Nat.even (List.length rest) = true) in Hev.
    specialize (IH Hrest Hev).
    destruct (Hk p None None h) as (Hk1 & Hk2 & Hk3).
    cbn [fields_ok]. unfold has_key_text.
    destruct (as_key k) as [kk|] eqn:Hak.
    + rewrite (parse_fields_loop_keyed _ _ _ _ _ _ _ _ _ (Hk2 kk eq_refl)).
      destruct (key_value kk) as [s|]; cbn [is_none negb andb];
        [|split; [discriminate | reflexivity]].
      set (h1 := app h (if is_top (Some p) then section_chunks (Some s) else [])).
      destruct (Hv p (key_path_spec kk) None h1) as (Hv1 & Hv2 & Hv3).
      destruct (well_formed v) eqn:Hwv; cbn [andb].
      * destruct (Hv1 eq_refl) as (n & Ev).
        rewrite (bind_Ok _ _ _ _ _ Ev). cbv beta.
        destruct (parse_elem_Ok _ _ _ _ _ _ _ _ _ Ev) as (_ & Hn & _).
        rewrite (bind_Ok _ _ _ _ _ (set_name_run _ (Some s) _ Hn)). cbv beta.
        apply IH.
      * split; [discriminate|]. intros _.
        destruct (as_key v) as [kv|] eqn:Hav.
        -- rewrite (bind_Ok _ _ _ _ _ (Hv2 kv eq_refl)). reflexivity.
        -- apply bind_not_ok. now apply Hv3.
    + cbn [andb]. split; [discriminate|]. intros _.
      destruct (well_formed k) eqn:Hwk.
      * destruct (Hk1 eq_refl) as (n & Ek).
        now rewrite (parse_fields_loop_not_key _ _ _ _ _ _ _ _ _ _ _ _ Ek).
      * cbn [parse_fields_loop]. apply bind_not_ok. now apply Hk3.
Qed.

Lemma init_dict_not_ok e map h :
  children e = [] \/ Nat.even (List.length (children e)) = false ->
  is_ok (fst (init_dict e map h)) = false.
Proof.
  unfold init_dict. intros [-> | Hodd]; [reflexivity|].
  destruct (List.length (children e) =? 0)%nat; [reflexivity|].
  replace (List.length (children e) mod 2 =? 0)%nat with false; [reflexivity|].
  symmetry. apply Nat.eqb_neq. intros Hmod.
  apply Nat.Div0.mod_divides in Hmod. destruct Hmod as [q Hq].
  rewrite Hq, Nat.even_mul in Hodd. discriminate Hodd.
Qed.

Lemma emit_array_not_ok kk p context h :
  is_ok (fst (emit_array camel_prefix
                (new_OcSchemaElement "OC_ARRAY" (Some p) None None (OfKey kk) None)
                context h)) = false.
Proof. reflexivity. Qed.

Lemma emit_map_not_ok kk p h :
  is_ok (fst (emit_map camel_prefix
                (new_OcSchemaElement "OC_MAP" (Some p) None None (OfKey kk) None) h)) = false.
Proof. reflexivity. Qed.

Lemma extend_path_Some p key : exists q, extend_path (Some p) key = Some q.
Proof. destruct key; eexists; reflexivity. Qed.

(** Every element is classified. *)
Lemma walk_classified e : classified e.
Proof.
  induction e as [tg attrs tx cs IH] using elem_ind'.
  intros p key context h.
  set (e := Elem tg attrs tx cs). change cs with (children e) in IH.
  destruct (extend_path_Some p key) as (q & Hq).
  remember (walk e (Some p) key context h) as r eqn:Er.
  assert (Hfinish : forall n h',
             r = (Ok (NOc n), h') -> exists n, r = (Ok (NOc n), app h (emitted n))).
  { intros n h' E. exists n. rewrite E. rewrite E in Er. symmetry in Er.
    now rewrite (walk_Ok_emitted _ _ _ _ _ _ _ Er). }
  rewrite well_formed_eq, as_key_eq.
  destruct (String.eqb_spec (tag e) "key") as [Ht|Nkey].
  { rewrite (parse_elem_key _ _ _ _ _ _ Ht) in Er. subst r.
    split; [discriminate|]. split; [|discriminate].
    intros kk H. injection H as <-. reflexivity. }
  destruct (String.eqb_spec (tag e) "true") as [Ht|Ntrue].
  { rewrite Ht. cbn [orb String.eqb Ascii.eqb Bool.eqb].
    split; [|split; discriminate]. intros _.
    rewrite parse_elem_eq, Ht in Er. eapply Hfinish. exact Er. }
  destruct (String.eqb_spec (tag e) "false") as [Ht|Nfalse].
  { rewrite Ht. cbn [orb String.eqb Ascii.eqb Bool.eqb].
    split; [|split; discriminate]. intros _.
    rewrite parse_elem_eq, Ht in Er. eapply Hfinish. exact Er. }
  cbn [orb].
  destruct (String.eqb_spec (tag e) "string") as [Ht|Nstring].
  { rewrite Ht. cbn [String.eqb Ascii.eqb Bool.eqb].
    split; [|split; discriminate]. intros _.
    rewrite parse_elem_eq, Ht in Er. eapply Hfinish. exact Er. }
  destruct (String.eqb_spec (tag e) "integer") as [Ht|Ninteger].
  { rewrite Ht. cbn [String.eqb Ascii.eqb Bool.eqb].
    split; [|split; discriminate]. intros _.
    rewrite parse_elem_eq, Ht in Er. eapply Hfinish. exact Er. }
  destruct (String.eqb_spec (tag e) "data") as [Ht|Ndata].
  { rewrite Ht. cbn [String.eqb Ascii.eqb Bool.eqb].
    rewrite (parse_elem_data _ _ _ _ _ _ Ht), Hq in Er.
    destruct (parse_data_outcomes b64decode e (Some q) h) as (Hu & Hs & Hok).
    split; [|split; [discriminate|]].
    - intros Hwf. apply andb_prop in Hwf. destruct Hwf as [H1 H2].
      apply negb_true_iff in H1, H2. destruct (Hok H1 H2) as (n & E).
      rewrite E in Er. eapply Hfinish. exact Er.
    - intros Hwf _. apply andb_false_iff in Hwf. subst r.
      destruct (undecodable b64decode e) eqn:H1.
      + now rewrite (Hu eq_refl).
      + destruct Hwf as [Hwf|Hwf]; [discriminate Hwf|].
        apply negb_false_iff in Hwf. now rewrite (Hs eq_refl Hwf). }
  destruct (String.eqb_spec (tag e) "array") as [Ht|Narray].
  { rewrite Ht. cbn [String.eqb Ascii.eqb Bool.eqb].
    rewrite (parse_elem_array _ _ _ _ _ _ Ht), Hq in Er. unfold parse_array in Er.
    destruct (children e) as [|c cs'].
    { subst r. split; [discriminate | split; [discriminate|reflexivity]]. }
    inversion_clear IH as [|? ? Hc _].
    destruct (Hc q None None h) as (Hc1 & Hc2 & Hc3).
    split; [|split; [discriminate|]].
    - intros Hwf. destruct (Hc1 Hwf) as (n & Ec).
      rewrite (bind_Ok _ _ _ _ _ Ec) in Er. cbn [of_node] in Er.
      rewrite (bind_Ok _ _ _ _ _ (emit_array_run _ _ _ _ _)) in Er.
      eapply Hfinish. exact Er.
    - intros Hwf _. subst r. destruct (as_key c) as [kk|] eqn:Hak.
      + rewrite (bind_Ok _ _ _ _ _ (Hc2 kk eq_refl)). cbn [of_node].
        apply bind_not_ok. apply emit_array_not_ok.
      + apply bind_not_ok. now apply Hc3. }
  destruct (String.eqb_spec (tag e) "dict") as [Ht|Ndict].
  { rewrite Ht. cbn [String.eqb Ascii.eqb Bool.eqb].
    destruct (is_map e) eqn:Hm.
    - (* map *)
      rewrite (parse_elem_map _ _ _ _ _ _ Ht Hm), Hq in Er. unfold parse_map in Er.
      destruct (Nat.even (List.length (children e))) eqn:Hev; cbn [andb].
      2:{ subst r. split; [discriminate | split; [discriminate|]]. intros _ _.
          apply bind_not_ok. apply init_dict_not_ok. now right. }
      destruct (children e) as [|k [|v rest]] eqn:Hcs.
      { subst r. split; [discriminate | split; [discriminate|]]. intros _ _.
        apply bind_not_ok. apply init_dict_not_ok. now left. }
      { discriminate Hev. }
      rewrite (bind_Ok _ _ _ _ _ (init_dict_pairs e true k v rest h Hcs Hev)) in Er.
      cbv beta in Er.
      inversion_clear IH as [|? ? Hk IH']. inversion_clear IH' as [|? ? Hv _].
      destruct (Hk q None None h) as (Hk1 & Hk2 & Hk3).
      destruct (Hv q None (Some "map") h) as (Hv1 & Hv2 & Hv3).
      destruct (as_key k) as [kk|] eqn:Hak; cbn [is_none negb andb].
      + rewrite (bind_Ok _ _ _ _ _ (Hk2 kk eq_refl)) in Er. cbv beta in Er.
        rewrite (bind_Ok _ _ _ _ _ (check_key_NKey _ _ _ _)) in Er. cbv beta in Er.
        split; [|split; [discriminate|]].
        * intros Hwf. destruct (Hv1 Hwf) as (n & Ev).
          rewrite (bind_Ok _ _ _ _ _ Ev) in Er. cbv beta in Er.
          cbn [node_schema_type of_node] in Er.
          destruct (schema_type n =? "OC_DATA").
          -- eapply Hfinish. exact Er.
          -- rewrite (bind_Ok _ _ _ _ _ (emit_map_run _ _ _ _)) in Er.
             eapply Hfinish. exact Er.
        * intros Hwf _. subst r. destruct (as_key v) as [kv|] eqn:Hav.
          -- rewrite (bind_Ok _ _ _ _ _ (Hv2 kv eq_refl)). cbv beta.
             cbn [node_schema_type of_node String.eqb Ascii.eqb Bool.eqb].
             apply bind_not_ok. apply emit_map_not_ok.
          -- apply bind_not_ok. now apply Hv3.
      + split; [discriminate | split; [discriminate|]]. intros _ _. subst r.
        destruct (well_formed k) eqn:Hwk.
        * destruct (Hk1 eq_refl) as (n & Ek).
          rewrite (bind_Ok _ _ _ _ _ Ek). cbv beta.
          destruct (parse_elem_Ok _ _ _ _ _ _ _ _ _ Ek) as (_ & _ & _ & (Hnk & _) & _).
          apply bind_not_ok. unfold check_key.
          change (node_schema_type (NOc n)) with (schema_type n). now rewrite Hnk.
        * apply bind_not_ok. now apply Hk3.
    - (* struct *)
      rewrite (parse_elem_fields _ _ _ _ _ _ Ht Hm), Hq in Er. unfold parse_fields in Er.
      destruct (Nat.even (List.length (children e))) eqn:Hev.
      2:{ subst r. split; [|split; [discriminate|]].
          - intros Hwf. apply andb_prop in Hwf. destruct Hwf as [_ Hwf].
            apply fields_ok_even in Hwf. congruence.
          - intros _ _. apply bind_not_ok. apply init_dict_not_ok. now right. }
      destruct (children e) as [|k [|v rest]] eqn:Hcs.
      { subst r. split; [discriminate | split; [discriminate|]]. intros _ _.
        apply bind_not_ok. apply init_dict_not_ok. now left. }
      { discriminate Hev. }
      rewrite (bind_Ok _ _ _ _ _ (init_dict_pairs e false k v rest h Hcs Hev)) in Er.
      cbv beta in Er.
      change (negb (List.length (k :: v :: rest) =? 0)%nat) with true. cbn [andb].
      destruct (classified_loop e q (k :: v :: rest) IH Hev 0 [] h) as (Hl1 & Hl2).
      split; [|split; [discriminate|]].
      + intros Hwf. destruct (Hl1 Hwf) as (fs & h' & El).
        rewrite (bind_Ok _ _ _ _ _ El) in Er. eapply Hfinish. exact Er.
      + intros Hwf _. subst r. apply bind_not_ok. now apply Hl2. }
  destruct (String.eqb_spec (tag e) "plist") as [Ht|Hnp].
  { rewrite parse_elem_eq, Ht in Er.
    cbn [String.eqb Ascii.eqb Bool.eqb orb] in Er. cbv zeta in Er.
    unfold parse_plist in Er. rewrite Hq in Er.
    destruct (children e) as [|c [|c' cs']].
    - subst r. split; [discriminate | split; [discriminate|reflexivity]].
    - inversion_clear IH as [|? ? Hc _]. subst r. apply (Hc q None None h).
    - subst r. split; [discriminate | split; [discriminate|reflexivity]]. }
  split; [discriminate | split; [discriminate|]]. intros _ _.
  rewrite parse_elem_eq in Er. cbv zeta in Er.
  apply String.eqb_neq in Nkey, Ntrue, Nfalse, Nstring, Ninteger, Ndata, Narray, Ndict, Hnp.
  rewrite Nkey, Ntrue, Nfalse, Nstring, Ninteger, Ndata, Narray, Ndict, Hnp in Er.
  subst r. reflexivity.
Qed.

End Accepted.

(** The walk of an element at a path goes through exactly when the element is
    well formed or is parsed to a key.  A well-formed element is built into a
    schema element, and the buffer grows by what that element has printed; an
    element parsed to a key is returned as that key and prints nothing; every
    other element ends the run. *)
Theorem walk_accepts_well_formed camel_prefix b64decode e p key context h :
  is_ok (fst (parse_elem camel_prefix b64decode e (Some p) key context h))
  = well_formed b64decode e || negb (is_none (as_key e)) /\
  (well_formed b64decode e = true ->
   exists n,
     parse_elem camel_prefix b64decode e (Some p) key context h
     = (Ok (NOc n), app h (emitted n))) /\
  (forall kk, as_key e = Some kk ->
   parse_elem camel_prefix b64decode e (Some p) key context h = (Ok (NKey kk), h)).
Proof.
  destruct (walk_classified camel_prefix b64decode e p key context h) as (H1 & H2 & H3).
  split; [|split; assumption].
  destruct (well_formed b64decode e) eqn:Hwf.
  - destruct (H1 eq_refl) as (n & ->). reflexivity.
  - destruct (as_key e) as [kk|] eqn:Hak.
    + now rewrite (H2 kk eq_refl).
    + now rewrite (H3 eq_refl eq_refl).
Qed.

Lemma walk_accepts_well_formed_witness :
  exists n, run "Oc" Base64.a2b_base64 items_doc = (Ok (NOc n), app [] (emitted n)).
Proof.
  exact (proj1 (proj2 (walk_accepts_well_formed "Oc" Base64.a2b_base64 items_doc [] None None []))
           eq_refl).
Defined.

(** ** The checks of a struct, pair by pair *)

Lemma bind_assoc {A B C} (m : M A) (f : A -> M B) (g : B -> M C) h :
  bind (bind m f) g h = bind m (fun a => bind (f a) g) h.
Proof. unfold bind. now destruct (m h) as [[a | msg | msg | exc] h1]. Qed.

Lemma bind_ext {A B} (m : M A) (f g : A -> M B) h :
  (forall a h1, f a h1 = g a h1) -> bind m f h = bind m g h.
Proof. intros H. unfold bind. destruct (m h) as [[a | msg | msg | exc] h1]; auto. Qed.

(** The loop of [parse_fields] over pairs followed by more children is the
    loop over the pairs and then, when that has gone through, the loop over
    the rest from where it stands. *)
Lemma parse_fields_loop_app rec parent pth pre tail :
  Nat.even (List.length pre) = true ->
  forall index fields h,
    parse_fields_loop rec parent pth (app pre tail) index fields h
    = bind (parse_fields_loop rec parent pth pre index fields)
        (fun fs => parse_fields_loop rec parent pth tail (index + List.length pre) fs) h.
Proof.
  induction pre as [| x | k v pre IH] using list_pair_ind; intros Hev index fields h.
  - cbn [app parse_fields_loop List.length]. now rewrite Nat.add_0_r.
  - discriminate Hev.
  - cbn [app parse_fields_loop].
    repeat (rewrite bind_assoc; apply bind_ext; intros).
    rewrite (IH Hev). cbn [List.length].
    now replace (index + 2 + List.length pre) with (index + S (S (List.length pre))) by lia.
Qed.

Lemma even_app_pairs {A} (pre tail : list A) :
  Nat.even (List.length pre) = true -> Nat.even (List.length tail) = true ->
  Nat.even (List.length (app pre tail)) = true.
Proof.
  intros Hp Ht. rewrite length_app, Nat.even_add, Hp, Ht. reflexivity.
Qed.

(** One field for each pair the loop has gone through. *)
Lemma parse_fields_loop_length camel_prefix b64decode parent pth pre index fields h fs h' :
  parse_fields_loop (parse_elem camel_prefix b64decode) parent pth pre index fields h
  = (Ok fs, h') ->
  Nat.even (List.length pre) = true ->
  2 * List.length fs = 2 * List.length fields + List.length pre.
Proof.
  revert index fields h.
  induction pre as [| x | k v pre IH] using list_pair_ind; intros index fields h E Hev.
  - injection E as <- _. cbn [List.length]. lia.
  - discriminate Hev.
  - destruct (parse_fields_loop_Ok _ _ _ _ _ _ _ _ _ _ _ _ E)
      as (kk & s & p & child & _ & _ & _ & _ & Erest).
    cbv zeta in Erest. rewrite (IH _ _ _ Erest Hev), length_app. cbn [List.length]. lia.
Qed.

(** A struct whose children come in pairs gets to its loop. *)
Lemma parse_elem_struct_loop camel_prefix b64decode e pth key context h :
  tag e = "dict" -> is_map e = false ->
  children e <> [] -> Nat.even (List.length (children e)) = true ->
  parse_elem camel_prefix b64decode e pth key context h
  = bind (parse_fields_loop (parse_elem camel_prefix b64decode) e (extend_path pth key)
            (children e) 0 [])
      (fun fields =>
         ret (NOc (new_OcSchemaElement "OC_STRUCT" (extend_path pth key) None None
                     (OfList fields) None))) h.
Proof.
  intros Ht Hm Hne Hev. rewrite (parse_elem_fields _ _ _ _ _ _ Ht Hm).
  unfold parse_fields.
  destruct (children e) as [|k [|v rest]] eqn:Hc; [now elim Hne | discriminate Hev |].
  now rewrite (bind_Ok _ _ _ _ _ (init_dict_pairs e false k v rest h Hc Hev)).
Qed.

(** C8, as the code has it.  The count of the children of a struct is
    checked before any child is walked: no child, or an odd number of them, is
    a user error with the buffer untouched.  The keys are checked pair by
    pair, inside the loop.  When the first element of a pair does not walk to
    a key, the run ends in a user error right after that element, before the
    value of the pair and whatever the pairs after it are; but the pairs
    before it have been walked by then, keys and values, and the buffer holds
    all they have printed.  And when the value of a pair ends the run, that is
    how the run ends, whatever stands after the pair, a missing key
    included. *)
Theorem C8_struct_checks camel_prefix b64decode e pth key context h :
  (tag e = "dict" -> is_map e = false -> children e = [] ->
   parse_elem camel_prefix b64decode e pth key context h
   = (UserError "No elements in <dict>", h)) /\
  (tag e = "dict" -> is_map e = false -> Nat.odd (List.length (children e)) = true ->
   parse_elem camel_prefix b64decode e pth key context h
   = (UserError "Number of nodes in <dict> must be even", h)) /\
  (forall k v rest index fields n h1,
      parse_elem camel_prefix b64decode k pth None None h = (Ok (NOc n), h1) ->
      parse_fields_loop (parse_elem camel_prefix b64decode) e pth (k :: v :: rest)
        index fields h =
      (UserError ("<key> required as "
                  ++ (if (index =? 0)%nat then "first" else "every even")
                  ++ " element of <" ++ tag e ++ ">"), h1)) /\
  (forall pre bad v rest fs h1 n h2,
      tag e = "dict" -> is_map e = false ->
      children e = app pre (bad :: v :: rest) ->
      Nat.even (List.length pre) = true -> Nat.even (List.length rest) = true ->
      parse_fields_loop (parse_elem camel_prefix b64decode) e (extend_path pth key) pre 0 [] h
      = (Ok fs, h1) ->
      parse_elem camel_prefix b64decode bad (extend_path pth key) None None h1
      = (Ok (NOc n), h2) ->
      parse_elem camel_prefix b64decode e pth key context h
      = (UserError ("<key> required as "
                    ++ (if (List.length pre =? 0)%nat then "first" else "every even")
                    ++ " element of <dict>"), h2) /\
      2 * List.length fs = List.length pre /\
      h2 = app (app h (fields_emitted (extend_path pth key) fs)) (emitted n)) /\
  (forall pre k v rest fs h1 kk s p r h2,
      tag e = "dict" -> is_map e = false ->
      children e = app pre (k :: v :: rest) ->
      Nat.even (List.length pre) = true -> Nat.even (List.length rest) = true ->
      extend_path pth key = Some p ->
      parse_fields_loop (parse_elem camel_prefix b64decode) e (Some p) pre 0 [] h
      = (Ok fs, h1) ->
      parse_elem camel_prefix b64decode k (Some p) None None h1 = (Ok (NKey kk), h1) ->
      key_value kk = Some s ->
      parse_elem camel_prefix b64decode v (Some p) (key_path_spec kk) None
        (app h1 (if is_top (Some p) then section_chunks (Some s) else []))
      = (r, h2) ->
      is_ok r = false ->
      parse_elem camel_prefix b64decode e pth key context h = (r, h2)).
Proof.
  split; [|split; [|split; [|split]]].
  - intros Ht Hm Hc. rewrite (parse_elem_fields _ _ _ _ _ _ Ht Hm).
    unfold parse_fields, bind, init_dict, display_name. rewrite Hc, Ht. reflexivity.
  - intros Ht Hm Hodd. rewrite (parse_elem_fields _ _ _ _ _ _ Ht Hm).
    unfold parse_fields, bind, init_dict, display_name. rewrite Ht.
    destruct (List.length (children e)) as [|c] eqn:Hlen; [discriminate Hodd|].
    simpl Nat.eqb. cbv iota.
    replace (S c mod 2 =? 0)%nat with false; [reflexivity|].
    symmetry. apply Nat.eqb_neq. intros Hmod.
    apply Nat.Div0.mod_divides in Hmod. destruct Hmod as [q Hq].
    rewrite Hq, Nat.odd_mul in Hodd. discriminate Hodd.
  - intros k v rest index fields n h1 Ek.
    eapply parse_fields_loop_not_key. exact Ek.
  - intros pre bad v rest fs h1 n h2 Ht Hm Hc Hpre Hrest El Eb.
    assert (Hne : children e <> []) by (rewrite Hc; now destruct pre).
    assert (Hev : Nat.even (List.length (children e)) = true)
      by (rewrite Hc; now apply even_app_pairs).
    rewrite (parse_elem_struct_loop _ _ _ _ _ _ _ Ht Hm Hne Hev), Hc.
    unfold bind at 1. rewrite (parse_fields_loop_app _ _ _ _ _ Hpre).
    rewrite (bind_Ok _ _ _ _ _ El). cbv beta.
    rewrite (parse_fields_loop_not_key _ _ _ _ _ _ _ _ _ _ _ _ Eb), Ht.
    split; [reflexivity|].
    split; [exact (parse_fields_loop_length _ _ _ _ _ _ _ _ _ _ El Hpre)|].
    destruct (parse_fields_loop_extends _ _ _ _ _ _ _ _ _ _ El) as (new & -> & _ & ->).
    now destruct (parse_elem_Ok _ _ _ _ _ _ _ _ _ Eb) as (_ & _ & _ & _ & ->).
  - intros pre k v rest fs h1 kk s p r h2 Ht Hm Hc Hpre Hrest Hp El Ek Hs Ev Hr.
    assert (Hne : children e <> []) by (rewrite Hc; now destruct pre).
    assert (Hev : Nat.even (List.length (children e)) = true)
      by (rewrite Hc; now apply even_app_pairs).
    rewrite (parse_elem_struct_loop _ _ _ _ _ _ _ Ht Hm Hne Hev), Hc, Hp.
    unfold bind at 1. rewrite (parse_fields_loop_app _ _ _ _ _ Hpre).
    rewrite (bind_Ok _ _ _ _ _ El). cbv beta.
    rewrite (parse_fields_loop_keyed _ _ _ _ _ _ _ _ _ _ _ Ek), Hs.
    unfold bind at 1. rewrite Ev. now destruct r.
Qed.

(** A struct whose second pair starts with <true/> instead of a key: the
    map of the first pair has been declared when the run ends; and with a
    <data> that is a sized blob as the first value, the run ends there. *)
Lemma C8_struct_checks_witness :
  parse_elem "Oc" Base64.a2b_base64
    (late_violation_doc (map_elem (key_elem (Some "Key")) true_elem))
    (Some ["Acpi"]) None None []
  = (UserError "<key> required as every even element of <dict>",
     [define_line "OC_ACPI_ADD_MAP";
      "  OC_MAP (OC_STRING, None, _, __)" ++ nl;
      "  OC_DECLARE (OC_ACPI_ADD_MAP)" ++ nl;
      nl]) /\
  parse_elem "Oc" Base64.a2b_base64
    (late_violation_doc (data_elem [("type", "blob"); ("size", "4")] None))
    (Some ["Acpi"]) None None []
  = (UserError ("size attribute not valid with schema_type=" ++ dq ++ "blob" ++ dq), []).
Proof.
  split.
  - exact (proj1 (proj1 (proj2 (proj2 (proj2
             (C8_struct_checks "Oc" Base64.a2b_base64
                (late_violation_doc (map_elem (key_elem (Some "Key")) true_elem))
                (Some ["Acpi"]) None None []))))
             [key_elem (Some "Add"); map_elem (key_elem (Some "Key")) true_elem]
             true_elem true_elem []
             [mkOc "OC_MAP" (Some "Add") (Some ["Acpi"; "Add"]) None None
                (OfElem (mkOc "BOOLEAN" None (Some ["Acpi"; "Add"]) None (Some "true")
                           OfNone None))
                (Some "OC_ACPI_ADD_MAP")]
             [define_line "OC_ACPI_ADD_MAP";
              "  OC_MAP (OC_STRING, None, _, __)" ++ nl;
              "  OC_DECLARE (OC_ACPI_ADD_MAP)" ++ nl;
              nl]
             (mkOc "BOOLEAN" None (Some ["Acpi"]) None (Some "true") OfNone None)
             [define_line "OC_ACPI_ADD_MAP";
              "  OC_MAP (OC_STRING, None, _, __)" ++ nl;
              "  OC_DECLARE (OC_ACPI_ADD_MAP)" ++ nl;
              nl]
             eq_refl eq_refl eq_refl eq_refl eq_refl eq_refl eq_refl)).
  - exact (proj2 (proj2 (proj2 (proj2
             (C8_struct_checks "Oc" Base64.a2b_base64
                (late_violation_doc (data_elem [("type", "blob"); ("size", "4")] None))
                (Some ["Acpi"]) None None []))))
             [] (key_elem (Some "Add")) (data_elem [("type", "blob"); ("size", "4")] None)
             [true_elem; true_elem]
             [] [] (new_PlistKey (Some "Add") None) "Add" ["Acpi"]
             (UserError ("size attribute not valid with schema_type=" ++ dq ++ "blob" ++ dq))
             []
             eq_refl eq_refl eq_refl eq_refl eq_refl eq_refl eq_refl eq_refl eq_refl
             eq_refl eq_refl).
Defined.

(** ** Paths and identifiers throughout the tree *)

(** The node has a path; the template of an array or map has the same path,
    and the array or map has the identifier generated from that path; a field
    of a struct has the path of the struct with one more segment; and so on
    below. *)
Fixpoint tree_ok (camel_prefix : string) (n : OcSchemaElement) : Prop :=
  match path n with
  | None => False
  | Some q =>
      match of_ n with
      | OfNone => True
      | OfKey _ => False
      | OfElem c =>
          path c = Some q /\
          (exists suffix, In suffix ["ARRAY"; "ENTRY"; "MAP"] /\
             def_name n = Some (generated_id camel_prefix q suffix)) /\
          tree_ok camel_prefix c
      | OfList fs =>
          def_name n = None /\
          (fix all (l : list OcSchemaElement) : Prop :=
             match l with
             | [] => True
             | f :: l' =>
                 ((exists seg, path f = Some (app q [seg])) /\ tree_ok camel_prefix f) /\
                 all l'
             end) fs
      end
  end.

(** The fields part of [tree_ok], on its own. *)
Fixpoint fields_tree_ok (camel_prefix : string) (q : list string)
    (fs : list OcSchemaElement) : Prop :=
  match fs with
  | [] => True
  | f :: l' =>
      ((exists seg, path f = Some (app q [seg])) /\ tree_ok camel_prefix f) /\
      fields_tree_ok camel_prefix q l'
  end.

Lemma tree_ok_struct camel_prefix q fs :
  tree_ok camel_prefix (new_OcSchemaElement "OC_STRUCT" (Some q) None None (OfList fs) None)
  <-> fields_tree_ok camel_prefix q fs.
Proof.
  cbn [tree_ok path of_ new_OcSchemaElement def_name].
  split.
  - intros [_ H]. induction fs as [|f fs IH]; [exact I|].
    destruct H as [Hf H]. split; [exact Hf | exact (IH H)].
  - intros H. split; [reflexivity|]. induction fs as [|f fs IH]; [exact I|].
    destruct H as [Hf H]. split; [exact Hf | exact (IH H)].
Qed.

Lemma fields_tree_ok_app camel_prefix q fs gs :
  fields_tree_ok camel_prefix q fs -> fields_tree_ok camel_prefix q gs ->
  fields_tree_ok camel_prefix q (app fs gs).
Proof.
  induction fs as [|f fs IH]; [auto|]. intros [Hf Hfs] Hgs. split; auto.
Qed.

Lemma tree_ok_named camel_prefix child s :
  tree_ok camel_prefix
    (mkOc (schema_type child) s (path child) (size child) (value child) (of_ child)
       (def_name child))
  <-> tree_ok camel_prefix child.
Proof. destruct child. reflexivity. Qed.

Section Trees.

Variable camel_prefix : string.
Variable b64decode : string -> option (list byte).

Local Notation "'walk'" := (parse_elem camel_prefix b64decode).

Definition builds_ok_trees (e : elem) : Prop :=
  forall p key context h n h',
    walk e (Some p) key context h = (Ok (NOc n), h') -> tree_ok camel_prefix n.

Lemma fields_loop_tree_ok parent q cs :
  Forall builds_ok_trees cs ->
  forall index fields h fs h',
    parse_fields_loop walk parent (Some q) cs index fields h = (Ok fs, h') ->
    exists new, fs = app fields new /\ fields_tree_ok camel_prefix q new.
Proof.
  induction cs as [| x | k v rest IH] using list_pair_ind; intros Hcs index fields h fs h' E.
  - injection E as <- _. exists []. now rewrite app_nil_r.
  - injection E as <- _. exists []. now rewrite app_nil_r.
  - inversion_clear Hcs as [|? ? _ Hcs']. inversion_clear Hcs' as [|? ? Hv Hrest].
    destruct (parse_fields_loop_Ok _ _ _ _ _ _ _ _ _ _ _ _ E)
      as (kk & s & p & child & Ek & Hs & Hp & Ev & Erest).
    cbv zeta in Ev, Erest. injection Hp as <-.
    destruct (IH Hrest _ _ _ _ _ Erest) as (new & -> & Hnew).
    eexists (_ :: new). split; [now rewrite <- app_assoc|].
    split; [|exact Hnew]. split.
    + destruct (parse_elem_Ok _ _ _ _ _ _ _ _ _ Ev) as (Hpc & _).
      cbn [path]. rewrite Hpc.
      destruct (returns_Ok _ _ _ _ _
                  (proj2 (parse_elem_ok camel_prefix b64decode k (Some q) None None)) Ek)
        as (out & _ & _).
      assert (Hspec : exists seg, key_path_spec kk = Some seg).
      { clear - Ek Hs.
        destruct (walk_accepts_well_formed camel_prefix b64decode k q None None h)
          as (_ & Hwf & Hkey).
        destruct (as_key k) as [kk'|] eqn:Hak.
        - rewrite (Hkey kk' eq_refl) in Ek. injection Ek as <-.
          clear - Hak Hs. revert kk' Hak Hs.
          induction k as [tg attrs tx cs IHk] using elem_ind'. intros kk' Hak Hs.
          cbn [as_key] in Hak.
          destruct (tg =? "key").
          + injection Hak as <-. cbn in Hs. subst tx. cbn.
            destruct (attr "path" attrs); eauto.
          + destruct (tg =? "plist"); [|discriminate].
            destruct cs as [|c [|c' cs']]; try discriminate.
            inversion_clear IHk as [|? ? Hc _]. now apply (Hc kk').
        - destruct (well_formed b64decode k) eqn:Hw.
          + destruct (Hwf eq_refl) as (n & En). rewrite En in Ek. discriminate.
          + destruct (walk_classified camel_prefix b64decode k q None None h)
              as (_ & _ & H3).
            specialize (H3 Hw Hak). rewrite Ek in H3. discriminate. }
      destruct Hspec as (seg & ->). exists seg. reflexivity.
    + apply tree_ok_named. exact (Hv _ _ _ _ _ _ Ev).
Qed.

Lemma walk_builds_ok_trees e : builds_ok_trees e.
Proof.
  induction e as [tg attrs tx cs IH] using elem_ind'.
  intros p key context h n h' E.
  set (e := Elem tg attrs tx cs) in *. change cs with (children e) in IH.
  destruct (extend_path_Some p key) as (q & Hq).
  destruct (String.eqb_spec (tag e) "array") as [Ht|Narray].
  { destruct (parse_array_Ok _ _ _ _ _ _ _ _ _ Ht E)
      as (c & cs' & child & p' & Hc & Hp & Ec & Hpc & -> & _).
    rewrite Hc in IH. inversion_clear IH as [|? ? IHc _].
    cbn [tree_ok path of_ def_name]. split; [exact Hpc|]. split.
    - exists (context_type context). split; [|reflexivity].
      unfold context_type. destruct context as [c0|]; [destruct (c0 =? "map")|];
        simpl; auto.
    - exact (IHc _ _ _ _ _ _ Ec). }
  destruct (String.eqb_spec (tag e) "dict") as [Ht|Ndict].
  { destruct (is_map e) eqn:Hm.
    - destruct (parse_map_Ok _ _ _ _ _ _ _ _ _ Ht Hm E)
        as (k & v & rest & kk & ov & Hc & _ & Ev &
            [(_ & -> & _) | (_ & p' & Hp & -> & _)]).
      + rewrite Hq. exact I.
      + rewrite Hc in IH. inversion_clear IH as [|? ? _ IH']. inversion_clear IH' as [|? ? IHv _].
        rewrite Hp in Ev.
        destruct (parse_elem_Ok _ _ _ _ _ _ _ _ _ Ev) as (Hpv & _).
        rewrite extend_path_None in Hpv.
        cbn [tree_ok path of_ def_name]. split; [exact Hpv|]. split.
        * exists "MAP". split; [simpl; auto | reflexivity].
        * exact (IHv _ _ _ _ _ _ Ev).
    - destruct (parse_fields_Ok _ _ _ _ _ _ _ _ _ Ht Hm E) as (fs & -> & El & _ & _).
      rewrite Hq in *. apply tree_ok_struct.
      destruct (fields_loop_tree_ok _ _ _ IH _ _ _ _ _ El) as (new & -> & Hnew).
      exact Hnew. }
  destruct (String.eqb_spec (tag e) "plist") as [Ht|Nplist].
  { rewrite parse_elem_eq, Ht in E.
    cbn [String.eqb Ascii.eqb Bool.eqb orb] in E. cbv zeta in E.
    unfold parse_plist in E. rewrite Hq in E.
    destruct (children e) as [|c [|c' cs']]; try discriminate E.
    inversion_clear IH as [|? ? IHc _]. exact (IHc _ _ _ _ _ _ E). }
  (* leaves *)
  destruct (parse_elem_Ok _ _ _ _ _ _ _ _ _ E) as (Hp & _).
  assert (Hof : of_ n = OfNone).
  { rewrite parse_elem_eq in E. cbv zeta in E.
    apply String.eqb_neq in Narray, Ndict, Nplist. rewrite Narray, Ndict, Nplist in E.
    destruct (tag e =? "key"); [discriminate E|].
    destruct (_ || _); [injection E as <- _; reflexivity|].
    destruct (tag e =? "string"); [injection E as <- _; reflexivity|].
    destruct (tag e =? "integer"); [injection E as <- _; reflexivity|].
    destruct (tag e =? "data"); [|discriminate E].
    destruct (parse_data_Ok _ _ _ _ _ _ E) as (_ & ty & sz & va & Hr).
    injection Hr as ->. reflexivity. }
  rewrite Hq in Hp.
  destruct n as [ty nm pa sz va o dn]. cbn [path of_] in Hp, Hof.
  cbn [tree_ok path of_]. rewrite Hp, Hof. exact I.
Qed.

End Trees.

Lemma startswith_append p s : Str.startswith p (p ++ s) = true.
Proof.
  induction p as [|c p IH]; [reflexivity|].
  simpl. now rewrite Ascii.eqb_refl, IH.
Qed.

Lemma append_assoc' (a b c : string) : (a ++ b) ++ c = a ++ b ++ c.
Proof. induction a as [|x a IH]; [reflexivity|]. simpl. now rewrite IH. Qed.

Lemma tree_ok_declared camel_prefix n :
  tree_ok camel_prefix n ->
  Forall (fun id => Str.startswith (Str.upper camel_prefix ++ "_") id = true) (declared n).
Proof.
  induction n as [ty nm pa sz va o dn IH] using OcSchemaElement_ind'.
  cbn [tree_ok path of_ def_name declared].
  destruct pa as [q|]; [|contradiction].
  destruct o as [|c|k|fs]; try (intros; constructor).
  - intros (_ & (suffix & _ & ->) & Hc).
    apply Forall_app. split; [exact (IH Hc)|].
    constructor; [|constructor]. cbn [fmt]. unfold generated_id.
    rewrite <- append_assoc'. apply startswith_append.
  - intros [_ H]. induction fs as [|f fs IHfs]; [constructor|].
    inversion_clear IH as [|? ? Hf Hfs]. destruct H as [[_ Hfok] H].
    cbn [flat_map]. apply Forall_app. split; [exact (Hf Hfok) | exact (IHfs Hfs H)].
Qed.

(** Throughout the tree a walk at a path returns, every node carries a path:
    the template of an array or map the path of the array or map, every field
    of a struct the path of the struct extended by one segment; every array
    and map carries the identifier generated from its own path; and so every
    identifier that is declared starts with the upper-cased prefix and an
    underscore. *)
Theorem tree_paths_and_identifiers camel_prefix b64decode e p key context h n h' :
  parse_elem camel_prefix b64decode e (Some p) key context h = (Ok (NOc n), h') ->
  tree_ok camel_prefix n /\
  Forall (fun id => Str.startswith (Str.upper camel_prefix ++ "_") id = true) (declared n).
Proof.
  intros E.
  assert (H := walk_builds_ok_trees camel_prefix b64decode e p key context h n h' E).
  split; [exact H | exact (tree_ok_declared _ _ H)].
Qed.

Lemma tree_paths_and_identifiers_witness :
  tree_ok "Oc" two_fields_node /\
  Forall (fun id => Str.startswith "OC_" id = true) (declared two_fields_node).
Proof.
  exact (tree_paths_and_identifiers "Oc" Base64.a2b_base64 two_fields_doc [] None None []
           two_fields_node (snd two_fields_run) eq_refl).
Defined.

(** * The suffix of every identifier *)

(** A node that, when it is an array, is declared as a plain one. *)
Definition plain (camel_prefix : string) (n : OcSchemaElement) : Prop :=
  forall c, of_ n = OfElem c -> schema_type n = "OC_ARRAY" ->
  exists p, path n = Some p /\ def_name n = Some (generated_id camel_prefix p "ARRAY").

(** Throughout the tree: a map carries the identifier that ends in MAP, an
    array one that ends in ARRAY or ENTRY, a struct none; and the template of
    an array and the fields of a struct are plain. *)
Fixpoint suffixes_ok (camel_prefix : string) (n : OcSchemaElement) : Prop :=
  match of_ n with
  | OfNone => True
  | OfKey _ => False
  | OfElem c =>
      (exists q, path n = Some q /\
         ((schema_type n = "OC_MAP" /\
           def_name n = Some (generated_id camel_prefix q "MAP")) \/
          (schema_type n = "OC_ARRAY" /\
           (def_name n = Some (generated_id camel_prefix q "ARRAY") \/
            def_name n = Some (generated_id camel_prefix q "ENTRY")) /\
           plain camel_prefix c))) /\
      suffixes_ok camel_prefix c
  | OfList fs =>
      def_name n = None /\
      (fix all (l : list OcSchemaElement) : Prop :=
         match l with
         | [] => True
         | f :: l' => (plain camel_prefix f /\ suffixes_ok camel_prefix f) /\ all l'
         end) fs
  end.

Fixpoint fields_suffixes_ok (camel_prefix : string) (fs : list OcSchemaElement) : Prop :=
  match fs with
  | [] => True
  | f :: l' =>
      (plain camel_prefix f /\ suffixes_ok camel_prefix f) /\
      fields_suffixes_ok camel_prefix l'
  end.

Lemma suffixes_ok_struct camel_prefix pth fs :
  suffixes_ok camel_prefix (new_OcSchemaElement "OC_STRUCT" pth None None (OfList fs) None)
  <-> fields_suffixes_ok camel_prefix fs.
Proof.
  cbn [suffixes_ok path of_ new_OcSchemaElement def_name].
  split.
  - intros [_ H]. induction fs as [|f fs IH]; [exact I|].
    destruct H as [Hf H]. split; [exact Hf | exact (IH H)].
  - intros H. split; [reflexivity|]. induction fs as [|f fs IH]; [exact I|].
    destruct H as [Hf H]. split; [exact Hf | exact (IH H)].
Qed.

Lemma fields_suffixes_ok_app camel_prefix fs gs :
  fields_suffixes_ok camel_prefix fs -> fields_suffixes_ok camel_prefix gs ->
  fields_suffixes_ok camel_prefix (app fs gs).
Proof.
  induction fs as [|f fs IH]; [auto|]. intros [Hf Hfs] Hgs. split; auto.
Qed.

Lemma suffixes_ok_named camel_prefix child s :
  let field := mkOc (schema_type child) s (path child) (size child) (value child)
                 (of_ child) (def_name child) in
  (suffixes_ok camel_prefix field <-> suffixes_ok camel_prefix child) /\
  (plain camel_prefix field <-> plain camel_prefix child).
Proof. destruct child. split; reflexivity. Qed.

Section Suffixes.

Variable camel_prefix : string.
Variable b64decode : string -> option (list byte).

Local Notation "'walk'" := (parse_elem camel_prefix b64decode).

Definition builds_ok_suffixes (e : elem) : Prop :=
  forall pth key context h n h',
    walk e pth key context h = (Ok (NOc n), h') ->
    suffixes_ok camel_prefix n /\
    (tag e = "plist" \/ context_type context = "ARRAY" -> plain camel_prefix n).

Lemma fields_loop_suffixes_ok parent pth cs :
  Forall builds_ok_suffixes cs ->
  forall index fields h fs h',
    parse_fields_loop walk parent pth cs index fields h = (Ok fs, h') ->
    exists new, fs = app fields new /\ fields_suffixes_ok camel_prefix new.
Proof.
  induction cs as [| x | k v rest IH] using list_pair_ind; intros Hcs index fields h fs h' E.
  - injection E as <- _. exists []. now rewrite app_nil_r.
  - injection E as <- _. exists []. now rewrite app_nil_r.
  - inversion_clear Hcs as [|? ? _ Hcs']. inversion_clear Hcs' as [|? ? Hv Hrest].
    destruct (parse_fields_loop_Ok _ _ _ _ _ _ _ _ _ _ _ _ E)
      as (kk & s & p & child & Ek & Hs & Hp & Ev & Erest).
    cbv zeta in Ev, Erest.
    destruct (IH Hrest _ _ _ _ _ Erest) as (new & -> & Hnew).
    eexists (_ :: new). split; [now rewrite <- app_assoc|].
    split; [|exact Hnew].
    destruct (Hv _ _ _ _ _ _ Ev) as [Hs1 Hs2].
    destruct (suffixes_ok_named camel_prefix child (Some s)) as [H1 H2]. cbv zeta in H1, H2.
    split; [apply H2, Hs2; now right | apply H1, Hs1].
Qed.

Lemma walk_builds_ok_suffixes e : builds_ok_suffixes e.
Proof.
  induction e as [tg attrs tx cs IH] using elem_ind'.
  intros pth key context h n h' E.
  set (e := Elem tg attrs tx cs) in *. change cs with (children e) in IH.
  destruct (String.eqb_spec (tag e) "array") as [Ht|Narray].
  { destruct (parse_array_Ok _ _ _ _ _ _ _ _ _ Ht E)
      as (c & cs' & child & p' & Hc & Hp & Ec & Hpc & -> & _).
    rewrite Hc in IH. inversion_clear IH as [|? ? IHc _].
    destruct (IHc _ _ _ _ _ _ Ec) as [Hs1 Hs2].
    split.
    - cbn [suffixes_ok path of_ def_name schema_type]. split; [|exact Hs1].
      exists p'. split; [reflexivity|]. right. split; [reflexivity|]. split.
      + unfold context_type. destruct context as [c0|]; [destruct (c0 =? "map")|]; auto.
      + apply Hs2. now right.
    - intros [Hpl | Hctx]; [rewrite Ht in Hpl; discriminate Hpl|].
      intros c0 _ _. exists p'. cbn [path def_name]. now rewrite Hctx. }
  destruct (String.eqb_spec (tag e) "dict") as [Ht|Ndict].
  { destruct (is_map e) eqn:Hm.
    - destruct (parse_map_Ok _ _ _ _ _ _ _ _ _ Ht Hm E)
        as (k & v & rest & kk & ov & Hc & _ & Ev &
            [(_ & -> & _) | (_ & p' & Hp & -> & _)]).
      + split; [exact I|]. intros _ c0 Hof. discriminate Hof.
      + rewrite Hc in IH. inversion_clear IH as [|? ? _ IH']. inversion_clear IH' as [|? ? IHv _].
        destruct (IHv _ _ _ _ _ _ Ev) as [Hs1 _].
        split.
        * cbn [suffixes_ok path of_ def_name schema_type]. split; [|exact Hs1].
          exists p'. split; [reflexivity|]. left. split; reflexivity.
        * intros _ c0 _ Hty. discriminate Hty.
    - destruct (parse_fields_Ok _ _ _ _ _ _ _ _ _ Ht Hm E) as (fs & -> & El & _ & _).
      split.
      + apply suffixes_ok_struct.
        destruct (fields_loop_suffixes_ok _ _ _ IH _ _ _ _ _ El) as (new & -> & Hnew).
        exact Hnew.
      + intros _ c0 Hof. discriminate Hof. }
  destruct (String.eqb_spec (tag e) "plist") as [Ht|Nplist].
  { rewrite parse_elem_eq, Ht in E.
    cbn [String.eqb Ascii.eqb Bool.eqb orb] in E. cbv zeta in E.
    unfold parse_plist in E.
    destruct (children e) as [|c [|c' cs']]; try discriminate E.
    inversion_clear IH as [|? ? IHc _].
    destruct (IHc _ _ _ _ _ _ E) as [Hs1 Hs2].
    split; [exact Hs1|]. intros _. apply Hs2. now right. }
  (* leaves *)
  assert (Hof : of_ n = OfNone).
  { rewrite parse_elem_eq in E. cbv zeta in E.
    apply String.eqb_neq in Narray, Ndict, Nplist. rewrite Narray, Ndict, Nplist in E.
    destruct (tag e =? "key"); [discriminate E|].
    destruct (_ || _); [injection E as <- _; reflexivity|].
    destruct (tag e =? "string"); [injection E as <- _; reflexivity|].
    destruct (tag e =? "integer"); [injection E as <- _; reflexivity|].
    destruct (tag e =? "data"); [|discriminate E].
    destruct (parse_data_Ok _ _ _ _ _ _ E) as (_ & ty & sz & va & Hr).
    injection Hr as ->. reflexivity. }
  split.
  - destruct n as [ty nm pa sz va o dn]. cbn [of_] in Hof. subst o. exact I.
  - intros _ c0 Hc0. rewrite Hof in Hc0. discriminate Hc0.
Qed.

End Suffixes.

(** An array that is the value of a pair of a struct, wherever the pair
    stands: the field it becomes carries the text of the key as its name, the
    path of the struct extended by the key's segment, and the identifier of a
    plain array at that path. *)
Lemma struct_array_field camel_prefix b64decode e pth key context h n h' p pre k v rest s :
  parse_elem camel_prefix b64decode e pth key context h = (Ok (NOc n), h') ->
  tag e = "dict" -> is_map e = false -> extend_path pth key = Some p ->
  children e = app pre (k :: v :: rest) -> Nat.even (List.length pre) = true ->
  tag k = "key" -> text k = Some s -> tag v = "array" ->
  exists before a after,
    of_ n = OfList (app before (a :: after)) /\
    2 * List.length before = List.length pre /\
    name a = Some s /\ path a = Some (app p [key_segment k s]) /\
    def_name a = Some (generated_id camel_prefix (app p [key_segment k s]) "ARRAY").
Proof.
  intros E Ht Hm Hp Hc Hpre Hk Hs Hv.
  destruct (parse_fields_Ok _ _ _ _ _ _ _ _ _ Ht Hm E) as (fs & -> & El & _ & _).
  rewrite Hc, Hp in El. rewrite (parse_fields_loop_app _ _ _ _ _ Hpre) in El.
  apply bind_Ok_inv in El. destruct El as (fs1 & h1 & Epre & El).
  rewrite (parse_fields_loop_step _ _ _ _ _ _ _ _ _ _ _ Hk Hs) in El.
  apply bind_Ok_inv in El. destruct El as (oc_child & h2 & Ev & El).
  apply bind_Ok_inv in El. destruct El as (o & h3 & Esn & El).
  destruct oc_child as [kk|child]; [discriminate Esn|].
  destruct (parse_array_Ok _ _ _ _ _ _ _ _ _ Hv Ev)
    as (c & cs & ch & p' & _ & Hp' & _ & _ & -> & _).
  cbn [extend_path] in Hp'. injection Hp' as <-.
  unfold set_name in Esn. cbn [name] in Esn. injection Esn as <- <-.
  destruct (parse_fields_loop_extends _ _ _ _ _ _ _ _ _ _ El) as (new & -> & _ & _).
  exists fs1. eexists. exists new.
  split; [cbn [of_ new_OcSchemaElement]; now rewrite <- app_assoc|].
  split; [now rewrite (parse_fields_loop_length _ _ _ _ _ _ _ _ _ _ Epre Hpre)|].
  repeat split.
Qed.

(** C6.  An array gets the identifier made of the upper-cased prefix, the
    upper-cased segments of its path and ARRAY, or ENTRY when it is walked as
    the value of a map; a declared map gets the same with MAP; a struct gets
    none; and the array under the key [s] of the top struct is
    PREFIX_S_ARRAY, at the first pair as at any later one.  ENTRY is for the
    value of a map alone: the template of an array, whatever the array itself
    is called, every field of a struct and what stands under a <plist> are
    plain arrays when they are arrays, and so it is throughout the tree that
    is returned. *)
Theorem C6_generated_identifiers camel_prefix b64decode e pth key context h n h' :
  parse_elem camel_prefix b64decode e pth key context h = (Ok (NOc n), h') ->
  (tag e = "array" ->
   exists p, path n = Some p /\ extend_path pth key = Some p /\
     def_name n =
     Some (Str.upper camel_prefix ++ "_" ++ Str.join "_" (map Str.upper p) ++ "_" ++
           match context with
           | Some c => if String.eqb c "map" then "ENTRY" else "ARRAY"
           | None => "ARRAY"
           end)) /\
  (tag e = "dict" -> is_map e = true ->
   (schema_type n = "OC_ASSOC" /\ def_name n = Some "OC_ASSOC") \/
   (schema_type n = "OC_MAP" /\
    exists p, path n = Some p /\
      def_name n =
      Some (Str.upper camel_prefix ++ "_" ++ Str.join "_" (map Str.upper p) ++ "_" ++ "MAP"))) /\
  (tag e = "dict" -> is_map e = true ->
   forall k v rest, children e = k :: v :: rest -> tag v = "array" ->
   exists a p, of_ n = OfElem a /\ path a = Some p /\
     def_name a =
     Some (Str.upper camel_prefix ++ "_" ++ Str.join "_" (map Str.upper p) ++ "_" ++ "ENTRY")) /\
  (tag e = "dict" -> is_map e = false -> schema_type n = "OC_STRUCT" /\ def_name n = None) /\
  (tag e = "dict" -> is_map e = false -> extend_path pth key = Some [] ->
   forall s v rest, children e = key_elem (Some s) :: v :: rest -> tag v = "array" ->
   exists a fs, of_ n = OfList (a :: fs) /\ name a = Some s /\
     def_name a = Some (Str.upper camel_prefix ++ "_" ++ Str.upper s ++ "_ARRAY")) /\
  (tag e = "array" ->
   forall c cs, children e = c :: cs -> tag c = "array" ->
   exists a p, of_ n = OfElem a /\ path a = Some p /\
     def_name a =
     Some (Str.upper camel_prefix ++ "_" ++ Str.join "_" (map Str.upper p) ++ "_" ++ "ARRAY")) /\
  suffixes_ok camel_prefix n /\
  (tag e = "plist" \/ context_type context = "ARRAY" -> plain camel_prefix n) /\
  (tag e = "dict" -> is_map e = false ->
   forall p pre k v rest s,
     extend_path pth key = Some p ->
     children e = app pre (k :: v :: rest) -> Nat.even (List.length pre) = true ->
     tag k = "key" -> text k = Some s -> tag v = "array" ->
     exists before a after,
       of_ n = OfList (app before (a :: after)) /\
       2 * List.length before = List.length pre /\
       name a = Some s /\ path a = Some (app p [key_segment k s]) /\
       def_name a =
       Some (Str.upper camel_prefix ++ "_"
             ++ Str.join "_" (map Str.upper (app p [key_segment k s])) ++ "_" ++ "ARRAY")).
Proof.
  intros E. split; [|split; [|split; [|split; [|split; [|split; [|split; [|split]]]]]]].
  - intros Ht.
    destruct (parse_array_Ok _ _ _ _ _ _ _ _ _ Ht E)
      as (c & cs & child & p & _ & Hp & _ & _ & -> & _).
    exists p. repeat split. exact Hp.
  - intros Ht Hm.
    destruct (parse_map_Ok _ _ _ _ _ _ _ _ _ Ht Hm E)
      as (k & v & rest & kk & ov & _ & _ & _ & [(_ & -> & _) | (_ & p & _ & -> & _)]).
    + left. split; reflexivity.
    + right. split; [reflexivity|]. exists p. split; reflexivity.
  - intros Ht Hm k v rest Hc Hv.
    destruct (parse_map_Ok _ _ _ _ _ _ _ _ _ Ht Hm E)
      as (k' & v' & rest' & kk & ov & Hc' & _ & Ev & Hcases).
    rewrite Hc in Hc'. injection Hc' as <- <- <-.
    destruct (parse_array_Ok _ _ _ _ _ _ _ _ _ Hv Ev)
      as (c & cs & child & p & _ & Hp & _ & _ & Hov & _).
    destruct Hcases as [(Hty & _) | (_ & p' & _ & -> & _)].
    + rewrite Hov in Hty. discriminate.
    + exists ov, p. rewrite Hov. repeat split.
  - intros Ht Hm.
    destruct (parse_fields_Ok _ _ _ _ _ _ _ _ _ Ht Hm E) as (fs & -> & _).
    split; reflexivity.
  - intros Ht Hm Hp s v rest Hc Hv.
    destruct (parse_fields_first _ _ _ _ _ _ _ _ _ _ _ _ Ht Hm Hc E)
      as (kk & s' & p & child & fs & Ek & Hs & Hp' & Ev & Hof & _).
    rewrite (parse_elem_key_run camel_prefix b64decode (key_elem (Some s)) _ _ _ _ eq_refl)
      in Ek.
    injection Ek as <-. simpl in Hs. injection Hs as <-.
    rewrite Hp in Hp'. injection Hp' as <-.
    destruct (parse_array_Ok _ _ _ _ _ _ _ _ _ Hv Ev)
      as (c & cs & child' & p & _ & Hpp & _ & _ & -> & _).
    simpl in Hpp. injection Hpp as <-.
    eexists. exists fs. split; [exact Hof|]. split; reflexivity.
  - intros Ht c cs Hc Hct.
    destruct (parse_array_Ok _ _ _ _ _ _ _ _ _ Ht E)
      as (c' & cs' & child & p & Hc' & _ & Ec & _ & -> & _).
    rewrite Hc in Hc'. injection Hc' as <- <-.
    destruct (parse_array_Ok _ _ _ _ _ _ _ _ _ Hct Ec)
      as (c2 & cs2 & child2 & p2 & _ & _ & _ & _ & Hch & _).
    exists child, p2. split; [reflexivity|]. rewrite Hch. split; reflexivity.
  - exact (proj1 (walk_builds_ok_suffixes camel_prefix b64decode e _ _ _ _ _ _ E)).
  - exact (proj2 (walk_builds_ok_suffixes camel_prefix b64decode e _ _ _ _ _ _ E)).
  - intros Ht Hm p pre k v rest s Hp Hc Hpre Hk Hs Hv.
    exact (struct_array_field _ _ _ _ _ _ _ _ _ _ _ _ _ _ _ E Ht Hm Hp Hc Hpre Hk Hs Hv).
Qed.

(** A map of arrays of arrays of booleans. *)
Definition entries_doc : elem :=
  map_elem (key_elem (Some "Key")) (array_elem (array_elem true_elem)).

Definition entries_node : OcSchemaElement :=
  Eval vm_compute in
    result_node (fst (parse_elem "Oc" Base64.a2b_base64 entries_doc (Some ["Devices"])
                        None None [])).

(** The value of the map is an ENTRY, the template of that array a plain
    ARRAY; and the array under "Items" of a top struct. *)
Lemma C6_generated_identifiers_witness :
  (exists m a b,
      entries_node = m /\ def_name m = Some "OC_DEVICES_MAP" /\
      of_ m = OfElem a /\ def_name a = Some "OC_DEVICES_ENTRY" /\
      of_ a = OfElem b /\ def_name b = Some "OC_DEVICES_ARRAY") /\
  suffixes_ok "Oc" entries_node /\
  (exists a fs,
      OfList [mkOc "OC_ARRAY" (Some "Items") (Some ["Items"]) None None
                (OfElem (mkOc "BOOLEAN" None (Some ["Items"]) None (Some "true") OfNone None))
                (Some "OC_ITEMS_ARRAY")] = OfList (a :: fs) /\
      name a = Some "Items" /\ def_name a = Some "OC_ITEMS_ARRAY").
Proof.
  split; [|split].
  - eexists _, _, _. repeat split.
  - exact (proj1 (proj2 (proj2 (proj2 (proj2 (proj2 (proj2
             (C6_generated_identifiers "Oc" Base64.a2b_base64 entries_doc
                (Some ["Devices"]) None None [] entries_node _ eq_refl)))))))).
  - exact (proj1 (proj2 (proj2 (proj2 (proj2
             (C6_generated_identifiers "Oc" Base64.a2b_base64
                (struct_elem [key_elem (Some "Items"); array_elem true_elem])
                (Some []) None None []
                (mkOc "OC_STRUCT" None (Some []) None None
                   (OfList [mkOc "OC_ARRAY" (Some "Items") (Some ["Items"]) None None
                              (OfElem (mkOc "BOOLEAN" None (Some ["Items"]) None (Some "true")
                                         OfNone None))
                              (Some "OC_ITEMS_ARRAY")]) None)
                _ eq_refl)))))
             eq_refl eq_refl eq_refl "Items" (array_elem true_elem) [] eq_refl eq_refl).
Defined.

(** * The output files *)

(** ** [str.replace] *)

(** [s.replace(old, new)] with an empty [old]: [new] goes before every
    character and at the end. *)
Fixpoint replace_empty (new s : string) : string :=
  match s with
  | "" => new
  | String c s' => new ++ String c (replace_empty new s')
  end.

(** [s.replace(old, new)]: the occurrences of [old] are taken from the left
    and do not overlap.  [skip] counts the characters of the occurrence just
    replaced that are still to be passed over. *)
Fixpoint replace_from (old new s : string) (skip : nat) : string :=
  match s with
  | "" => ""
  | String c s' =>
      match skip with
      | S k => replace_from old new s' k
      | O =>
          if Str.startswith old s
          then new ++ replace_from old new s' (String.length old - 1)
          else String c (replace_from old new s' 0)
      end
  end.

Definition replace (old new s : string) : string :=
  match old with
  | "" => replace_empty new s
  | _ => replace_from old new s 0
  end.

(** [customise_template(template, body)] *)
Definition customise_template (camel_prefix template body : string) : string :=
  replace "[[BODY]]" body
    (replace "[[PREFIX]]" (upper_prefix camel_prefix)
       (replace "[[Prefix]]" camel_prefix template)).

(** ** Templates cut at their marks *)

Inductive mark : Type := MPrefix | MUpper | MBody.

Definition mark_text (m : mark) : string :=
  match m with
  | MPrefix => "[[Prefix]]"
  | MUpper => "[[PREFIX]]"
  | MBody => "[[BODY]]"
  end.

Definition mark_eqb (m m' : mark) : bool :=
  match m, m' with
  | MPrefix, MPrefix | MUpper, MUpper | MBody, MBody => true
  | _, _ => false
  end.

Inductive segment : Type :=
| Plain (s : string)
| Mark (m : mark).

Definition segment_text (sg : segment) : string :=
  match sg with
  | Plain s => s
  | Mark m => mark_text m
  end.

Fixpoint concat_segments (segs : list segment) : string :=
  match segs with
  | [] => ""
  | sg :: rest => segment_text sg ++ concat_segments rest
  end.

(** A text is quiet when none of its opening brackets is followed by another
    one or stands last: no mark can start in it. *)
Fixpoint quiet (s : string) : bool :=
  match s with
  | "" => true
  | String c s' =>
      if Ascii.eqb c "["
      then match s' with
           | "" => false
           | String d _ => negb (Ascii.eqb d "[") && quiet s'
           end
      else quiet s'
  end.

Definition quiet_segment (sg : segment) : bool :=
  match sg with
  | Plain s => quiet s
  | Mark _ => true
  end.

(** One pass of [replace] seen on the segments. *)
Definition fill (m : mark) (new : string) (sg : segment) : segment :=
  match sg with
  | Plain s => Plain s
  | Mark m' => if mark_eqb m m' then Plain new else Mark m'
  end.

(** What the three passes are meant to make of a segment. *)
Definition expand (camel_prefix body : string) (sg : segment) : string :=
  match sg with
  | Plain s => s
  | Mark MPrefix => camel_prefix
  | Mark MUpper => upper_prefix camel_prefix
  | Mark MBody => body
  end.

Fixpoint expand_all (camel_prefix body : string) (segs : list segment) : string :=
  match segs with
  | [] => ""
  | sg :: rest => expand camel_prefix body sg ++ expand_all camel_prefix body rest
  end.

Lemma append_assoc_str (a b c : string) : (a ++ b) ++ c = a ++ (b ++ c).
Proof. induction a as [|x a IH]; cbn; [reflexivity | now rewrite IH]. Qed.

Lemma replace_from_plain m new s r :
  quiet s = true ->
  replace_from (mark_text m) new (s ++ r) 0 = s ++ replace_from (mark_text m) new r 0.
Proof.
  induction s as [|c s IH]; intros Q; [reflexivity|].
  cbn [append replace_from].
  assert (Hs : Str.startswith (mark_text m) (String c (s ++ r)) = false).
  { cbn [quiet] in Q. destruct (Ascii.eqb c "[") eqn:Ec.
    - destruct s as [|d s]; [discriminate|].
      apply andb_prop in Q as [Hd _]. apply negb_true_iff in Hd.
      rewrite Ascii.eqb_sym in Hd.
      destruct m; cbn [mark_text Str.startswith append]; rewrite Hd;
        cbn [andb]; apply andb_false_r.
    - rewrite Ascii.eqb_sym in Ec.
      destruct m; cbn [mark_text Str.startswith]; now rewrite Ec. }
  rewrite Hs. f_equal. apply IH.
  cbn [quiet] in Q. destruct (Ascii.eqb c "["); [|exact Q].
  destruct s; [discriminate|]. now apply andb_prop in Q as [_ ?].
Qed.

Lemma replace_from_mark m m' new r :
  replace_from (mark_text m) new (mark_text m' ++ r) 0
  = segment_text (fill m new (Mark m')) ++ replace_from (mark_text m) new r 0.
Proof. destruct m, m'; reflexivity. Qed.

Lemma replace_from_segments m new segs :
  forallb quiet_segment segs = true ->
  replace_from (mark_text m) new (concat_segments segs) 0
  = concat_segments (map (fill m new) segs).
Proof.
  induction segs as [|sg segs IH]; intros Q; [reflexivity|].
  cbn [forallb] in Q. apply andb_prop in Q as [Q1 Q2].
  cbn [concat_segments map]. destruct sg as [s|m']; cbn [segment_text].
  - rewrite replace_from_plain by exact Q1. cbn [fill segment_text]. now rewrite IH.
  - rewrite replace_from_mark. now rewrite IH.
Qed.

Lemma replace_mark m new s : replace (mark_text m) new s = replace_from (mark_text m) new s 0.
Proof. now destruct m. Qed.

Lemma upper_ascii_bracket c : Ascii.eqb (Str.upper_ascii c) "[" = Ascii.eqb c "[".
Proof.
  destruct c as [[] [] [] [] [] [] [] []]; reflexivity.
Qed.

Lemma quiet_upper s : quiet (Str.upper s) = quiet s.
Proof.
  induction s as [|c s IH]; [reflexivity|].
  cbn [Str.upper quiet]. rewrite upper_ascii_bracket, IH.
  destruct s as [|d s]; [reflexivity|].
  cbn [Str.upper]. now rewrite upper_ascii_bracket.
Qed.

Lemma quiet_fill m new segs :
  quiet new = true -> forallb quiet_segment segs = true ->
  forallb quiet_segment (map (fill m new) segs) = true.
Proof.
  intros Qn. induction segs as [|sg segs IH]; intros Q; [reflexivity|].
  cbn [forallb] in Q. apply andb_prop in Q as [Q1 Q2].
  cbn [map forallb]. rewrite (IH Q2), andb_true_r.
  destruct sg as [s|m']; [exact Q1|].
  cbn [fill]. now destruct (mark_eqb m m').
Qed.

Lemma expand_all_fill camel_prefix body segs :
  concat_segments
    (map (fill MBody body)
       (map (fill MUpper (upper_prefix camel_prefix))
          (map (fill MPrefix camel_prefix) segs)))
  = expand_all camel_prefix body segs.
Proof.
  induction segs as [|sg segs IH]; [reflexivity|].
  cbn [map concat_segments expand_all]. rewrite IH.
  now destruct sg as [s|[]].
Qed.

(** On a template cut into quiet texts and marks, with a quiet prefix, the
    three passes fill every mark and leave the rest alone; the body is put in
    as it is. *)
Lemma customise_segments camel_prefix body segs :
  quiet camel_prefix = true -> forallb quiet_segment segs = true ->
  customise_template camel_prefix (concat_segments segs) body
  = expand_all camel_prefix body segs.
Proof.
  intros Qp Q. unfold customise_template.
  change "[[BODY]]" with (mark_text MBody).
  change "[[PREFIX]]" with (mark_text MUpper).
  change "[[Prefix]]" with (mark_text MPrefix).
  rewrite !replace_mark.
  assert (Qu : quiet (upper_prefix camel_prefix) = true)
    by (cbn [upper_prefix]; now rewrite quiet_upper).
  rewrite (replace_from_segments MPrefix) by exact Q.
  rewrite (replace_from_segments MUpper) by now apply quiet_fill.
  rewrite (replace_from_segments MBody) by now repeat apply quiet_fill.
  apply expand_all_fill.
Qed.
(** ** The templates *)

(** [SHARED_HEADER], [C_TEMPLATE] and [H_TEMPLATE], character for character. *)
Definition SHARED_HEADER : string :=
  "/** @file
  Copyright (C) 2019-2020, vit9696. All rights reserved.

  All rights reserved.

  This program and the accompanying materials
  are licensed and made available under the terms and conditions of the BSD License
  which accompanies this distribution.  The full text of the license may be found at
  http://opensource.org/licenses/bsd-license.php

  THE PROGRAM IS DISTRIBUTED UNDER THE BSD LICENSE ON AN " ++ dq ++ "AS IS" ++ dq ++ " BASIS,
  WITHOUT WARRANTIES OR REPRESENTATIONS OF ANY KIND, EITHER EXPRESS OR IMPLIED.
**/

/**
  This entire file now automatically generated by PlistToConfig.py from Template.plist
  in OpenCorePkg/Library/OcConfigurationLib, do not edit by hand
**/
".

Definition C_TEMPLATE : string :=
  "
#include <Library/OcConfigurationLib.h>

[[BODY]]
EFI_STATUS
[[Prefix]]ConfigurationInit (
  OUT [[PREFIX]]_GLOBAL_CONFIG   *Config,
  IN  VOID               *Buffer,
  IN  UINT32             Size
  )
{
  BOOLEAN  Success;

  [[PREFIX]]_GLOBAL_CONFIG_CONSTRUCT (Config, sizeof (*Config));
  Success = ParseSerialized (Config, &mRootConfigurationInfo, Buffer, Size);

  if (!Success) {
    [[PREFIX]]_GLOBAL_CONFIG_DESTRUCT (Config, sizeof (*Config));
    return EFI_UNSUPPORTED;
  }

  return EFI_SUCCESS;
}

VOID
[[Prefix]]ConfigurationFree (
  IN OUT [[PREFIX]]_GLOBAL_CONFIG   *Config
  )
{
  [[PREFIX]]_GLOBAL_CONFIG_DESTRUCT (Config, sizeof (*Config));
}
".

Definition H_TEMPLATE : string :=
  "
#ifndef [[PREFIX]]_CONFIGURATION_LIB_H
#define [[PREFIX]]_CONFIGURATION_LIB_H

#include <Library/DebugLib.h>
#include <Library/OcSerializeLib.h>
#include <Library/OcBootManagementLib.h>

[[BODY]]/**
  Initialize configuration with plist data.

  @param[out]  Config   Configuration structure.
  @param[in]   Buffer   Configuration buffer in plist format.
  @param[in]   Size     Configuration buffer size.

  @retval  EFI_SUCCESS on success
**/
EFI_STATUS
[[Prefix]]ConfigurationInit (
  OUT [[PREFIX]]_GLOBAL_CONFIG   *Config,
  IN  VOID               *Buffer,
  IN  UINT32             Size
  );

/**
  Free configuration structure.

  @param[in,out]  Config   Configuration structure.
**/
VOID
[[Prefix]]ConfigurationFree (
  IN OUT [[PREFIX]]_GLOBAL_CONFIG   *Config
  );

#endif // [[PREFIX]]_CONFIGURATION_LIB_H
".

(** [C_TEMPLATE] cut at its marks. *)
Definition C_TEMPLATE_segments : list segment :=
  [Plain "
#include <Library/OcConfigurationLib.h>

";
   Mark MBody;
   Plain "
EFI_STATUS
";
   Mark MPrefix;
   Plain "ConfigurationInit (
  OUT ";
   Mark MUpper;
   Plain "_GLOBAL_CONFIG   *Config,
  IN  VOID               *Buffer,
  IN  UINT32             Size
  )
{
  BOOLEAN  Success;

  ";
   Mark MUpper;
   Plain "_GLOBAL_CONFIG_CONSTRUCT (Config, sizeof (*Config));
  Success = ParseSerialized (Config, &mRootConfigurationInfo, Buffer, Size);

  if (!Success) {
    ";
   Mark MUpper;
   Plain "_GLOBAL_CONFIG_DESTRUCT (Config, sizeof (*Config));
    return EFI_UNSUPPORTED;
  }

  return EFI_SUCCESS;
}

VOID
";
   Mark MPrefix;
   Plain "ConfigurationFree (
  IN OUT ";
   Mark MUpper;
   Plain "_GLOBAL_CONFIG   *Config
  )
{
  ";
   Mark MUpper;
   Plain "_GLOBAL_CONFIG_DESTRUCT (Config, sizeof (*Config));
}
"].

(** [H_TEMPLATE] cut at its marks. *)
Definition H_TEMPLATE_segments : list segment :=
  [Plain "
#ifndef ";
   Mark MUpper;
   Plain "_CONFIGURATION_LIB_H
#define ";
   Mark MUpper;
   Plain "_CONFIGURATION_LIB_H

#include <Library/DebugLib.h>
#include <Library/OcSerializeLib.h>
#include <Library/OcBootManagementLib.h>

";
   Mark MBody;
   Plain "/**
  Initialize configuration with plist data.

  @param[out]  Config   Configuration structure.
  @param[in]   Buffer   Configuration buffer in plist format.
  @param[in]   Size     Configuration buffer size.

  @retval  EFI_SUCCESS on success
**/
EFI_STATUS
";
   Mark MPrefix;
   Plain "ConfigurationInit (
  OUT ";
   Mark MUpper;
   Plain "_GLOBAL_CONFIG   *Config,
  IN  VOID               *Buffer,
  IN  UINT32             Size
  );

/**
  Free configuration structure.

  @param[in,out]  Config   Configuration structure.
**/
VOID
";
   Mark MPrefix;
   Plain "ConfigurationFree (
  IN OUT ";
   Mark MUpper;
   Plain "_GLOBAL_CONFIG   *Config
  );

#endif // ";
   Mark MUpper;
   Plain "_CONFIGURATION_LIB_H
"].

Lemma C_TEMPLATE_cut :
  C_TEMPLATE = concat_segments C_TEMPLATE_segments /\
  forallb quiet_segment C_TEMPLATE_segments = true.
Proof. split; vm_compute; reflexivity. Qed.

Lemma H_TEMPLATE_cut :
  H_TEMPLATE = concat_segments H_TEMPLATE_segments /\
  forallb quiet_segment H_TEMPLATE_segments = true.
Proof. split; vm_compute; reflexivity. Qed.

(** ** Writing the files *)

(** [c_structors] and [c_schema] get one comment line each when they are
    created and are never printed to again. *)
Definition c_structors : buffer := ["// c_structors" ++ nl].
Definition c_schema : buffer := ["// c_schema" ++ nl].

(** What is printed to [c_file] and to [h_file] once the walk has returned:
    the header, then the customised template, both with [end='']. *)
Definition c_text (camel_prefix : string) : string :=
  SHARED_HEADER
  ++ customise_template camel_prefix C_TEMPLATE (h_read c_structors ++ h_read c_schema).

Definition h_text (camel_prefix : string) (h_types : buffer) : string :=
  SHARED_HEADER ++ customise_template camel_prefix H_TEMPLATE (h_read h_types).

(** The script from the walk of the root on: the texts of the two files, in
    the order they are written, when the walk returns; nothing is written
    when it does not. *)
Definition write_output (camel_prefix : string) (b64decode : string -> option (list byte))
    (root : elem) : outcome (string * string) :=
  match run camel_prefix b64decode root with
  | (Ok _, h_types) => Ok (c_text camel_prefix, h_text camel_prefix h_types)
  | (UserError msg, _) => UserError msg
  | (InternalError msg, _) => InternalError msg
  | (Crash exc, _) => Crash exc
  end.

(** ** The marks are filled, the rest is kept *)

(** What becomes of a segment when the prefix reads [[BODY]]. *)
Definition flood (body : string) (sg : segment) : segment :=
  match sg with
  | Plain s => Plain s
  | Mark _ => Plain body
  end.

(** On a template made of quiet texts and marks, and with a quiet prefix,
    [customise_template] puts the prefix for every [[Prefix]], the upper-cased
    prefix for every [[PREFIX]] and the body for every [[BODY]], and changes
    nothing else; the body is put in as it is, whatever it holds.  The prefix
    has to be quiet: the passes follow one another, and with a prefix that
    reads [[BODY]] every mark of the template ends up as the body. *)
Theorem customise_template_fills_marks camel_prefix body segs :
  quiet camel_prefix = true -> forallb quiet_segment segs = true ->
  customise_template camel_prefix (concat_segments segs) body
  = expand_all camel_prefix body segs /\
  customise_template "[[BODY]]" (concat_segments segs) body
  = concat_segments (map (flood body) segs).
Proof.
  intros Qp Q. split; [now apply customise_segments|].
  unfold customise_template.
  change (upper_prefix "[[BODY]]") with (mark_text MBody).
  change "[[BODY]]" with (mark_text MBody).
  change "[[PREFIX]]" with (mark_text MUpper).
  change "[[Prefix]]" with (mark_text MPrefix).
  rewrite !replace_mark.
  rewrite (replace_from_segments MPrefix) by exact Q.
  clear Qp. induction segs as [|sg segs IH]; [reflexivity|].
  cbn [forallb] in Q. apply andb_prop in Q as [Q1 Q2]. specialize (IH Q2).
  cbn [map concat_segments].
  destruct sg as [s|m]; cbn [fill flood segment_text].
  - rewrite !replace_from_plain by exact Q1. now rewrite IH.
  - destruct m; cbn [mark_eqb segment_text];
      rewrite ?(replace_from_mark MUpper MBody), ?(replace_from_mark MUpper MUpper);
      cbn [fill mark_eqb segment_text];
      rewrite (replace_from_mark MBody MBody);
      cbn [fill mark_eqb segment_text]; now rewrite IH.
Qed.

Lemma customise_template_fills_marks_witness :
  customise_template "Oc" (concat_segments [Plain "a[0] = "; Mark MUpper; Mark MBody]) "[[Prefix]]"
  = "a[0] = OC[[Prefix]]".
Proof.
  exact (proj1 (customise_template_fills_marks "Oc" "[[Prefix]]"
                  [Plain "a[0] = "; Mark MUpper; Mark MBody] eq_refl eq_refl)).
Defined.

(** ** The two files *)

(** When the walk of the root returns, the text written to [h_file] is the
    header followed by [H_TEMPLATE] with its marks filled, the body being all
    that the walk has printed: for a schema element the declarations of its
    tree, for a key nothing.  The text written to [c_file] is the header
    followed by [C_TEMPLATE] with its marks filled, the body being the two
    comment lines: nothing of the document reaches it. *)
Theorem output_files camel_prefix b64decode root c h :
  quiet camel_prefix = true ->
  write_output camel_prefix b64decode root = Ok (c, h) ->
  c = SHARED_HEADER
      ++ expand_all camel_prefix (("// c_structors" ++ nl) ++ "// c_schema" ++ nl)
           C_TEMPLATE_segments /\
  exists r h_types,
    run camel_prefix b64decode root = (Ok r, h_types) /\
    h = SHARED_HEADER ++ expand_all camel_prefix (h_read h_types) H_TEMPLATE_segments /\
    h_types = match r with NKey _ => [] | NOc n => emitted n end.
Proof.
  intros Qp E. unfold write_output in E.
  destruct (run camel_prefix b64decode root) as [[r | | |] h_types] eqn:Er; try discriminate.
  injection E as <- <-. split.
  - unfold c_text. destruct C_TEMPLATE_cut as [-> Hq].
    now rewrite customise_segments.
  - exists r, h_types. split; [reflexivity|]. split.
    + unfold h_text. destruct H_TEMPLATE_cut as [-> Hq].
      now rewrite customise_segments.
    + unfold run in Er.
      destruct (parse_elem_ok camel_prefix b64decode root (Some []) None None) as [_ R].
      unfold returns in R. specialize (R []). rewrite Er in R.
      destruct R as (out & -> & B).
      destruct r as [k|n]; cbn in B; [now subst|].
      now destruct B as (_ & _ & _ & _ & ->).
Qed.

Lemma output_files_witness :
  c_text "Oc"
  = SHARED_HEADER
    ++ expand_all "Oc" (("// c_structors" ++ nl) ++ "// c_schema" ++ nl) C_TEMPLATE_segments /\
  exists r h_types,
    run "Oc" Base64.a2b_base64 two_fields_doc = (Ok r, h_types) /\
    h_text "Oc" (snd (run "Oc" Base64.a2b_base64 two_fields_doc))
    = SHARED_HEADER ++ expand_all "Oc" (h_read h_types) H_TEMPLATE_segments /\
    h_types = match r with NKey _ => [] | NOc n => emitted n end.
Proof.
  apply (output_files "Oc" Base64.a2b_base64 two_fields_doc); reflexivity.
Defined.

(** * The command line *)

(** The script reads [sys.argv] before it reads the document.  The arguments
    set module-level variables; [open(name, 'w')] creates or empties a file at
    once, so the names of the files opened are kept with the variables.
    [int] and [open] are library routines that can raise: the development is
    parametric in [int] ([None] where it raises) and in which names can be
    opened for writing. *)

Module Args.

Inductive handle : Type :=
| devnull
| stdout
| File (name : string).

Record globals : Type := mkGlobals {
  flags : Z;
  camel_prefix : option string;
  c_file : option handle;
  h_file : option handle;
  plist_filename : option string;
  opened : list string
}.

Definition initial : globals :=
  mkGlobals 0 None None None None [].

Definition set_flags (n : Z) (g : globals) : globals :=
  mkGlobals n (camel_prefix g) (c_file g) (h_file g) (plist_filename g) (opened g).

Definition set_camel_prefix (p : string) (g : globals) : globals :=
  mkGlobals (flags g) (Some p) (c_file g) (h_file g) (plist_filename g) (opened g).

Definition set_c_file (f : handle) (g : globals) : globals :=
  mkGlobals (flags g) (camel_prefix g) (Some f) (h_file g) (plist_filename g) (opened g).

Definition set_h_file (f : handle) (g : globals) : globals :=
  mkGlobals (flags g) (camel_prefix g) (c_file g) (Some f) (plist_filename g) (opened g).

Definition set_plist_filename (f : string) (g : globals) : globals :=
  mkGlobals (flags g) (camel_prefix g) (c_file g) (h_file g) (Some f) (opened g).

Definition add_opened (f : string) (g : globals) : globals :=
  mkGlobals (flags g) (camel_prefix g) (c_file g) (h_file g) (plist_filename g)
    (app (opened g) [f]).

Record settings : Type := mkSettings {
  prefix : string;
  c_out : handle;
  h_out : handle;
  input : string
}.

(** How a piece of the script ends, and the variables as they are then. *)
Definition result (A : Type) : Type := outcome A * globals.

Definition DEFAULT_PREFIX : string := "Oc".

Section Loop.

Variable int : string -> option Z.
Variable writable : string -> bool.

(** The file named after [-c] or [-h]: [sys.stdout] for a lone dash, the file
    opened for writing otherwise. *)
Definition open_handle (arg flag_filename : string) (g : globals) : result handle :=
  if flag_filename =? "-" then (Ok stdout, g)
  else if Str.startswith "-" flag_filename then (UserError ("Missing file for " ++ arg), g)
  else if writable flag_filename then (Ok (File flag_filename), add_opened flag_filename g)
  else (Crash "OSError", g).

(** The loop [for i in range(1, argc)], on the arguments from [sys.argv[i]]
    on; [sys.argv[i + 1]] is the head of [rest], and [i + 1 >= argc] holds when
    [rest] is empty. *)
Fixpoint parse_args (args : list string) (skip : bool) (g : globals) : result unit :=
  match args with
  | [] => (Ok tt, g)
  | arg :: rest =>
      if skip then parse_args rest false g
      else if (arg =? "-f") || (arg =? "-p") then
        match rest with
        | [] => (UserError ("Missing value for " ++ arg ++ " flag"), g)
        | value :: _ =>
            if arg =? "-f" then
              match int value with
              | None => (Crash "ValueError", g)
              | Some n => parse_args rest true (set_flags n g)
              end
            else if arg =? "-p" then parse_args rest true (set_camel_prefix value g)
            else (InternalError "flag error", g)
        end
      else if (arg =? "-c") || (arg =? "-h") then
        match rest with
        | [] => (UserError ("Missing file for " ++ arg), g)
        | flag_filename :: _ =>
            match open_handle arg flag_filename g with
            | (Ok handle, g1) =>
                if arg =? "-c" then
                  match c_file g1 with
                  | Some _ => (UserError (arg ++ " specified twice"), g1)
                  | None => parse_args rest true (set_c_file handle g1)
                  end
                else if arg =? "-h" then
                  match h_file g1 with
                  | Some _ => (UserError (arg ++ " specified twice"), g1)
                  | None => parse_args rest true (set_h_file handle g1)
                  end
                else (InternalError "file flag error", g1)
            | (UserError msg, g1) => (UserError msg, g1)
            | (InternalError msg, g1) => (InternalError msg, g1)
            | (Crash exc, g1) => (Crash exc, g1)
            end
        end
      else if negb (Str.startswith "-" arg) then
        match plist_filename g with
        | Some f =>
            (UserError ("'" ++ arg ++ "': too many input files, already using '" ++ f ++ "'"), g)
        | None => parse_args rest false (set_plist_filename arg g)
        end
      else (UserError ("Unknown flag " ++ arg), g)
  end.

(** What follows the loop: the input file must have been named; the prefix
    and the two files get their defaults.  [settings] are the variables the
    rest of the script reads, as they are from then on. *)
Definition defaults (g : globals) : result settings :=
  match plist_filename g with
  | None => (UserError "No input file", g)
  | Some f =>
      (Ok (mkSettings
             match camel_prefix g with Some p => p | None => DEFAULT_PREFIX end
             match c_file g with Some c => c | None => devnull end
             match h_file g with Some h => h | None => devnull end
             f),
       g)
  end.

(** The script up to the reading of the document.  [None]: fewer than two
    arguments, the usage line is printed and the script leaves. *)
Definition read_args (argv : list string) : option (result settings) :=
  if (List.length argv <? 2)%nat then None
  else Some match parse_args (tl argv) false initial with
            | (Ok _, g) => defaults g
            | (UserError msg, g) => (UserError msg, g)
            | (InternalError msg, g) => (InternalError msg, g)
            | (Crash exc, g) => (Crash exc, g)
            end.

End Loop.

End Args.

(** ** Properties of the loop *)

Functional Scheme parse_args_ind := Induction for Args.parse_args Sort Prop.

Definition is_crash {A} (r : outcome A) : bool :=
  match r with Crash _ => true | _ => false end.

Section ArgsFacts.

Import Args.

Variable int : string -> option Z.
Variable writable : string -> bool.

Local Notation "'loop'" := (parse_args int writable).

Lemma not_dash a s :
  Str.startswith "-" a = false -> Str.startswith "-" s = true -> (a =? s) = false.
Proof.
  intros Ha Hs. destruct (String.eqb_spec a s) as [->|]; [congruence | reflexivity].
Qed.

(** The arguments that are read as a name: what is not a flag. *)
Lemma parse_args_name a rest g :
  Str.startswith "-" a = false ->
  loop (a :: rest) false g
  = match plist_filename g with
    | Some f =>
        (UserError ("'" ++ a ++ "': too many input files, already using '" ++ f ++ "'"), g)
    | None => loop rest false (set_plist_filename a g)
    end.
Proof.
  intros Ha. cbn [parse_args].
  rewrite !(not_dash a _ Ha) by reflexivity. cbn [orb]. now rewrite Ha.
Qed.

Lemma open_handle_inv arg f g h g1 :
  open_handle writable arg f g = (Ok h, g1) ->
  (f = "-" /\ h = stdout /\ g1 = g) \/
  (Str.startswith "-" f = false /\ writable f = true /\ h = File f /\ g1 = add_opened f g).
Proof.
  unfold open_handle. destruct (String.eqb_spec f "-") as [->|].
  - intros [= <- <-]. now left.
  - destruct (Str.startswith "-" f); [discriminate|].
    destruct (writable f) eqn:W; [|discriminate].
    intros [= <- <-]. now right.
Qed.

Lemma open_handle_ways_out arg f g :
  is_internal_error (fst (open_handle writable arg f g)) = false /\
  (writable f = true -> is_crash (fst (open_handle writable arg f g)) = false).
Proof.
  unfold open_handle.
  destruct (f =? "-"); [now split|]. destruct (Str.startswith "-" f); [now split|].
  destruct (writable f); now split.
Qed.

Lemma parse_args_not_internal args skip g :
  is_internal_error (fst (loop args skip g)) = false.
Proof.
  functional induction (parse_args int writable args skip g); try assumption;
    try reflexivity.
  all: try match goal with
    | H1 : (?a =? ?x) || (?a =? ?y) = true, H2 : (?a =? ?x) = false, H3 : (?a =? ?y) = false |- _ =>
        rewrite H2, H3 in H1; discriminate
    end.
  all: match goal with
    | H : open_handle _ ?a ?f ?g = _ |- _ =>
        pose proof (proj1 (open_handle_ways_out a f g)) as W; rewrite H in W; exact W
    end.
Qed.

Lemma parse_args_no_crash args skip g :
  forallb (fun v => negb (is_none (int v))) args = true -> forallb writable args = true ->
  is_crash (fst (loop args skip g)) = false.
Proof.
  functional induction (parse_args int writable args skip g); intros Hi Hw;
    try reflexivity.
  all: cbn [forallb] in Hi, Hw;
    repeat match goal with
    | H : _ && _ = true |- _ => apply andb_prop in H as [? ?]
    end.
  all: try match goal with
    | H1 : (?a =? ?x) || (?a =? ?y) = true, H2 : (?a =? ?x) = false, H3 : (?a =? ?y) = false |- _ =>
        rewrite H2, H3 in H1; discriminate
    end.
  all: try (apply IHr; cbn [forallb]; now rewrite ?andb_true_iff).
  all: try match goal with
    | H : int ?v = None, H' : negb (is_none (int ?v)) = true |- _ =>
        rewrite H in H'; discriminate
    end.
  all: match goal with
    | H : open_handle _ ?a ?f ?g = _, W : writable ?f = true |- _ =>
        pose proof (proj2 (open_handle_ways_out a f g) W) as W'; rewrite H in W'; exact W'
    end.
Qed.

(** A run of arguments that the loop gets through is a whole one: what comes
    after it is read from a fresh start. *)
Lemma parse_args_app xs ys skip g g1 :
  loop xs skip g = (Ok tt, g1) -> (skip = true -> xs <> []) ->
  loop (app xs ys) skip g = loop ys false g1.
Proof.
  functional induction (parse_args int writable xs skip g); intros E N;
    try discriminate.
  all: cbn [app parse_args];
    repeat match goal with
    | H : _ = true |- _ => rewrite H; clear H
    | H : _ = false |- _ => rewrite H; clear H
    | H : int _ = _ |- _ => rewrite H; clear H
    | H : open_handle _ _ _ _ = _ |- _ => rewrite H; clear H
    | H : c_file _ = _ |- _ => rewrite H; clear H
    | H : h_file _ = _ |- _ => rewrite H; clear H
    | H : plist_filename _ = _ |- _ => rewrite H; clear H
    end;
    cbn [orb negb].
  all: try (apply IHr; [exact E | discriminate]).
  destruct skip; [now elim N|]. now injection E as <-.
Qed.

Lemma open_handle_plist arg f g o g1 :
  open_handle writable arg f g = (o, g1) ->
  plist_filename g1 = plist_filename g /\ camel_prefix g1 = camel_prefix g /\
  c_file g1 = c_file g /\ h_file g1 = h_file g /\
  forall n, open_handle writable arg f (set_plist_filename n g) = (o, set_plist_filename n g1).
Proof.
  unfold open_handle. destruct (f =? "-"); [intros [= <- <-]; now repeat split|].
  destruct (Str.startswith "-" f); [intros [= <- <-]; now repeat split|].
  destruct (writable f); intros [= <- <-]; now repeat split.
Qed.

(** The name of the input file is set once and never taken back. *)
Lemma parse_args_keeps_name args skip g g1 :
  loop args skip g = (Ok tt, g1) -> plist_filename g1 = None -> plist_filename g = None.
Proof.
  functional induction (parse_args int writable args skip g); intros E N;
    try discriminate; try (now apply IHr).
  - now injection E as <-.
  - match goal with H : open_handle _ _ _ _ = _ |- _ =>
      destruct (open_handle_plist _ _ _ _ _ H) as (<- & _) end.
    now apply IHr.
  - match goal with H : open_handle _ _ _ _ = _ |- _ =>
      destruct (open_handle_plist _ _ _ _ _ H) as (<- & _) end.
    now apply IHr.
  - assumption.
Qed.

(** Options that are read without an input file are read the same way with
    one. *)
Lemma parse_args_with_name f args skip g g1 :
  loop args skip g = (Ok tt, g1) -> plist_filename g1 = None ->
  loop args skip (set_plist_filename f g) = (Ok tt, set_plist_filename f g1).
Proof.
  functional induction (parse_args int writable args skip g); intros E N;
    try discriminate.
  all: try match goal with H : open_handle _ _ _ _ = _ |- _ =>
      destruct (open_handle_plist _ _ _ _ _ H) as (_ & _ & _ & _ & Ho) end.
  all: try match goal with
    | H : plist_filename ?g = None |- context [set_plist_filename ?a ?g] =>
        pose proof (parse_args_keeps_name _ _ _ _ E N) as K; discriminate K
    end.
  all: cbn [parse_args];
    repeat match goal with
    | H : _ = true |- _ => rewrite H; clear H
    | H : _ = false |- _ => rewrite H; clear H
    | H : int _ = _ |- _ => rewrite H; clear H
    end;
    cbn [orb negb]; rewrite ?Ho;
    cbn [c_file h_file set_plist_filename];
    repeat match goal with
    | H : c_file _ = _ |- _ => rewrite H; clear H
    | H : h_file _ = _ |- _ => rewrite H; clear H
    end.
  - now injection E as <-.
  - now apply IHr.
  - now apply IHr.
  - now apply IHr.
  - now apply IHr.
  - now apply IHr.
Qed.

(** What the variables hold comes from the arguments. *)
Definition settled (all : list string) (g : globals) : Prop :=
  (forall f, plist_filename g = Some f -> In f all /\ Str.startswith "-" f = false) /\
  (forall p, camel_prefix g = Some p -> In "-p" all /\ In p all) /\
  (forall c, c_file g = Some c ->
     In "-c" all /\ (c = stdout \/ exists x, c = File x /\ In x (opened g))) /\
  (forall h, h_file g = Some h ->
     In "-h" all /\ (h = stdout \/ exists x, h = File x /\ In x (opened g))) /\
  Forall (fun x => In x all /\ writable x = true /\ Str.startswith "-" x = false) (opened g).

Lemma settled_initial all : settled all initial.
Proof. repeat split; try discriminate. constructor. Qed.

Lemma parse_args_settled all args skip g g1 :
  incl args all -> settled all g -> loop args skip g = (Ok tt, g1) -> settled all g1.
Proof.
  functional induction (parse_args int writable args skip g); intros I S E;
    try discriminate.
  all: try match type of I with
    | incl (?a :: ?r) _ =>
        assert (I' : incl r all) by (intros x Hx; apply I; now right);
        assert (Ia : In a all) by (apply I; now left)
    end.
  all: try match type of I with
    | incl (_ :: ?v :: _) _ => assert (Iv : In v all) by (apply I; right; now left)
    end.
  all: try (apply IHr; [exact I' | | exact E]).
  all: try exact S.
  all: try match goal with H : open_handle _ _ _ _ = _ |- _ =>
      apply open_handle_inv in H end.
  all: repeat match goal with
    | H : (?a =? _) = true |- _ => apply String.eqb_eq in H; subst a
    end.
  all: destruct S as (S1 & S2 & S3 & S4 & S5).
  - now injection E as <-.
  - split; [exact S1|]. split; [|exact (conj S3 (conj S4 S5))].
    intros p [= <-]. split; [exact Ia | exact Iv].
  - match goal with H : _ \/ _ |- _ =>
      destruct H as [(-> & -> & ->)|(D & W & -> & ->)] end.
    + split; [exact S1|]. split; [exact S2|]. split; [|exact (conj S4 S5)].
      intros c [= <-]. split; [exact Ia | now left].
    + split; [exact S1|]. split; [exact S2|]. cbn [c_file h_file opened set_c_file add_opened].
      split; [|split].
      * intros c [= <-]. split; [exact Ia|]. right. exists flag_filename.
        split; [reflexivity|]. apply in_or_app. right. now left.
      * intros h Hh. destruct (S4 h Hh) as [A [B|(x & B & Hx)]]; (split; [exact A|]);
          [now left|]. right. exists x. split; [exact B|]. apply in_or_app. now left.
      * apply Forall_app. split; [exact S5|]. constructor; [now repeat split | constructor].
  - match goal with H : _ \/ _ |- _ =>
      destruct H as [(-> & -> & ->)|(D & W & -> & ->)] end.
    + split; [exact S1|]. split; [exact S2|]. split; [exact S3|]. split; [|exact S5].
      intros c [= <-]. split; [exact Ia | now left].
    + split; [exact S1|]. split; [exact S2|]. cbn [c_file h_file opened set_h_file add_opened].
      split; [|split].
      * intros h Hh. destruct (S3 h Hh) as [A [B|(x & B & Hx)]]; (split; [exact A|]);
          [now left|]. right. exists x. split; [exact B|]. apply in_or_app. now left.
      * intros c [= <-]. split; [exact Ia|]. right. exists flag_filename.
        split; [reflexivity|]. apply in_or_app. right. now left.
      * apply Forall_app. split; [exact S5|]. constructor; [now repeat split | constructor].
  - split; [|exact (conj S2 (conj S3 (conj S4 S5)))].
    intros f [= <-]. split; [exact Ia|].
    match goal with H : negb _ = true |- _ => now apply negb_true_iff in H end.
Qed.

End ArgsFacts.

(** ** The whole script *)

Section Script.

Import Args.

Variable int : string -> option Z.
Variable writable : string -> bool.
Variable b64decode : string -> option (list byte).

(** [ET.parse(plist_filename).getroot()]; [None] where it raises. *)
Variable getroot : string -> option elem.

(** A run of the script: [None] when only the usage line is printed;
    otherwise how it ends, with the texts written and the handles they are
    written to, in the order of writing, and the variables of the command
    line.  Nothing is written unless the walk returns. *)
Definition script (argv : list string) : option (result (list (handle * string))) :=
  match read_args int writable argv with
  | None => None
  | Some (Ok s, g) =>
      match getroot (input s) with
      | None => Some (Crash "ET.parse", g)
      | Some root =>
          match write_output (prefix s) b64decode root with
          | Ok (c, h) => Some (Ok [(c_out s, c); (h_out s, h)], g)
          | UserError msg => Some (UserError msg, g)
          | InternalError msg => Some (InternalError msg, g)
          | Crash exc => Some (Crash exc, g)
          end
      end
  | Some (UserError msg, g) => Some (UserError msg, g)
  | Some (InternalError msg, g) => Some (InternalError msg, g)
  | Some (Crash exc, g) => Some (Crash exc, g)
  end.

End Script.

(** ** The input file among the options *)

(** The name of the input file may stand anywhere among the options: before
    them, after them or between two of them, the variables end up the same.
    Options here are arguments the loop gets through without meeting a
    name. *)
Theorem input_file_anywhere int writable xs ys f g g1 g2 :
  Str.startswith "-" f = false ->
  Args.parse_args int writable xs false g = (Ok tt, g1) ->
  Args.parse_args int writable ys false g1 = (Ok tt, g2) ->
  Args.plist_filename g2 = None ->
  Args.parse_args int writable (app xs (f :: ys)) false g
  = (Ok tt, Args.set_plist_filename f g2).
Proof.
  intros D E1 E2 N.
  rewrite (parse_args_app int writable xs (f :: ys) false g g1 E1) by discriminate.
  rewrite parse_args_name by exact D.
  rewrite (parse_args_keeps_name int writable ys false g1 g2 E2 N).
  now apply parse_args_with_name.
Qed.

Lemma input_file_anywhere_witness :
  Args.parse_args (fun _ => None) (fun _ => true)
    ["-p"; "My"; "Template.plist"; "-c"; "-"] false Args.initial
  = (Ok tt, Args.mkGlobals 0 (Some "My") (Some Args.stdout) None (Some "Template.plist") []).
Proof.
  exact (input_file_anywhere (fun _ => None) (fun _ => true)
           ["-p"; "My"] ["-c"; "-"] "Template.plist" Args.initial
           (Args.mkGlobals 0 (Some "My") None None None [])
           (Args.mkGlobals 0 (Some "My") (Some Args.stdout) None None [])
           eq_refl eq_refl eq_refl eq_refl).
Defined.

(** ** What the arguments set *)

(** When the arguments are accepted, the input file is one of them and does
    not start with a dash; the prefix is Oc unless -p stands among the
    arguments, and is one of them then; an output is [devnull] unless its flag
    stands among the arguments, and is [sys.stdout] or a file that has been
    opened then; only arguments that do not start with a dash have been
    opened. *)
Theorem read_args_settings int writable argv s g :
  Args.read_args int writable argv = Some (Ok s, g) ->
  (In (Args.input s) (tl argv) /\ Str.startswith "-" (Args.input s) = false) /\
  (Args.prefix s = "Oc" \/ In "-p" (tl argv) /\ In (Args.prefix s) (tl argv)) /\
  (Args.c_out s = Args.devnull \/
   In "-c" (tl argv) /\
   (Args.c_out s = Args.stdout \/
    exists x, Args.c_out s = Args.File x /\ In x (Args.opened g))) /\
  (Args.h_out s = Args.devnull \/
   In "-h" (tl argv) /\
   (Args.h_out s = Args.stdout \/
    exists x, Args.h_out s = Args.File x /\ In x (Args.opened g))) /\
  Forall (fun x => In x (tl argv) /\ writable x = true /\ Str.startswith "-" x = false)
    (Args.opened g).
Proof.
  unfold Args.read_args. destruct (List.length argv <? 2)%nat; [discriminate|].
  destruct (Args.parse_args int writable (tl argv) false Args.initial)
    as [[[] | | |] g0] eqn:E; try discriminate.
  intros H.
  destruct (parse_args_settled int writable (tl argv) (tl argv) false Args.initial g0
              (incl_refl _) (settled_initial _ _) E) as (S1 & S2 & S3 & S4 & S5).
  unfold Args.defaults in H.
  destruct (Args.plist_filename g0) as [f|] eqn:Ef; [|discriminate].
  injection H as <- <-. cbn [Args.input Args.prefix Args.c_out Args.h_out].
  split; [now apply S1|]. split; [|split; [|split; [|exact S5]]].
  - destruct (Args.camel_prefix g0) as [p|]; [right; now apply S2 | now left].
  - destruct (Args.c_file g0) as [c|]; [right; now apply S3 | now left].
  - destruct (Args.h_file g0) as [h|]; [right; now apply S4 | now left].
Qed.

Lemma read_args_settings_witness :
  let argv := ["PlistToConfig.py"; "-c"; "Out.c"; "Template.plist"] in
  let s := Args.mkSettings "Oc" (Args.File "Out.c") Args.devnull "Template.plist" in
  let g := Args.mkGlobals 0 None (Some (Args.File "Out.c")) None (Some "Template.plist")
             ["Out.c"] in
  (In (Args.input s) (tl argv) /\ Str.startswith "-" (Args.input s) = false) /\
  (Args.prefix s = "Oc" \/ In "-p" (tl argv) /\ In (Args.prefix s) (tl argv)) /\
  (Args.c_out s = Args.devnull \/
   In "-c" (tl argv) /\
   (Args.c_out s = Args.stdout \/
    exists x, Args.c_out s = Args.File x /\ In x (Args.opened g))) /\
  (Args.h_out s = Args.devnull \/
   In "-h" (tl argv) /\
   (Args.h_out s = Args.stdout \/
    exists x, Args.h_out s = Args.File x /\ In x (Args.opened g))) /\
  Forall (fun x => In x (tl argv) /\ (fun _ => true) x = true /\
                   Str.startswith "-" x = false)
    (Args.opened g).
Proof.
  exact (read_args_settings (fun _ => None) (fun _ => true)
           ["PlistToConfig.py"; "-c"; "Out.c"; "Template.plist"] _ _ eq_refl).
Defined.

(** ** Where the loop can die *)

(** The loop over the arguments dies only inside [int] or [open]: when [int]
    takes every argument and every argument can be opened for writing, the
    loop ends at its end or in a user error, whatever the variables were. *)
Theorem parse_args_dies_in_libraries_only int writable args skip g :
  forallb (fun v => negb (is_none (int v))) args = true ->
  forallb writable args = true ->
  is_ok (fst (Args.parse_args int writable args skip g))
  || is_user_error (fst (Args.parse_args int writable args skip g)) = true.
Proof.
  intros Hi Hw.
  pose proof (parse_args_not_internal int writable args skip g) as I.
  pose proof (parse_args_no_crash int writable args skip g Hi Hw) as C.
  now destruct (fst (Args.parse_args int writable args skip g)).
Qed.

Lemma parse_args_dies_in_libraries_only_witness :
  is_ok (fst (Args.parse_args (fun _ => Some 8%Z) (fun _ => true)
                ["-f"; "8"; "-x"] false Args.initial))
  || is_user_error (fst (Args.parse_args (fun _ => Some 8%Z) (fun _ => true)
                           ["-f"; "8"; "-x"] false Args.initial)) = true.
Proof.
  exact (parse_args_dies_in_libraries_only (fun _ => Some 8%Z) (fun _ => true)
           ["-f"; "8"; "-x"] false Args.initial eq_refl eq_refl).
Defined.

(** ** A flag given twice *)

(** When -c or -h comes a second time, the file it names is opened, and so
    emptied, before the second use is refused; what follows is not read.  With
    a lone dash nothing is opened. *)
Theorem second_file_opened_before_refusal int writable xs flag b ys g g1 :
  Args.parse_args int writable xs false g = (Ok tt, g1) ->
  flag = "-c" /\ Args.c_file g1 <> None \/ flag = "-h" /\ Args.h_file g1 <> None ->
  Str.startswith "-" b = false -> writable b = true ->
  Args.parse_args int writable (app xs (flag :: b :: ys)) false g
  = (UserError (flag ++ " specified twice"), Args.add_opened b g1) /\
  Args.parse_args int writable (app xs (flag :: "-" :: ys)) false g
  = (UserError (flag ++ " specified twice"), g1).
Proof.
  intros E F D W.
  rewrite !(parse_args_app int writable xs _ false g g1 E) by discriminate.
  assert (Nb : (b =? "-") = false) by now apply not_dash.
  destruct F as [[-> F]|[-> F]]; cbn [Args.parse_args String.eqb Ascii.eqb Bool.eqb andb orb];
    unfold Args.open_handle; rewrite Nb, D, W; cbn [String.eqb Ascii.eqb Bool.eqb andb];
    cbn [Args.c_file Args.h_file Args.add_opened].
  - destruct (Args.c_file g1); [now split | now elim F].
  - destruct (Args.h_file g1); [now split | now elim F].
Qed.

Lemma second_file_opened_before_refusal_witness :
  Args.parse_args (fun _ => None) (fun _ => true)
    ["-c"; "First.c"; "-c"; "Second.c"; "Template.plist"] false Args.initial
  = (UserError "-c specified twice",
     Args.mkGlobals 0 None (Some (Args.File "First.c")) None None ["First.c"; "Second.c"]) /\
  Args.parse_args (fun _ => None) (fun _ => true)
    ["-c"; "First.c"; "-c"; "-"; "Template.plist"] false Args.initial
  = (UserError "-c specified twice",
     Args.mkGlobals 0 None (Some (Args.File "First.c")) None None ["First.c"]).
Proof.
  refine (second_file_opened_before_refusal (fun _ => None) (fun _ => true)
            ["-c"; "First.c"] "-c" "Second.c" ["Template.plist"] Args.initial
            (Args.mkGlobals 0 None (Some (Args.File "First.c")) None None ["First.c"])
            eq_refl (or_introl (conj eq_refl _)) eq_refl eq_refl).
  discriminate.
Defined.

(** ** The ways out of the script *)

(** No command line and no document make the script report an internal
    error: the three calls of [internal_error] are never reached.  The usage
    line is printed exactly when there are fewer than two arguments. *)
Theorem script_never_internal_error int writable b64decode getroot argv :
  match script int writable b64decode getroot argv with
  | None => (List.length argv < 2)%nat
  | Some (r, _) => (2 <= List.length argv)%nat /\ is_internal_error r = false
  end.
Proof.
  unfold script, Args.read_args.
  destruct (Nat.ltb_spec (List.length argv) 2) as [L|L]; [exact L|].
  pose proof (parse_args_not_internal int writable (tl argv) false Args.initial) as P.
  destruct (Args.parse_args int writable (tl argv) false Args.initial)
    as [[[] | | |] g0]; cbn in P; try discriminate; try (split; [exact L | reflexivity]).
  unfold Args.defaults. destruct (Args.plist_filename g0) as [f|]; [|now split].
  cbn [Args.input Args.prefix Args.c_out Args.h_out].
  destruct (getroot f) as [root|]; [|now split].
  unfold write_output, run.
  set (p := match Args.camel_prefix g0 with Some p => p | None => Args.DEFAULT_PREFIX end).
  destruct (parse_elem_ok p b64decode root (Some []) None None) as [_ R].
  unfold returns in R. specialize (R []).
  destruct (parse_elem p b64decode root (Some []) None None []) as [[r | | |] h];
    try (split; [exact L | reflexivity]). contradiction.
Qed.

(** A command line that is accepted, naming a document that is read and well
    formed, makes the script write two texts, first to the .c output and then
    to the .h output; with a quiet prefix they are the header followed by the
    template with its marks filled, the body of the .h text being the
    declarations of the tree that was built. *)
Theorem script_writes_both_files int writable b64decode getroot argv s g root :
  Args.read_args int writable argv = Some (Ok s, g) ->
  getroot (Args.input s) = Some root ->
  well_formed b64decode root = true ->
  quiet (Args.prefix s) = true ->
  exists n,
    run (Args.prefix s) b64decode root = (Ok (NOc n), emitted n) /\
    script int writable b64decode getroot argv
    = Some (Ok [(Args.c_out s,
                 SHARED_HEADER
                 ++ expand_all (Args.prefix s)
                      (("// c_structors" ++ nl) ++ "// c_schema" ++ nl) C_TEMPLATE_segments);
                (Args.h_out s,
                 SHARED_HEADER
                 ++ expand_all (Args.prefix s) (h_read (emitted n)) H_TEMPLATE_segments)],
            g).
Proof.
  intros A G W Q.
  destruct (walk_classified (Args.prefix s) b64decode root [] None None []) as ((n & E) & _);
    [exact W|].
  exists n. split; [exact E|].
  unfold script. rewrite A, G. unfold write_output.
  unfold run. rewrite E. cbn [app].
  unfold c_text, h_text.
  destruct C_TEMPLATE_cut as [-> Hc]. destruct H_TEMPLATE_cut as [-> Hh].
  now rewrite !customise_segments.
Qed.

Lemma script_writes_both_files_witness :
  exists n,
    run "Oc" Base64.a2b_base64 two_fields_doc = (Ok (NOc n), emitted n) /\
    script (fun _ => None) (fun _ => true) Base64.a2b_base64 (fun _ => Some two_fields_doc)
      ["PlistToConfig.py"; "-h"; "-"; "Template.plist"]
    = Some (Ok [(Args.devnull,
                 SHARED_HEADER
                 ++ expand_all "Oc" (("// c_structors" ++ nl) ++ "// c_schema" ++ nl)
                      C_TEMPLATE_segments);
                (Args.stdout,
                 SHARED_HEADER ++ expand_all "Oc" (h_read (emitted n)) H_TEMPLATE_segments)],
            Args.mkGlobals 0 None None (Some Args.stdout) (Some "Template.plist") []).
Proof.
  exact (script_writes_both_files (fun _ => None) (fun _ => true) Base64.a2b_base64
           (fun _ => Some two_fields_doc)
           ["PlistToConfig.py"; "-h"; "-"; "Template.plist"]
           (Args.mkSettings "Oc" Args.devnull Args.stdout "Template.plist")
           (Args.mkGlobals 0 None None (Some Args.stdout) (Some "Template.plist") [])
           two_fields_doc eq_refl eq_refl eq_refl eq_refl).
Defined.
